(** * RABIES preprocessing core: confound design matrix, volume split/merge,
      reference-image estimation and per-frame transform application.

    A shallow embedding of
      - [workflows/preprocess_bold_pkg/confounds.py]
      - [workflows/preprocess_bold_pkg/utils.py]
    Python exceptions are an explicit outcome, the working directory and the
    external executables are an explicit world that is threaded through every
    call, and numpy arrays are a shape together with an element function. *)

From Stdlib Require Import QArith.
From stdpp Require Import base list strings pretty gmap.

Set Default Proof Using "Type".
Local Open Scope nat_scope.

(** ** Python outcomes *)

(** The exceptions the modelled code can raise.  [CommandError] stands for
    the error nipype raises when a command line exits with a nonzero status,
    [ImageFileError] for nibabel failing to read a file as an image. *)
Inductive exn : Set :=
  | IndexError
  | ValueError
  | TypeError
  | UnboundLocalError
  | FileNotFoundError
  | ImageFileError
  | CommandError.

Inductive outcome (A : Type) : Type :=
  | Ret (a : A)
  | Raise (e : exn).
Arguments Ret {A} a.
Arguments Raise {A} e.

Global Instance outcome_ret : MRet outcome := @Ret.
Global Instance outcome_bind : MBind outcome := λ A B f m,
  match m with
  | Ret a => f a
  | Raise e => Raise e
  end.

(** [for x in xs: acc = body(x, acc)] with exceptions. *)
Fixpoint for_each {A B : Type} (xs : list A) (body : A → B → outcome B)
    (acc : B) : outcome B :=
  match xs with
  | [] => Ret acc
  | x :: xs' => acc' ← body x acc; for_each xs' body acc'
  end.

(** [range(n)] and [range(lo, hi)]. *)
Definition range (n : nat) : list nat := seq 0 n.
Definition range2 (lo hi : nat) : list nat := seq lo (hi - lo).

(** ** Numbers *)

(** The float64 operations the code applies to array elements, and the two
    numpy reductions it calls.  Nothing below depends on a law of these
    operations: every statement holds for whatever arithmetic the
    interpreter provides. *)
Class Float64 (V : Type) := {
  f_zero : V;                       (* the literal 0 and the cells of np.zeros *)
  f_half : V;                       (* the literal 0.5 *)
  f_add : V → V → V;                (* + *)
  f_square : V → V;                 (* ** 2 *)
  f_le : V → V → bool;              (* <= *)
  f_of_string : string → option V;  (* float(s); None is a ValueError *)
  np_median : list V → V;           (* np.median of a 1-D sequence *)
  np_mean : list V → V;             (* ndarray.mean of a 1-D sequence *)
}.

(** ** numpy arrays *)

Record ndarray (V : Type) : Type := NdArray {
  shape : list nat;
  item : list nat → V;
}.
Arguments NdArray {V} shape item.
Arguments shape {V} _.
Arguments item {V} _ _.

(** [a[r, c]] without the bounds check. *)
Definition item2 {V} (a : ndarray V) (r c : nat) : V := item a [r; c].

(** Materialise a 2-D array as a list of rows. *)
Definition to_rows {V} (a : ndarray V) : list (list V) :=
  match shape a with
  | [n; m] => map (λ r, map (λ c, item2 a r c) (range m)) (range n)
  | _ => []
  end.

Section Numpy.
Context {V : Type} {num : Float64 V}.

(** [np.zeros(shape)] *)
Definition np_zeros (sh : list nat) : ndarray V :=
  NdArray sh (λ _, f_zero).

(** [a[r, c]] on a 2-D array with non-negative indices. *)
Definition get_item2 (a : ndarray V) (r c : nat) : outcome V :=
  match shape a with
  | [n; m] => if (r <? n) && (c <? m) then Ret (item2 a r c) else Raise IndexError
  | _ => Raise IndexError
  end.

(** [a[r, c] = v] *)
Definition set_item2 (a : ndarray V) (r c : nat) (v : V) : outcome (ndarray V) :=
  match shape a with
  | [n; m] =>
      if (r <? n) && (c <? m)
      then Ret (NdArray (shape a)
                  (λ idx, if decide (idx = [r; c]) then v else item a idx))
      else Raise IndexError
  | _ => Raise IndexError
  end.

(** [a[lo:, c]] ([back = 0]) and [a[lo:-back, c]]: the rows
    [lo <= r < n - back] of column [c], as a sequence. *)
Definition get_col (a : ndarray V) (lo back c : nat) : outcome (list V) :=
  match shape a with
  | [n; m] =>
      if c <? m then Ret (map (λ r, item2 a r c) (range2 lo (n - back)))
      else Raise IndexError
  | _ => Raise IndexError
  end.

(** [a[lo:, c] = vs].  The sequences assigned by the code have one value
    per target row; any other length is rejected (numpy would also accept
    a single value and repeat it, which no caller relies on). *)
Definition set_col (a : ndarray V) (lo c : nat) (vs : list V) : outcome (ndarray V) :=
  match shape a with
  | [n; m] =>
      if c <? m then
        if decide (length vs = n - lo)
        then Ret (NdArray (shape a)
                    (λ idx, match idx with
                            | [r; c'] =>
                                if decide (c' = c ∧ lo ≤ r < n)
                                then nth (r - lo) vs f_zero
                                else item a idx
                            | _ => item a idx
                            end))
        else Raise ValueError
      else Raise IndexError
  | _ => Raise IndexError
  end.

(** [a[:, :k] = src] for a source of the same height and width [k].  The
    one caller passes the result of [extract_rigid_movpar], whose shape is
    always [(t, 6)], so numpy's broadcasting of other shapes is never
    reached; shapes that differ are rejected. *)
Definition set_left_block (a : ndarray V) (k : nat) (src : ndarray V) : outcome (ndarray V) :=
  match shape a with
  | [n; m] =>
      if decide (shape src = [n; k] ∧ k ≤ m)
      then Ret (NdArray (shape a)
                  (λ idx, match idx with
                          | [r; c] => if decide (c < k) then item2 src r c else item a idx
                          | _ => item a idx
                          end))
      else Raise ValueError
  | _ => Raise ValueError
  end.

(** [np.size(a, 0)] *)
Definition np_size0 (a : ndarray V) : outcome nat :=
  match shape a with
  | n :: _ => Ret n
  | [] => Raise IndexError
  end.
(** Frame [x] of an array: the fourth axis fixed at [x] and removed. *)
Definition frame (a : ndarray V) (x : nat) : ndarray V :=
  NdArray (take 3 (shape a) ++ drop 4 (shape a))
    (λ idx, match idx with
            | i :: j :: k :: more => item a (i :: j :: k :: x :: more)
            | _ => item a idx
            end).

(** [a[:, :, :, x]] ([terms = 4]) and [a[:, :, :, x, :]] ([terms = 5]): an
    integer on the fourth axis; more index terms than axes is an error. *)
Definition index_axis3 (terms : nat) (a : ndarray V) (x : nat) : outcome (ndarray V) :=
  match shape a !! 3 with
  | Some d3 =>
      if (terms <=? length (shape a)) && (x <? d3)
      then Ret (frame a x)
      else Raise IndexError
  | None => Raise IndexError
  end.

(** [a[:, :, :, lo:hi]] *)
Definition slice_axis3 (a : ndarray V) (lo hi : nat) : outcome (ndarray V) :=
  match shape a with
  | d0 :: d1 :: d2 :: d3 :: rest =>
      Ret (NdArray (d0 :: d1 :: d2 :: (hi `min` d3 - lo) :: rest)
             (λ idx, match idx with
                     | i :: j :: k :: t :: more => item a (i :: j :: k :: lo + t :: more)
                     | _ => item a idx
                     end))
  | _ => Raise IndexError
  end.

(** [a[:, :, :]] *)
Definition slice3 (a : ndarray V) : outcome (ndarray V) :=
  if 3 <=? length (shape a) then Ret a else Raise IndexError.

(** [np.median(a, axis=3)] *)
Definition np_median_axis3 (a : ndarray V) : outcome (ndarray V) :=
  match shape a with
  | d0 :: d1 :: d2 :: d3 :: rest =>
      Ret (NdArray (d0 :: d1 :: d2 :: rest)
             (λ idx, match idx with
                     | i :: j :: k :: more =>
                         np_median (map (λ t, item a (i :: j :: k :: t :: more)) (range d3))
                     | _ => f_zero
                     end))
  | _ => Raise IndexError
  end.

(** [a.mean(axis=0)] *)
Definition mean_axis0 (a : ndarray V) : outcome (ndarray V) :=
  match shape a with
  | d0 :: rest =>
      Ret (NdArray rest (λ idx, np_mean (map (λ i, item a (i :: idx)) (range d0))))
  | [] => Raise IndexError
  end.

(** Assignment broadcasts the source to the target: leading axes of length
    1 in excess of the target's rank are dropped, then every axis must have
    the target's length or length 1. *)
Fixpoint strip_leading_ones (sh : list nat) (excess : nat) : option (list nat) :=
  match excess with
  | 0 => Some sh
  | S excess' =>
      match sh with
      | 1 :: sh' => strip_leading_ones sh' excess'
      | _ => None
      end
  end.

Definition broadcast_index (src_shape idx : list nat) : list nat :=
  zip_with (λ d i, if decide (d = 1) then 0 else i) src_shape idx.

(** [combined[:, :, :, i] = src] on a 4-D target. *)
Definition set_axis3 (combined : ndarray V) (i : nat) (src : ndarray V) : outcome (ndarray V) :=
  match shape combined with
  | [s0; s1; s2; len] =>
      if i <? len then
        let excess := length (shape src) - 3 in
        match strip_leading_ones (shape src) excess with
        | Some sh =>
            if decide (Forall2 (λ d s, d = 1 ∨ d = s) sh [s0; s1; s2])
            then Ret (NdArray (shape combined)
                        (λ idx, match idx with
                                | [a; b; c; t] =>
                                    if decide (t = i)
                                    then item src (replicate excess 0 ++ broadcast_index sh [a; b; c])
                                    else item combined idx
                                | _ => item combined idx
                                end))
            else Raise ValueError
        | None => Raise ValueError
        end
      else Raise IndexError
  | _ => Raise IndexError
  end.
End Numpy.

(** ** Python strings and paths *)

(** [s.split(sep)] for a non-empty separator: left to right, matches do not
    overlap.  [skip] counts the characters of a matched separator that are
    still to be consumed, [cur] is the current piece, reversed. *)
Fixpoint py_split_go (sep : string) (skip : nat) (cur s : string) : list string :=
  match s with
  | EmptyString => [String.rev cur]
  | String c s' =>
      match skip with
      | S k => py_split_go sep k cur s'
      | O =>
          if String.prefix sep s
          then String.rev cur :: py_split_go sep (String.length sep - 1) "" s'
          else py_split_go sep 0 (String c cur) s'
      end
  end.

Definition py_split (sep s : string) : list string := py_split_go sep 0 "" s.

(** [l[k]] for a non-negative [k]. *)
Definition py_index {A} (l : list A) (k : nat) : outcome A :=
  match l !! k with
  | Some x => Ret x
  | None => Raise IndexError
  end.

(** [s[0]] *)
Definition py_first_char (s : string) : outcome string :=
  match s with
  | String c _ => Ret (String c "")
  | EmptyString => Raise IndexError
  end.

(** [os.path.basename(p)] *)
Definition basename (p : string) : string := List.last (py_split "/" p) "".

(** [str(x)] for a non-negative integer. *)
Definition py_str (x : nat) : string := pretty x.

(** ** Images, files and the world *)

Record header : Type := Header {
  extensions : list string;
  fields : list (string * string);
}.

Record nifti (V : Type) : Type := Nifti1Image {
  dataobj : ndarray V;
  affine : ndarray V;
  nii_header : header;
}.
Arguments Nifti1Image {V} dataobj affine nii_header.
Arguments dataobj {V} _.
Arguments affine {V} _.
Arguments nii_header {V} _.

(** [pandas.DataFrame]: column labels and rows of cells. *)
Record dataframe (V : Type) : Type := DataFrame {
  columns : list string;
  df_rows : list (list V);
}.
Arguments DataFrame {V} columns df_rows.
Arguments columns {V} _.
Arguments df_rows {V} _.

(** What a path can hold: an image, a comma-separated text already cut into
    rows of cells by [csv.reader], or a table written by [DataFrame.to_csv]
    (header row and index column included). *)
Inductive file (V : Type) : Type :=
  | NiftiFile (img : nifti V)
  | CsvFile (rows : list (list string))
  | DataFrameCsv (df : dataframe V).
Arguments NiftiFile {V} img.
Arguments CsvFile {V} rows.
Arguments DataFrameCsv {V} df.

(** Command lines handed to executables outside the repository. *)
Inductive command : Set :=
  | antsMotionCorr_cmd (ref_file in_file : string)
  | mv_cmd (src dst : string)
  | antsApplyTransforms_cmd (dimension : nat) (float : bool)
      (input_image reference_image output_image : string)
      (transforms : list string) (interpolation : string).

(** The world: working directory (the names on the path from the root),
    files by absolute path (directories are not tracked), what was printed,
    and the command lines run so far, oldest first, each with the files as
    they were when it started. *)
Record world (V : Type) : Type := World {
  cwd : list string;
  files : gmap string (file V);
  stdout : list string;
  commands : list (command * gmap string (file V));
}.
Arguments World {V} cwd files stdout commands.
Arguments cwd {V} _.
Arguments files {V} _.
Arguments stdout {V} _.
Arguments commands {V} _.

(** The collaborators of the core: executables and library routines whose
    code is outside the repository.  An executable may change any file. *)
Class Collaborators (V : Type) := {
  (* running a command line in a working directory; Raise is a nonzero exit *)
  exec : command → list string → gmap string (file V) → outcome (gmap string (file V));
  (* nipype.algorithms.confounds.is_outlier *)
  is_outlier : ndarray V → nat;
  (* NiftiMasker(mask_img, standardize=True, detrend=True).fit_transform(img) *)
  masker_fit_transform : nifti V → nifti V → outcome (ndarray V);
  (* nilearn.masking.apply_mask(imgs, mask_img) *)
  apply_mask : nifti V → nifti V → outcome (ndarray V);
  (* PCA().fit(X).explained_variance_ratio_ *)
  pca_explained_variance_ratio : ndarray V → outcome (list V);
  (* PCA(n_components=k).fit_transform(X) *)
  pca_fit_transform : nat → ndarray V → outcome (ndarray V);
}.

(** nibabel writes the voxels of an image in the data type recorded in the
    header it is given.  [stored h a idx] is what is read back at [idx] from
    a file written with header [h] for an array [a] that was computed in
    memory as float64 ([np.zeros], [np.median]): the value of [a] itself
    when the type of [h] holds float64 values, a rescaled and rounded value
    when it is an integer type.  The shape is kept. *)
Class Nibabel (V : Type) := {
  stored : header → ndarray V → list nat → V;
}.

Definition on_disk {V} `{Nibabel V} (h : header) (a : ndarray V) : ndarray V :=
  NdArray (shape a) (stored h a).

(** The data type of the header holds float64 values as they are. *)
Definition holds_float64 {V} `{Nibabel V} (h : header) : Prop :=
  ∀ a idx, stored h a idx = item a idx.

(** Code that raises and touches the world. *)
Definition io (V A : Type) : Type := world V → outcome A * world V.

Global Instance io_ret {V} : MRet (io V) := λ A a w, (Ret a, w).
Global Instance io_bind {V} : MBind (io V) := λ A B f m w,
  match m w with
  | (Ret a, w') => f a w'
  | (Raise e, w') => (Raise e, w')
  end.

Section IO.
Context {V : Type} {num : Float64 V} {tools : Collaborators V} {disk : Nibabel V}.

Definition lift {A} (o : outcome A) : io V A := λ w, (o, w).
Definition raise {A} (e : exn) : io V A := λ w, (Raise e, w).

(** [for x in xs: body(x)] threading an accumulator. *)
Fixpoint for_io {A B : Type} (xs : list A) (body : A → B → io V B)
    (acc : B) : io V B :=
  match xs with
  | [] => mret acc
  | x :: xs' => acc' ← body x acc; for_io xs' body acc'
  end.

Definition print (s : string) : io V () := λ w,
  (Ret (), World (cwd w) (files w) (stdout w ++ [s]) (commands w)).

(** [os.path.abspath(p)] for a path with nothing to normalise. *)
Definition dir_path (dir : list string) : string :=
  foldr (λ name rest, "/" +:+ name +:+ rest) "" dir.

Definition resolve (dir : list string) (p : string) : string :=
  if String.prefix "/" p then p else dir_path dir +:+ "/" +:+ p.

Definition abspath (p : string) : io V string := λ w, (Ret (resolve (cwd w) p), w).

Definition read_file (p : string) : io V (file V) := λ w,
  match files w !! resolve (cwd w) p with
  | Some f => (Ret f, w)
  | None => (Raise FileNotFoundError, w)
  end.

Definition write_file (p : string) (f : file V) : io V () := λ w,
  (Ret (), World (cwd w) (<[resolve (cwd w) p := f]> (files w)) (stdout w) (commands w)).

(** [CommandLine(...).run()] *)
Definition run_command (c : command) : io V () := λ w,
  match exec c (cwd w) (files w) with
  | Ret fs' => (Ret (), World (cwd w) fs' (stdout w) (commands w ++ [(c, files w)]))
  | Raise e => (Raise e, World (cwd w) (files w) (stdout w) (commands w ++ [(c, files w)]))
  end.

(** [csv.reader(open(p), delimiter=',', quotechar='|')] read to the end. *)
Definition read_csv (p : string) : io V (list (list string)) :=
  f ← read_file p;
  match f with
  | CsvFile rows => mret rows
  | NiftiFile _ | DataFrameCsv _ => raise ValueError
  end.

(** [nb.load(p)], read at once. *)
Definition nb_load (p : string) : io V (nifti V) :=
  f ← read_file p;
  match f with
  | NiftiFile img => mret img
  | CsvFile _ | DataFrameCsv _ => raise ImageFileError
  end.

(** [img.to_filename(p)] for an image whose array has the data type of its
    header, as a slice of the image the header comes from has: the voxels
    are written as they are. *)
Definition to_filename (img : nifti V) (p : string) : io V () :=
  write_file p (NiftiFile img).

(** [img.to_filename(p)] for an image whose array was computed in memory as
    float64 and whose header comes from another image: the voxels are
    written in the data type of that header. *)
Definition to_filename_float64 (img : nifti V) (p : string) : io V () :=
  write_file p
    (NiftiFile (Nifti1Image (on_disk (nii_header img) (dataobj img)) (affine img)
                  (nii_header img))).

(** A computation that writes no file, runs no command and stays in its
    directory (it may print). *)
Definition quiet {A} (m : io V A) : Prop :=
  ∀ w r w', m w = (r, w') →
    files w' = files w ∧ commands w' = commands w ∧ cwd w' = cwd w.

(** A computation never takes back a command it has run. *)
Definition grows {A} (m : io V A) : Prop :=
  ∀ w r w', m w = (r, w') → ∃ more, commands w' = commands w ++ more.

(** The file-name template every interface derives from its input:
    [subject_id], the character after ['_ses-'] and the character after
    ['_run-'] of the base name. *)
Definition template_name (p : string) : outcome string :=
  let base := basename p in
  subject_id ← py_index (py_split "_ses-" base) 0;
  session ← py_index (py_split "_ses-" base) 1 ≫= py_first_char;
  run ← py_index (py_split "_run-" base) 1 ≫= py_first_char;
  Ret (subject_id +:+ "_ses-" +:+ session +:+ "_run-" +:+ run).

Definition filename_template (p : string) : io V string :=
  name ← lift (template_name p);
  abspath name.
End IO.

(** * confounds.py *)

Module Confounds.
Section Confounds.
Context {V : Type} {num : Float64 V} {tools : Collaborators V}.

(** [float(row[i])] *)
Definition py_float (s : string) : outcome V :=
  match f_of_string s with
  | Some v => Ret v
  | None => Raise ValueError
  end.

(** [extract_rigid_movpar]: the rows after the header, cells from index 2
    on, into a table of zeros with 6 columns. *)
Definition extract_rigid_movpar (movpar_csv : string) : io V (ndarray V) :=
  temp ← read_csv movpar_csv;
  match temp with
  | [] => raise ValueError          (* np.zeros([-1, 6]) *)
  | _ :: data =>
      let movpar := np_zeros [length temp - 1; 6] in
      res ← lift (for_each data (λ row '(movpar, j),
               movpar ← for_each (range2 2 (length row)) (λ i movpar,
                           cell ← py_index row i;
                           v ← py_float cell;
                           set_item2 movpar j (i - 2) v) movpar;
               Ret (movpar, j + 1)) (movpar, 0));
      mret res.1
  end.

(** One turn of the loop of [motion_24_params], for parameter [i]. *)
Definition motion_24_column (i : nat) (movpar : ndarray V) : outcome (ndarray V) :=
  (* add the timepoint 1 TR before *)
  first ← get_item2 movpar 0 i;
  movpar ← set_item2 movpar 0 (6 + i) first;
  prev ← get_col movpar 0 1 i;
  movpar ← set_col movpar 1 (6 + i) prev;
  (* add the squared coefficients *)
  raw ← get_col movpar 0 0 i;
  movpar ← set_col movpar 0 (12 + i) (map f_square raw);
  shifted ← get_col movpar 0 0 (6 + i);
  set_col movpar 0 (18 + i) (map f_square shifted).

(** [motion_24_params] once the table is read. *)
Definition motion_24_params_body (rigid_params : ndarray V) : outcome (ndarray V) :=
  t ← np_size0 rigid_params;
  let movpar := np_zeros [t; 24] in
  movpar ← set_left_block movpar 6 rigid_params;
  for_each (range 6) motion_24_column movpar.

Definition motion_24_params (movpar_csv : string) : io V (ndarray V) :=
  rigid_params ← extract_rigid_movpar movpar_csv;
  lift (motion_24_params_body rigid_params).

(** The parameter of column [i] one frame before row [r]; row 0 repeats
    itself. *)
Definition lagged (rigid_params : ndarray V) (r i : nat) : V :=
  match r with
  | 0 => item2 rigid_params 0 i
  | S r' => item2 rigid_params r' i
  end.
(** The table after the loop of [motion_24_params] has handled the
    parameters below [k]. *)
Definition expanded_upto (rigid_params : ndarray V) (t k : nat) (movpar : ndarray V) : Prop :=
  shape movpar = [t; 24] ∧
  ∀ r i, r < t → i < 6 →
    item2 movpar r i = item2 rigid_params r i ∧
    (i < k →
      item2 movpar r (6 + i) = lagged rigid_params r i ∧
      item2 movpar r (12 + i) = f_square (item2 rigid_params r i) ∧
      item2 movpar r (18 + i) = f_square (lagged rigid_params r i)).

(** The value of [cum_var] after [k] turns of the loop of
    [compute_aCompCor]. *)
Definition cum_var_after (explained_variance : list V) (k : nat) : V :=
  fold_left f_add (take k explained_variance) f_zero.

(** [cum_var] exceeds the threshold: the loop guard [cum_var <= 0.5] is
    false. *)
Definition exceeds_half (v : V) : Prop := f_le v f_half = false.

(** What the code relies on from [PCA(n_components=k).fit_transform]: the
    returned table has [k] columns. *)
Definition pca_returns_k_columns : Prop :=
  ∀ k X comp, pca_fit_transform k X = Ret comp → shape comp !! 1 = Some k.

(** [extract_mask_trace]: the mean over the mask's voxels at each time
    point.  [apply_mask] returns a 2-D array (time points by voxels). *)
Definition extract_mask_trace (bold mask : string) : io V (list V) :=
  bold_img ← nb_load bold;
  mask_img ← nb_load mask;
  mask_signal ← lift (apply_mask bold_img mask_img);
  match shape mask_signal with
  | [n; m] => mret (map (λ r, np_mean (map (λ c, item2 mask_signal r c) (range m))) (range n))
  | _ => raise IndexError
  end.

(** The [while] loop of [compute_aCompCor]: [rest] is what is left of
    [explained_variance] from index [num_comp] on, so reading
    [explained_variance[num_comp]] past the end is the empty case. *)
Fixpoint while_cum_var (rest : list V) (cum_var : V) (num_comp : nat) : outcome nat :=
  if f_le cum_var f_half then
    match rest with
    | [] => Raise IndexError
    | x :: rest' => while_cum_var rest' (f_add cum_var x) (S num_comp)
    end
  else Ret num_comp.

(** [compute_aCompCor].  [num_comp] is a local that only two of the three
    branches on [method] assign. *)
Definition compute_aCompCor (bold mask method : string) : io V (ndarray V * nat) :=
  mask_img ← nb_load mask;
  bold_img ← nb_load bold;
  mask_timeseries ← lift (masker_fit_transform mask_img bold_img);
  num_comp ← (if decide (method = "50%") then
                explained_variance ← lift (pca_explained_variance_ratio mask_timeseries);
                n ← lift (while_cum_var explained_variance f_zero 0);
                mret (Some n)
              else if decide (method = "first_5") then mret (Some 5)
              else mret None);
  n_components ← match num_comp with
                 | Some n => mret n
                 | None => raise UnboundLocalError
                 end;
  comp_timeseries ← lift (pca_fit_transform n_components mask_timeseries);
  mret (comp_timeseries, n_components).

(** [np.transpose(np.asarray(confounds))] for a list of 1-D sequences: one
    row per time point, one column per sequence.  Sequences of unequal
    length do not make a 2-D array. *)
Definition np_transpose_asarray (confounds : list (list V)) : outcome (ndarray V) :=
  match confounds with
  | [] => Ret (NdArray [0] (λ _, f_zero))
  | first :: _ =>
      if decide (Forall (λ col, length col = length first) confounds)
      then Ret (NdArray [length first; length confounds]
                  (λ idx, match idx with
                          | [r; c] => nth r (nth c confounds []) f_zero
                          | _ => f_zero
                          end))
      else Raise ValueError
  end.

(** [write_confound_csv]: [df.columns = column_names] needs one name per
    column of the frame. *)
Definition write_confound_csv (confound_array : ndarray V)
    (column_names : list string) (filename_template : string) : io V string :=
  match shape confound_array with
  | [n; m] =>
      if decide (length column_names = m) then
        csv_path ← abspath (filename_template +:+ "_confounds.csv");
        write_file csv_path (DataFrameCsv (DataFrame column_names (to_rows confound_array)));;
        mret csv_path
      else raise ValueError
  | _ => raise ValueError
  end.

(** ['WM_comp1', 'WM_comp2', ...] *)
Definition comp_column (prefix : string) (num_comp : nat) : list string :=
  map (λ comp, prefix +:+ py_str (comp + 1)) (range num_comp).

(** The columns [a[:, param]] for [param in range(a.shape[1])]. *)
Definition columns_of (a : ndarray V) : outcome (list (list V)) :=
  width ← py_index (shape a) 1;
  for_each (range width) (λ param acc, col ← get_col a 0 0 param; Ret (acc ++ [col])) [].

Definition motion_names : list string :=
  ["mov1-1"; "mov2-1"; "mov3-1"; "rot1-1"; "rot2-1"; "rot3-1";
   "mov1^2"; "mov2^2"; "mov3^2"; "rot1^2"; "rot2^2"; "rot3^2";
   "mov1-1^2"; "mov2-1^2"; "mov3-1^2"; "rot1-1^2"; "rot2-1^2"; "rot3-1^2"].

(** The regressors and their names as [ConfoundRegression._run_interface]
    accumulates them, before the table is written. *)
Definition assemble_confounds (bold movpar_file brain_mask WM_mask CSF_mask
    aCompCor_method : string) : io V (list (list V) * list string) :=
  WM_signal ← extract_mask_trace bold WM_mask;
  let confounds := [WM_signal] in
  let csv_columns := ["WM_signal"] in
  '(WM_aCompCor, num_comp) ← compute_aCompCor bold WM_mask aCompCor_method;
  comps ← lift (columns_of WM_aCompCor);
  let confounds := confounds ++ comps in
  let csv_columns := csv_columns ++ comp_column "WM_comp" num_comp in
  CSF_signal ← extract_mask_trace bold CSF_mask;
  let confounds := confounds ++ [CSF_signal] in
  let csv_columns := csv_columns ++ ["CSF_signal"] in
  '(CSF_aCompCor, num_comp) ← compute_aCompCor bold CSF_mask aCompCor_method;
  comps ← lift (columns_of CSF_aCompCor);
  let confounds := confounds ++ comps in
  let csv_columns := csv_columns ++ comp_column "CSF_comp" num_comp in
  global_signal ← extract_mask_trace bold brain_mask;
  let confounds := confounds ++ [global_signal] in
  let csv_columns := csv_columns ++ ["global_signal"] in
  motion_24 ← motion_24_params movpar_file;
  comps ← lift (columns_of motion_24);
  let confounds := confounds ++ comps in
  let csv_columns := csv_columns ++ motion_names in
  mret (confounds, csv_columns).

(** [ConfoundRegression._run_interface]; the result is the [confounds_csv]
    output. *)
Definition ConfoundRegression_run_interface (bold movpar_file brain_mask WM_mask
    CSF_mask aCompCor_method : string) : io V string :=
  filename_template ← filename_template bold;
  '(confounds, csv_columns) ←
    assemble_confounds bold movpar_file brain_mask WM_mask CSF_mask aCompCor_method;
  confound_array ← lift (np_transpose_asarray confounds);
  write_confound_csv confound_array csv_columns filename_template.
End Confounds.
End Confounds.

(** * utils.py *)

Module Utils.
Section Utils.
Context {V : Type} {num : Float64 V} {tools : Collaborators V} {disk : Nibabel V}.

(** [in_nii.dataobj] is an array proxy: the voxels are read from the file
    when the proxy is sliced, with the shape recorded when the image was
    loaded.  A file of another shape found at that moment cannot be read
    through the proxy. *)
Definition read_proxy (p : string) (loaded : nifti V) : io V (ndarray V) :=
  now ← nb_load p;
  if decide (shape (dataobj now) = shape (dataobj loaded))
  then mret (dataobj now)
  else raise ImageFileError.

(** The name of the file that receives volume [x]. *)
Definition volume_name (output_prefix : string) (x : nat) : string :=
  output_prefix +:+ "vol" +:+ py_str x +:+ ".nii.gz".

(** Where volume [x] is written from directory [dir], and what is written
    there. *)
Definition volume_path (dir : list string) (output_prefix : string) (x : nat) : string :=
  resolve dir (volume_name output_prefix x).

Definition volume_file (in_nii : nifti V) (x : nat) : file V :=
  NiftiFile (Nifti1Image (frame (dataobj in_nii) x) (affine in_nii) (nii_header in_nii)).

(** The files after the volumes [xs] of [in_nii] are written, in that
    order. *)
Definition with_volumes (dir : list string) (output_prefix : string) (in_nii : nifti V)
    (xs : list nat)
    (fs : gmap string (file V)) : gmap string (file V) :=
  foldl (λ fs x, <[volume_path dir output_prefix x := volume_file in_nii x]> fs) fs xs.

(** One turn of a loop of [split_volumes], with as many index terms as the
    input has axes. *)
Definition split_one (terms : nat) (in_file output_prefix : string) (in_nii : nifti V)
    (x : nat) (volumes : list string) : io V (list string) :=
  data ← read_proxy in_file in_nii;
  data_slice ← lift (index_axis3 terms data x);
  slice_fname ← abspath (volume_name output_prefix x);
  to_filename (Nifti1Image data_slice (affine in_nii) (nii_header in_nii)) slice_fname;;
  mret (volumes ++ [slice_fname]).

(** [split_volumes].  [None] is the [return None] after the message,
    [Some (volumes, num_volumes)] the list returned at the end. *)
Definition split_volumes (in_file output_prefix : string)
    : io V (option (list string * nat)) :=
  in_nii ← nb_load in_file;
  let num_dimensions := length (shape (dataobj in_nii)) in
  num_volumes ← lift (py_index (shape (dataobj in_nii)) 3);
  if decide (num_dimensions ≠ 4 ∧ num_dimensions ≠ 5) then
    print "the input file must be of dimensions 4 or 5";;
    mret None
  else
    volumes ←
      (if decide (num_dimensions = 4) then
         for_io (range num_volumes) (split_one 4 in_file output_prefix in_nii) []
       else if decide (num_dimensions = 5) then
         for_io (range num_volumes) (split_one 5 in_file output_prefix in_nii) []
       else mret []);
    mret (Some (volumes, num_volumes)).

(** One turn of the loop of [Merge._run_interface]. *)
Definition merge_one (file : string) (acc : ndarray V * nat) : io V (ndarray V * nat) :=
  let '(combined, i) := acc in
  vol ← nb_load file;
  data ← lift (slice3 (dataobj vol));
  combined ← lift (set_axis3 combined i data);
  mret (combined, i + 1).

(** [Merge._run_interface].  [Some out_file] is the normal end with the
    [out_file] attribute set, [None] the [return None] after the message. *)
Definition Merge_run_interface (in_files : list string) (header_source : string)
    : io V (option string) :=
  filename_template ← filename_template header_source;
  first ← lift (py_index in_files 0);
  img ← nb_load first;
  in_nii ← nb_load header_source;
  let length := length in_files in
  s0 ← lift (py_index (shape (dataobj img)) 0);
  s1 ← lift (py_index (shape (dataobj img)) 1);
  s2 ← lift (py_index (shape (dataobj img)) 2);
  let combined := np_zeros [s0; s1; s2; length] in
  '(combined, i) ← for_io in_files merge_one (combined, 0);
  if decide (i ≠ length) then
    print "Error occured with Merge.";;
    mret None
  else
    combined_files ← abspath (filename_template +:+ "_combined.nii.gz");
    to_filename_float64 (Nifti1Image combined (affine in_nii) (nii_header in_nii))
      combined_files;;
    mret (Some combined_files).

(** The mean signal of each of the first 50 frames:
    [img.dataobj[:, :, :, :50].mean(axis=0).mean(axis=0).mean(axis=0)]. *)
Definition global_signal_of (data : ndarray V) : outcome (ndarray V) :=
  data_slice ← slice_axis3 data 0 50;
  a ← mean_axis0 data_slice;
  a ← mean_axis0 a;
  mean_axis0 a.

(** [_get_vols_to_discard] *)
Definition _get_vols_to_discard (in_file : string) (img : nifti V) : io V nat :=
  data ← read_proxy in_file img;
  global_signal ← lift (global_signal_of data);
  mret (is_outlier global_signal).

(** The outputs of the [antsMotionCorr] interface. *)
Record antsMotionCorr_outputs : Set := {
  mc_corrected_bold : string;
  motcorr_params : string;
  avg_image : string;
  csv_params : string;
}.

(** [antsMotionCorr(in_file, ref_file, second).run()]; [os.makedirs] only
    creates a directory, which the file map does not track. *)
Definition antsMotionCorr_run (in_file ref_file : string) (second : bool)
    : io V antsMotionCorr_outputs :=
  (if second then run_command (mv_cmd "ants_mc_tmp" "first_ants_mc_tmp") else mret ());;
  run_command (antsMotionCorr_cmd ref_file in_file);;
  mret {| csv_params := "ants_mc_tmp/motcorrMOCOparams.csv";
          motcorr_params := "ants_mc_tmp/motcorrWarp.nii.gz";
          mc_corrected_bold := "ants_mc_tmp/motcorr.nii.gz";
          avg_image := "ants_mc_tmp/motcorr_avg.nii.gz" |}.

(** [in_nii.header.extensions.clear()] *)
Definition clear_extensions (img : nifti V) : nifti V :=
  Nifti1Image (dataobj img) (affine img) (Header [] (fields (nii_header img))).

(** The first target of the two-pass path and the series handed to the
    solver with it: the [if in_nii.shape[-1] > 40] block. *)
Definition initial_target (in_file : string) (in_nii : nifti V) (data_slice : ndarray V)
    : io V (string * string) :=
  frames ← lift (py_index (reverse (shape (dataobj in_nii))) 0);
  if 40 <? frames then
    slice_fname ← abspath "slice.nii.gz";
    window ← lift (slice_axis3 data_slice 20 40);
    to_filename (Nifti1Image window (affine in_nii) (nii_header in_nii)) slice_fname;;
    median_fname ← abspath "median.nii.gz";
    window ← lift (slice_axis3 data_slice 20 40);
    median ← lift (np_median_axis3 window);
    to_filename_float64 (Nifti1Image median (affine in_nii) (nii_header in_nii))
      median_fname;;
    mret (slice_fname, median_fname)
  else
    let slice_fname := in_file in
    median_fname ← abspath "median.nii.gz";
    median ← lift (np_median_axis3 data_slice);
    to_filename_float64 (Nifti1Image median (affine in_nii) (nii_header in_nii))
      median_fname;;
    mret (slice_fname, median_fname).

(** The two passes of motion correction that follow: each realigns the
    series to the current target and takes the median of the result. *)
Definition two_pass (in_nii : nifti V) (slice_fname median_fname : string)
    : io V (ndarray V) :=
  print "First iteration to generate reference image.";;
  res ← antsMotionCorr_run slice_fname median_fname false;
  corrected ← nb_load (mc_corrected_bold res);
  median ← lift (np_median_axis3 (dataobj corrected));
  tmp_median_fname ← abspath "tmp_median.nii.gz";
  to_filename_float64 (Nifti1Image median (affine in_nii) (nii_header in_nii))
    tmp_median_fname;;
  print "Second iteration to generate reference image.";;
  res ← antsMotionCorr_run slice_fname tmp_median_fname true;
  corrected ← nb_load (mc_corrected_bold res);
  lift (np_median_axis3 (dataobj corrected)).

(** [EstimateReferenceImage._run_interface]; the result is the pair of
    outputs [(ref_image, n_volumes_to_discard)]. *)
Definition EstimateReferenceImage_run_interface (in_file : string) : io V (string * nat) :=
  in_nii ← nb_load in_file;
  data_slice ← lift (slice_axis3 (dataobj in_nii) 0 50);
  let in_nii := clear_extensions in_nii in
  n_volumes_to_discard ← _get_vols_to_discard in_file in_nii;
  filename_template ← filename_template in_file;
  out_ref_fname ← abspath (filename_template +:+ "_bold_ref.nii.gz");
  median_image_data ←
    (if decide (n_volumes_to_discard = 0) then
       '(slice_fname, median_fname) ← initial_target in_file in_nii data_slice;
       two_pass in_nii slice_fname median_fname
     else
       leading ← lift (slice_axis3 data_slice 0 n_volumes_to_discard);
       lift (np_median_axis3 leading));
  to_filename_float64 (Nifti1Image median_image_data (affine in_nii) (nii_header in_nii))
    out_ref_fname;;
  mret (out_ref_fname, n_volumes_to_discard).

(** The command line of one [at.run()] in [applyTransforms]. *)
Definition resample_cmd (input_image reference_image output_image : string)
    (transforms : list string) : command :=
  antsApplyTransforms_cmd 3 true input_image reference_image output_image
    transforms "LanczosWindowedSinc".

(** [[a, b] = r] for the result of [split_volumes]. *)
Definition unpack {A B} (r : option (A * B)) : io V (A * B) :=
  match r with
  | Some ab => mret ab
  | None => raise TypeError
  end.

(** The name of the resampled volume [x]. *)
Definition deformed_name (x : nat) : string :=
  "deformed_volume" +:+ py_str (x + 1) +:+ ".nii.gz".

(** One turn of the loop of [applyTransforms._run_interface].  The inputs
    of [at] are checked by nipype when the command is built, which is part
    of running it. *)
Definition resample_one (use_fieldwarp : bool) (fieldwarp : string)
    (bold_volumes split_xform : list string) (reference_image : string)
    (x : nat) (warped_volumes : list string) : io V (list string) :=
  input_image ← lift (py_index bold_volumes x);
  warped_vol_fname ← abspath (deformed_name x);
  let warped_volumes := warped_volumes ++ [warped_vol_fname] in
  motion ← lift (py_index split_xform x);
  let transforms := if use_fieldwarp then [motion; fieldwarp] else [motion] in
  run_command (resample_cmd input_image reference_image warped_vol_fname transforms);;
  print ("Resampled volume " +:+ py_str (x + 1));;
  mret warped_volumes.

(** [applyTransforms._run_interface]; the result is [out_files]. *)
Definition applyTransforms_run_interface (in_file : string) (use_fieldwarp : bool)
    (fieldwarp xforms : string) : io V (list string) :=
  print "Splitting bold and motion correction files into lists of single volumes";;
  '(bold_volumes, num_volumes) ← split_volumes in_file "bold_" ≫= unpack;
  '(split_xform, num_volumes) ← split_volumes xforms "xform_" ≫= unpack;
  reference_image ← lift (py_index bold_volumes 0);
  for_io (range num_volumes)
    (resample_one use_fieldwarp fieldwarp bold_volumes split_xform reference_image) [].

(** The command line the engine builds for frame [x] from directory [dir]. *)
Definition frame_cmd (dir : list string) (use_fieldwarp : bool) (fieldwarp : string)
    (x : nat) : command :=
  resample_cmd (volume_path dir "bold_" x) (volume_path dir "bold_" 0)
    (resolve dir (deformed_name x))
    (volume_path dir "xform_" x :: if use_fieldwarp then [fieldwarp] else []).

End Utils.
End Utils.

(** * A concrete interpretation: rational numbers, pass-through tools *)

Module Rational.

(** [float(s)] for integer literals, with an optional minus sign (the
    character 45). *)
Fixpoint digits_value (s : string) (acc : N) : option N :=
  match s with
  | EmptyString => Some acc
  | String c s' => d ← Ascii.is_nat c; digits_value s' (10 * acc + N.of_nat d)%N
  end.

Definition q_of_string (s : string) : option Q :=
  match s with
  | EmptyString => None
  | String (Ascii.Ascii true false true true false true false false) (String _ _ as digits) => n ← digits_value digits 0; Some (inject_Z (- Z.of_N n))
  | _ => n ← digits_value s 0; Some (inject_Z (Z.of_N n))
  end.

Fixpoint insert_sorted (x : Q) (l : list Q) : list Q :=
  match l with
  | [] => [x]
  | y :: l' => if Qle_bool x y then x :: l else y :: insert_sorted x l'
  end.

(** The middle of the sorted values, or the mean of the two middle ones. *)
Definition median_q (l : list Q) : Q :=
  let s := foldr insert_sorted [] l in
  let n := length s in
  if Nat.even n
  then Qred ((nth (n / 2 - 1) s 0%Q + nth (n / 2) s 0%Q) / inject_Z 2)
  else nth (n / 2) s 0%Q.

Definition mean_q (l : list Q) : Q :=
  Qred (foldr Qplus 0%Q l / inject_Z (Z.of_nat (length l))).

Global Instance rational : Float64 Q := {|
  f_zero := 0%Q;
  f_half := (1 # 2)%Q;
  f_add x y := Qred (x + y);
  f_square x := Qred (x * x);
  f_le := Qle_bool;
  f_of_string := q_of_string;
  np_median := median_q;
  np_mean := mean_q;
|}.

(** The value of a header field. *)
Fixpoint field_of (key : string) (entries : list (string * string)) : option string :=
  match entries with
  | [] => None
  | (k, v) :: entries' => if decide (k = key) then Some v else field_of key entries'
  end.

(** The files of the sample worlds: a header without a ["datatype"] field,
    or with the type ["float64"], holds every value as it is; under any
    other type a value is stored as the largest whole number not above it
    (a stand-in for the rescaling nibabel does for integer types). *)
Global Instance sample_files : Nibabel Q := {|
  stored h a idx :=
    if decide (default "float64" (field_of "datatype" (fields h)) = "float64")
    then item a idx
    else inject_Z (Qnum (item a idx) / Z.pos (Qden (item a idx)));
|}.

(** Tools that pass their input through: the motion solver returns the
    series it was given, the resampler the volume it was given, the masker
    and [apply_mask] the voxels along the first axis over time, the
    decomposition the leading columns.  The outlier count and the explained
    variance ratios are given. *)
Definition voxels_over_time (img : nifti Q) : outcome (ndarray Q) :=
  match shape (dataobj img) with
  | [d0; d1; d2; t] => Ret (NdArray [t; d0] (λ idx, match idx with
                                                  | [r; c] => item (dataobj img) [c; 0; 0; r]
                                                  | _ => 0%Q
                                                  end))
  | _ => Raise ValueError
  end.

Definition copy_file (dir : list string) (src dst : string) (fs : gmap string (file Q))
    : outcome (gmap string (file Q)) :=
  match fs !! resolve dir src with
  | Some f => Ret (<[resolve dir dst := f]> fs)
  | None => Raise CommandError
  end.

(** The toy executables fail when a file they read is missing, and change
    only what they write.  The motion solver needs its target and its
    series and leaves the series as the corrected one. *)
Definition motion_correct (dir : list string) (ref_file in_file : string)
    (fs : gmap string (file Q)) : outcome (gmap string (file Q)) :=
  match fs !! resolve dir ref_file with
  | Some _ => copy_file dir in_file "ants_mc_tmp/motcorr.nii.gz" fs
  | None => Raise CommandError
  end.

(** Renaming a scratch directory moves the corrected series it holds. *)
Definition rename_dir (dir : list string) (src dst : string) (fs : gmap string (file Q))
    : outcome (gmap string (file Q)) :=
  match fs !! resolve dir (src +:+ "/motcorr.nii.gz") with
  | Some f =>
      Ret (<[resolve dir (dst +:+ "/motcorr.nii.gz") := f]>
             (delete (resolve dir (src +:+ "/motcorr.nii.gz")) fs))
  | None => Raise CommandError
  end.

(** The resampler needs its input, its reference and every transform of
    its chain, and writes its input to its output. *)
Definition resample (dir : list string) (input_image reference_image output_image : string)
    (transforms : list string) (fs : gmap string (file Q)) : outcome (gmap string (file Q)) :=
  match fs !! resolve dir input_image with
  | Some f =>
      if decide (Forall (λ p, is_Some (fs !! resolve dir p)) (reference_image :: transforms))
      then Ret (<[resolve dir output_image := f]> fs)
      else Raise CommandError
  | None => Raise CommandError
  end.

Definition pass_through (dummy : nat) (variance : list Q) : Collaborators Q := {|
  exec c dir fs :=
    match c with
    | antsMotionCorr_cmd ref_file in_file => motion_correct dir ref_file in_file fs
    | mv_cmd src dst => rename_dir dir src dst fs
    | antsApplyTransforms_cmd _ _ input_image reference_image output_image transforms _ =>
        resample dir input_image reference_image output_image transforms fs
    end;
  is_outlier _ := dummy;
  masker_fit_transform _ img := voxels_over_time img;
  apply_mask img _ := voxels_over_time img;
  pca_explained_variance_ratio _ := Ret variance;
  pca_fit_transform k X := Ret (NdArray [hd 0 (shape X); k] (item X));
|}.

(** A series of shape [(1, 1, 1, t)] whose single voxel holds the frame
    number, and one of shape [(1, 1, 1, t, k)]. *)
Definition ramp (sh : list nat) : nifti Q :=
  Nifti1Image
    (NdArray sh (λ idx, inject_Z (Z.of_nat (foldr (λ i acc, i + 10 * acc) 0 idx))))
    (NdArray [4; 4] (λ _, 1%Q))
    (Header ["ext"] []).

Definition bold_path : string := "/data/sub-01_ses-1_run-1_bold.nii.gz".

Definition world_with (fs : list (string * file Q)) : world Q :=
  World ["work"] (list_to_map fs) [] [].

(** A motion-parameter file: header, then per frame two labels and the 6
    rigid parameters. *)
Definition movpar_rows (frames : list (list string)) : file Q :=
  CsvFile (["MOCOparam"; "metric"; "p0"; "p1"; "p2"; "p3"; "p4"; "p5"]
           :: map (λ cells, "0" :: "m" :: cells) frames).

Definition movpar_path : string := "/data/motcorrMOCOparams.csv".

Definition two_frames : world Q :=
  world_with [(movpar_path,
               movpar_rows [["1"; "2"; "3"; "4"; "5"; "6"];
                            ["7"; "8"; "9"; "10"; "11"; "12"]])].

Definition no_frame : world Q :=
  world_with [(movpar_path, movpar_rows [])].

(** What [extract_rigid_movpar] reads in a world. *)
Definition rigid_params_in (w : world Q) : ndarray Q :=
  match (Confounds.extract_rigid_movpar movpar_path w).1 with
  | Ret a => a
  | Raise _ => np_zeros []
  end.

(** Worlds that hold one series. *)
Definition series_world (sh : list nat) : world Q :=
  world_with [(bold_path, NiftiFile (ramp sh))].

Definition xforms_path : string := "/data/sub-01_ses-1_run-1_xforms.nii.gz".

(** A 3-frame series with its 3 per-frame transforms and a distortion
    field. *)
Definition series_and_transforms : world Q :=
  world_with [(bold_path, NiftiFile (ramp [2; 2; 2; 3]));
              (xforms_path, NiftiFile (ramp [2; 2; 2; 3; 2]));
              ("/data/warp.nii.gz", NiftiFile (ramp [2; 2; 2; 3]))].

(** A 3-frame series with its masks and its motion parameters. *)
Definition confound_inputs : world Q :=
  world_with [(bold_path, NiftiFile (ramp [2; 1; 1; 3]));
              ("/data/WM_mask.nii.gz", NiftiFile (ramp [2; 1; 1]));
              ("/data/CSF_mask.nii.gz", NiftiFile (ramp [2; 1; 1]));
              ("/data/brain_mask.nii.gz", NiftiFile (ramp [2; 1; 1]));
              (movpar_path,
               movpar_rows [["1"; "2"; "3"; "4"; "5"; "6"];
                            ["7"; "8"; "9"; "10"; "11"; "12"];
                            ["2"; "4"; "6"; "8"; "10"; "12"]])].

(** The mean signal of the first frames of a series. *)
Definition trace_of (img : nifti Q) : ndarray Q :=
  match Utils.global_signal_of (dataobj img) with
  | Ret a => a
  | Raise _ => np_zeros []
  end.

(** The first command of a world, when it is the motion solver: its target
    file, its series, and the voxel (0, 0, 0) of the target as the solver
    finds it. *)
Definition first_target (w : world Q) : option (string * string * Q) :=
  match commands w with
  | (antsMotionCorr_cmd ref_file in_file, fs) :: _ =>
      match fs !! ref_file with
      | Some (NiftiFile target) => Some (ref_file, in_file, item (dataobj target) [0; 0; 0])
      | _ => None
      end
  | _ => None
  end.

(** The 4-D series [img] as the masker passes it on. *)
Definition masked (img : nifti Q) : ndarray Q :=
  match voxels_over_time img with
  | Ret a => a
  | Raise _ => np_zeros []
  end.

End Rational.

(** * Vocabulary for the edge cases *)

(** The character [c] does not occur in [s]. *)
Fixpoint lacks (c : Ascii.ascii) (s : string) : bool :=
  match s with
  | EmptyString => true
  | String c' s' => negb (Ascii.eqb c' c) && lacks c s'
  end.

(** The separator [sep] starts at no position of [s] when [s] is followed
    by [rest]. *)
Fixpoint unmatched (sep s rest : string) : Prop :=
  match s with
  | EmptyString => True
  | String c s' => String.prefix sep (String c (s' +:+ rest)) = false ∧ unmatched sep s' rest
  end.

(** Tools for trying failures out: the motion solver fails, or leaves a
    given series when its target and its series are there; the renaming
    works or not; the resampler refuses one output name. *)
Module Scripted.
Import Rational.

Definition scripted (solver : outcome (nifti Q)) (mv_ok : bool) (refused : string)
    : Collaborators Q := {|
  exec c dir fs :=
    match c with
    | antsMotionCorr_cmd ref_file in_file =>
        corrected ← solver;
        if decide (is_Some (fs !! resolve dir ref_file) ∧ is_Some (fs !! resolve dir in_file))
        then Ret (<[resolve dir "ants_mc_tmp/motcorr.nii.gz" := NiftiFile corrected]> fs)
        else Raise CommandError
    | mv_cmd src dst => if mv_ok then rename_dir dir src dst fs else Raise CommandError
    | antsApplyTransforms_cmd _ _ input_image reference_image output_image transforms _ =>
        if decide (output_image = refused) then Raise CommandError
        else resample dir input_image reference_image output_image transforms fs
    end;
  is_outlier _ := 0;
  masker_fit_transform _ img := voxels_over_time img;
  apply_mask img _ := voxels_over_time img;
  pca_explained_variance_ratio _ := Ret [];
  pca_fit_transform k X := Ret (NdArray [hd 0 (shape X); k] (item X));
|}.

(** A series named without session and run. *)
Definition unnamed_path : string := "/data/bold.nii.gz".

(** An image that holds [v] everywhere. *)
Definition flat (sh : list nat) (v : Z) : nifti Q :=
  Nifti1Image (NdArray sh (λ _, inject_Z v)) (NdArray [4; 4] (λ _, 1%Q)) (Header [] []).

End Scripted.

(** * Facts about the array operations *)

Section NumpyFacts.
Context {V : Type} {num : Float64 V}.

Lemma outcome_bind_ret {A B} (f : A → outcome B) (a : A) : (Ret a ≫= f) = f a.
Proof. done. Qed.

Lemma nth_map_seq {A} (f : nat → A) (d : A) (lo len k : nat) :
  k < len → nth k (map f (seq lo len)) d = f (lo + k).
Proof.
  intros Hk. rewrite (nth_indep _ d (f 0)) by (rewrite length_map, length_seq; lia).
  rewrite (map_nth f (seq lo len) 0 k), seq_nth; [done | lia].
Qed.

Lemma get_item2_ok (a : ndarray V) (n m r c : nat) :
  shape a = [n; m] → r < n → c < m → get_item2 a r c = Ret (item2 a r c).
Proof.
  intros Hs Hr Hc. unfold get_item2. rewrite Hs.
  destruct (Nat.ltb_spec r n), (Nat.ltb_spec c m); simpl; done || lia.
Qed.

Lemma set_item2_ok (a : ndarray V) (n m r c : nat) (v : V) :
  shape a = [n; m] → r < n → c < m →
  ∃ a', set_item2 a r c v = Ret a' ∧ shape a' = [n; m] ∧
        ∀ r' c', item2 a' r' c' = if decide (r' = r ∧ c' = c) then v else item2 a r' c'.
Proof.
  intros Hs Hr Hc. unfold set_item2. rewrite Hs.
  destruct (Nat.ltb_spec r n), (Nat.ltb_spec c m); simpl; try lia.
  eexists. split; [done |]. split; [done |].
  intros r' c'. unfold item2. simpl.
  destruct (decide ([r'; c'] = [r; c])) as [Heq | Hne].
  - injection Heq as -> ->. by rewrite decide_True.
  - rewrite decide_False; [done |]. intros [-> ->]. by apply Hne.
Qed.

Lemma get_col_ok (a : ndarray V) (n m lo back c : nat) :
  shape a = [n; m] → c < m →
  get_col a lo back c = Ret (map (λ r, item2 a r c) (seq lo (n - back - lo))).
Proof.
  intros Hs Hc. unfold get_col, range2. rewrite Hs.
  destruct (Nat.ltb_spec c m); [done | lia].
Qed.

Lemma set_col_ok (a : ndarray V) (n m lo c : nat) (vs : list V) :
  shape a = [n; m] → c < m → length vs = n - lo →
  ∃ a', set_col a lo c vs = Ret a' ∧ shape a' = [n; m] ∧
        ∀ r' c', item2 a' r' c' =
          if decide (c' = c ∧ lo ≤ r' < n) then nth (r' - lo) vs f_zero else item2 a r' c'.
Proof.
  intros Hs Hc Hlen. unfold set_col. rewrite Hs.
  destruct (Nat.ltb_spec c m); [| lia].
  rewrite decide_True by done.
  eexists. split; [done |]. split; [done |]. done.
Qed.

Lemma set_left_block_ok (a src : ndarray V) (n m k : nat) :
  shape a = [n; m] → shape src = [n; k] → k ≤ m →
  ∃ a', set_left_block a k src = Ret a' ∧ shape a' = [n; m] ∧
        ∀ r c, item2 a' r c = if decide (c < k) then item2 src r c else item2 a r c.
Proof.
  intros Hs Hsrc Hk. unfold set_left_block. rewrite Hs.
  rewrite decide_True by done.
  eexists. split; [done |]. split; [done |]. done.
Qed.

End NumpyFacts.

(** * Facts about the world-passing layer *)

Section IOFacts.
Context {V : Type} {num : Float64 V} {tools : Collaborators V} {disk : Nibabel V}.

Lemma io_bind_ret {A B} (m : io V A) (f : A → io V B) (w w' : world V) (a : A) :
  m w = (Ret a, w') → (m ≫= f) w = f a w'.
Proof. intros Hm. unfold mbind, io_bind. by rewrite Hm. Qed.

Lemma io_bind_lift {A B} (o : outcome A) (f : A → io V B) (w : world V) (a : A) :
  o = Ret a → (lift o ≫= f) w = f a w.
Proof. by intros ->. Qed.

Lemma nb_load_ok (p : string) (w : world V) (img : nifti V) :
  files w !! resolve (cwd w) p = Some (NiftiFile img) → nb_load p w = (Ret img, w).
Proof. intros Hf. unfold nb_load, read_file, mbind, io_bind. by rewrite Hf. Qed.

Lemma io_bind_inv {A B} (m : io V A) (f : A → io V B) (w w' : world V) (b : B) :
  (m ≫= f) w = (Ret b, w') → ∃ a w1, m w = (Ret a, w1) ∧ f a w1 = (Ret b, w').
Proof.
  unfold mbind, io_bind. destruct (m w) as [[a | e] w1]; [| done]. intros Hf. by exists a, w1.
Qed.

Lemma lift_inv {A} (o : outcome A) (w w' : world V) (a : A) :
  lift o w = (Ret a, w') → o = Ret a ∧ w' = w.
Proof. unfold lift. by intros [= -> ->]. Qed.

Lemma io_bind_cases {A B} (m : io V A) (f : A → io V B) (w w' : world V) (r : outcome B) :
  (m ≫= f) w = (r, w') →
  (∃ e, m w = (Raise e, w') ∧ r = Raise e) ∨ (∃ a w1, m w = (Ret a, w1) ∧ f a w1 = (r, w')).
Proof.
  unfold mbind, io_bind. destruct (m w) as [[a | e] w1].
  - intros Hf. right. by exists a, w1.
  - intros [= <- <-]. left. by exists e.
Qed.

Lemma quiet_ret {A} (a : A) : quiet (V:=V) (mret a).
Proof. by intros w r w' [= <- <-]. Qed.

Lemma quiet_lift {A} (o : outcome A) : quiet (V:=V) (lift o).
Proof. by intros w r w' [= <- <-]. Qed.

Lemma quiet_raise {A} (e : exn) : quiet (V:=V) (raise (A:=A) e).
Proof. by intros w r w' [= <- <-]. Qed.

Lemma quiet_print (s : string) : quiet (V:=V) (print s).
Proof. by intros w r w' [= <- <-]. Qed.

Lemma quiet_abspath (p : string) : quiet (V:=V) (abspath p).
Proof. by intros w r w' [= <- <-]. Qed.

Lemma quiet_read_file (p : string) : quiet (V:=V) (read_file p).
Proof.
  intros w r w'. unfold read_file.
  destruct (files w !! resolve (cwd w) p); by intros [= <- <-].
Qed.

Lemma quiet_bind {A B} (m : io V A) (f : A → io V B) :
  quiet m → (∀ a, quiet (f a)) → quiet (m ≫= f).
Proof.
  intros Hm Hf w r w' Hrun. apply io_bind_cases in Hrun as [(e & Hrun & _) | (a & w1 & Hrun & Hk)].
  - by eapply Hm.
  - apply Hm in Hrun as (? & ? & ?). apply Hf in Hk as (? & ? & ?).
    repeat split; congruence.
Qed.

Lemma quiet_nb_load (p : string) : quiet (V:=V) (nb_load p).
Proof.
  unfold nb_load. apply quiet_bind; [apply quiet_read_file |].
  intros [img | rows | df]; first [apply quiet_ret | apply quiet_raise].
Qed.

Lemma grows_quiet {A} (m : io V A) : quiet m → grows m.
Proof.
  intros Hm w r w' Hrun. apply Hm in Hrun as (_ & -> & _). exists []. by rewrite app_nil_r.
Qed.

Lemma grows_bind {A B} (m : io V A) (f : A → io V B) :
  grows m → (∀ a, grows (f a)) → grows (m ≫= f).
Proof.
  intros Hm Hf w r w' Hrun.
  apply io_bind_cases in Hrun as [(e & Hrun & _) | (a & w1 & Hrun & Hk)].
  - by eapply Hm.
  - apply Hm in Hrun as [l1 Hl1]. apply Hf in Hk as [l2 Hl2].
    exists (l1 ++ l2). by rewrite Hl2, Hl1, app_assoc.
Qed.

Lemma grows_to_filename (img : nifti V) (p : string) : grows (to_filename img p).
Proof. intros w r w' [= <- <-]. exists []. simpl. by rewrite app_nil_r. Qed.

Lemma grows_to_filename_float64 (img : nifti V) (p : string) :
  grows (to_filename_float64 img p).
Proof. intros w r w' [= <- <-]. exists []. simpl. by rewrite app_nil_r. Qed.

Lemma grows_run_command (c : command) : grows (V:=V) (run_command c).
Proof.
  intros w r w'. unfold run_command.
  destruct (exec c (cwd w) (files w)); intros [= <- <-]; by eexists.
Qed.

End IOFacts.

(** Show that a sequence of statements only adds to the commands run. *)
Ltac grows_steps :=
  repeat first
    [ apply grows_to_filename | apply grows_to_filename_float64 | apply grows_run_command
    | apply grows_quiet;
        first [ apply quiet_ret | apply quiet_lift | apply quiet_raise | apply quiet_print
              | apply quiet_abspath | apply quiet_read_file | apply quiet_nb_load ]
    | apply grows_bind; [| intros ?]
    | match goal with
      | |- grows (if ?b then _ else _) => destruct b
      | |- grows (let '(_, _) := ?x in _) => destruct x
      end ].

(** Take a successful run of a sequence of statements apart. *)
Ltac io_inv H :=
  repeat match type of H with
         | (_ ≫= _) _ = (Ret _, _) =>
             let H1 := fresh "Hstep" in
             apply io_bind_inv in H as (? & ? & H1 & H)
         end.

(** Show that a sequence of statements neither writes a file nor runs a
    command, statement by statement. *)
Ltac quiet_steps :=
  repeat first
    [ apply quiet_ret | apply quiet_lift | apply quiet_raise | apply quiet_print
    | apply quiet_abspath | apply quiet_read_file
    | apply quiet_bind; [| intros ?]
    | match goal with
      | |- quiet (match ?x with _ => _ end) => destruct x
      end ].

(** * More facts about the world-passing layer *)

Section IOSteps.
Context {V : Type} {num : Float64 V} {tools : Collaborators V} {disk : Nibabel V}.

Lemma nb_load_world (p : string) (w w' : world V) (r : outcome (nifti V)) :
  nb_load p w = (r, w') → w' = w.
Proof.
  unfold nb_load, read_file, mbind, io_bind, raise, mret, io_ret.
  destruct (files w !! resolve (cwd w) p) as [[img | rows | df] |]; by intros [= _ <-].
Qed.

Lemma filename_template_world (p : string) (w w' : world V) (r : outcome string) :
  filename_template p w = (r, w') → w' = w.
Proof.
  unfold filename_template, abspath, mbind, io_bind, lift.
  destruct (template_name p); by intros [= _ <-].
Qed.

Lemma lift_world {A} (o : outcome A) (w w' : world V) (r : outcome A) :
  lift o w = (r, w') → w' = w.
Proof. by intros [= _ <-]. Qed.

Lemma for_io_app {A B} (xs ys : list A) (body : A → B → io V B) (acc : B) (w : world V) :
  for_io (xs ++ ys) body acc w = (acc' ← for_io xs body acc; for_io ys body acc') w.
Proof.
  revert acc w. induction xs as [| x xs IH]; intros acc w; [done |].
  simpl. unfold mbind, io_bind in *.
  destruct (body x acc w) as [[acc1 | e] w1]; [apply IH | done].
Qed.

(** A loop over [range(n)] cut at turn [k]. *)
Lemma for_io_range_split {B} (n k : nat) (body : nat → B → io V B) (acc : B) (w : world V) :
  k < n →
  for_io (seq 0 n) body acc w
  = (acc' ← for_io (seq 0 k) body acc;
     acc'' ← body k acc';
     for_io (seq (S k) (n - S k)) body acc'') w.
Proof.
  intros Hk. replace n with (k + S (n - S k)) at 1 by lia.
  by rewrite seq_app, for_io_app.
Qed.

Lemma for_io_range_from {B} (n k : nat) (body : nat → B → io V B) (acc : B) (w : world V) :
  k ≤ n →
  for_io (seq 0 n) body acc w
  = (acc' ← for_io (seq 0 k) body acc; for_io (seq k (n - k)) body acc') w.
Proof.
  intros Hk. replace n with (k + (n - k)) at 1 by lia.
  by rewrite seq_app, for_io_app.
Qed.

Lemma run_command_ok (c : command) (w : world V) (fs' : gmap string (file V)) :
  exec c (cwd w) (files w) = Ret fs' →
  run_command c w = (Ret (), World (cwd w) fs' (stdout w) (commands w ++ [(c, files w)])).
Proof. intros Hexec. unfold run_command. by rewrite Hexec. Qed.

Lemma run_command_fails (c : command) (w : world V) (e : exn) :
  exec c (cwd w) (files w) = Raise e →
  run_command c w
  = (Raise e, World (cwd w) (files w) (stdout w) (commands w ++ [(c, files w)])).
Proof. intros Hexec. unfold run_command. by rewrite Hexec. Qed.

Lemma io_bind_raise {A B} (m : io V A) (f : A → io V B) (w w' : world V) (e : exn) :
  m w = (Raise e, w') → (m ≫= f) w = (Raise e, w').
Proof. intros Hm. unfold mbind, io_bind. by rewrite Hm. Qed.

Lemma io_bind_assoc {A B C} (m : io V A) (f : A → io V B) (g : B → io V C) (w : world V) :
  ((m ≫= f) ≫= g) w = (m ≫= λ a, f a ≫= g) w.
Proof. unfold mbind, io_bind. by destruct (m w) as [[a | e] w1]. Qed.

End IOSteps.

(** * Facts about confounds.py *)

Module ConfoundsFacts.
Import Confounds.
Section ConfoundsFacts.
Context {V : Type} {num : Float64 V} {tools : Collaborators V}.

(** Read a cell of a table through one assignment: take the branch the
    arithmetic allows, and look the value up in the assigned sequence. *)
Ltac read_cell H :=
  rewrite H; case_decide;
  [ try (exfalso; lia); rewrite ?map_map, ?nth_map_seq by lia; rewrite ?Nat.add_0_l, ?Nat.sub_0_r
  | try (exfalso; lia) ].

Lemma motion_24_column_ok (rigid_params movpar : ndarray V) (t k : nat) :
  1 ≤ t → k < 6 → expanded_upto rigid_params t k movpar →
  ∃ movpar', motion_24_column k movpar = Ret movpar' ∧
             expanded_upto rigid_params t (S k) movpar'.
Proof.
  intros Ht Hk [Hs Hcols]. unfold motion_24_column.
  rewrite (get_item2_ok movpar t 24), outcome_bind_ret by (done || lia).
  destruct (set_item2_ok movpar t 24 0 (6 + k) (item2 movpar 0 k))
    as (a1 & -> & Hs1 & H1); [done | lia | lia |].
  rewrite outcome_bind_ret, (get_col_ok a1 t 24), outcome_bind_ret by (done || lia).
  destruct (set_col_ok a1 t 24 1 (6 + k) (map (λ r, item2 a1 r k) (seq 0 (t - 1 - 0))))
    as (a2 & -> & Hs2 & H2); [done | lia | rewrite length_map, length_seq; lia |].
  rewrite outcome_bind_ret, (get_col_ok a2 t 24), outcome_bind_ret by (done || lia).
  destruct (set_col_ok a2 t 24 0 (12 + k)
              (map f_square (map (λ r, item2 a2 r k) (seq 0 (t - 0 - 0)))))
    as (a3 & -> & Hs3 & H3); [done | lia | rewrite !length_map, length_seq; lia |].
  rewrite outcome_bind_ret, (get_col_ok a3 t 24), outcome_bind_ret by (done || lia).
  destruct (set_col_ok a3 t 24 0 (18 + k)
              (map f_square (map (λ r, item2 a3 r (6 + k)) (seq 0 (t - 0 - 0)))))
    as (a4 & Hset & Hs4 & H4); [done | lia | rewrite !length_map, length_seq; lia |].
  eexists. split; [done |]. split; [done |].
  assert (Hrigid : ∀ r' i', r' < t → i' < 6 → item2 movpar r' i' = item2 rigid_params r' i')
    by (intros r' i' ? ?; by apply Hcols).
  intros r i Hr Hi. destruct (Hcols r i Hr Hi) as [Hraw Hdone].
  split; [by read_cell H4; read_cell H3; read_cell H2; read_cell H1 |].
  intros Hik. destruct (decide (i = k)) as [-> | Hne].
  - assert (Hlag : item2 a2 r (6 + k) = lagged rigid_params r k).
    { destruct r as [| r'].
      - read_cell H2; read_cell H1. apply Hrigid; lia.
      - read_cell H2; read_cell H1. simpl. rewrite Nat.sub_0_r. apply Hrigid; lia. }
    split; [by read_cell H4; read_cell H3 |].
    split.
    + read_cell H4; read_cell H3.
      read_cell H2; read_cell H1. by rewrite Hraw.
    + read_cell H4. read_cell H3. by rewrite Hlag.
  - destruct Hdone as (Hd1 & Hd2 & Hd3); [lia |].
    split; [by read_cell H4; read_cell H3; read_cell H2; read_cell H1 |].
    split; by read_cell H4; read_cell H3; read_cell H2; read_cell H1.
Qed.

Lemma motion_24_loop (rigid_params : ndarray V) (t n k : nat) (movpar : ndarray V) :
  1 ≤ t → k + n = 6 → expanded_upto rigid_params t k movpar →
  ∃ movpar', for_each (seq k n) motion_24_column movpar = Ret movpar' ∧
             expanded_upto rigid_params t 6 movpar'.
Proof.
  intros Ht. revert k movpar. induction n as [| n IH]; intros k movpar Hkn Hinv.
  - exists movpar. replace 6 with k by lia. done.
  - destruct (motion_24_column_ok rigid_params movpar t k) as (a & Ha & Hinv');
      [done | lia | done |].
    simpl. rewrite Ha, outcome_bind_ret. apply IH; [lia | done].
Qed.

Lemma motion_24_params_body_ok (rigid_params : ndarray V) (t : nat) :
  shape rigid_params = [t; 6] → 1 ≤ t →
  ∃ movpar, motion_24_params_body rigid_params = Ret movpar ∧
            expanded_upto rigid_params t 6 movpar.
Proof.
  intros Hs Ht. unfold motion_24_params_body, np_size0. rewrite Hs, outcome_bind_ret.
  destruct (set_left_block_ok (np_zeros [t; 24]) rigid_params t 24 6)
    as (a & -> & Hsa & Ha); [done | done | lia |].
  rewrite outcome_bind_ret. apply motion_24_loop; [done | done |].
  split; [done |]. intros r i Hr Hi. split; [| lia].
  rewrite Ha. by rewrite decide_True.
Qed.

(** Without a frame the first statement of the loop reads row 0 of an empty
    table. *)
Lemma motion_24_params_body_empty (rigid_params : ndarray V) :
  shape rigid_params = [0; 6] → motion_24_params_body rigid_params = Raise IndexError.
Proof.
  intros Hs. unfold motion_24_params_body, np_size0. rewrite Hs, outcome_bind_ret.
  destruct (set_left_block_ok (np_zeros [0; 24]) rigid_params 0 24 6)
    as (a & -> & Hsa & Ha); [done | done | lia |].
  rewrite outcome_bind_ret. simpl. unfold motion_24_column, get_item2. by rewrite Hsa.
Qed.

Lemma for_each_invariant {A B} (P : B → Prop) (xs : list A) (body : A → B → outcome B)
    (acc acc' : B) :
  (∀ x b b', body x b = Ret b' → P b → P b') →
  P acc → for_each xs body acc = Ret acc' → P acc'.
Proof.
  intros Hbody. revert acc. induction xs as [| x xs IH]; intros acc Hacc Hrun; simpl in Hrun.
  - by injection Hrun as <-.
  - destruct (body x acc) as [b |] eqn:Hb; [| done].
    rewrite outcome_bind_ret in Hrun. eapply IH; [| done]. by eapply Hbody.
Qed.

Lemma set_item2_shape (a a' : ndarray V) (r c : nat) (v : V) :
  set_item2 a r c v = Ret a' → shape a' = shape a.
Proof.
  unfold set_item2. destruct (shape a) as [| n [| m [| ? ?]]]; try done.
  destruct (_ && _); [| done]. by intros [= <-].
Qed.

(** [extract_rigid_movpar] leaves the world alone and returns one row of 6
    cells per line after the header. *)
Lemma extract_rigid_movpar_shape (movpar_csv : string) (w w' : world V)
    (rigid_params : ndarray V) :
  extract_rigid_movpar movpar_csv w = (Ret rigid_params, w') →
  w' = w ∧ ∃ head data, files w !! resolve (cwd w) movpar_csv = Some (CsvFile (head :: data)) ∧
                         shape rigid_params = [length data; 6].
Proof.
  unfold extract_rigid_movpar, read_csv, read_file, mbind, io_bind, lift, raise, mret, io_ret.
  destruct (files w !! resolve (cwd w) movpar_csv) as [[img | rows | df] |]; try done.
  destruct rows as [| head data]; [done |].
  destruct (for_each data _ _) as [[movpar j] |] eqn:Hrun; [| done].
  intros [= <- <-]. split; [done |]. exists head, data. split; [done |].
  eapply (for_each_invariant (λ acc, shape acc.1 = [length data; 6])) in Hrun; [done | | ].
  - intros row [a i] [a' i'] Hrow Ha. simpl in *.
    destruct (for_each (range2 2 (length row)) _ a) as [a'' |] eqn:Hcells; [| done].
    rewrite outcome_bind_ret in Hrow. injection Hrow as <- <-.
    eapply (for_each_invariant (λ acc, shape acc = [length data; 6])) in Hcells; [done | | done].
    intros x b b' Hx Hb.
    destruct (py_index row x) as [cell |]; [| done]. rewrite outcome_bind_ret in Hx.
    destruct (py_float cell) as [v |]; [| done]. rewrite outcome_bind_ret in Hx.
    apply set_item2_shape in Hx. congruence.
  - simpl. by rewrite Nat.sub_0_r.
Qed.

(** C1 (as amended).  For a motion-parameter table with [t >= 1] frames of 6
    rigid parameters, [motion_24_params] returns a table of exactly [t] rows
    and 24 columns: columns 0-5 are the raw parameters, columns 6-11 the
    parameters of the frame before (row 0 repeats its own value), columns
    12-17 the raw parameters squared and columns 18-23 the lagged parameters
    squared. *)
Theorem motion_24_params_table (movpar_csv : string) (w w' : world V)
    (rigid_params : ndarray V) (t : nat) :
  extract_rigid_movpar movpar_csv w = (Ret rigid_params, w') →
  shape rigid_params = [t; 6] →
  1 ≤ t →
  ∃ movpar, motion_24_params movpar_csv w = (Ret movpar, w') ∧
    shape movpar = [t; 24] ∧
    ∀ r i, r < t → i < 6 →
      item2 movpar r i = item2 rigid_params r i ∧
      item2 movpar r (6 + i) = lagged rigid_params r i ∧
      item2 movpar r (12 + i) = f_square (item2 rigid_params r i) ∧
      item2 movpar r (18 + i) = f_square (lagged rigid_params r i).
Proof.
  intros Hread Hs Ht.
  destruct (motion_24_params_body_ok rigid_params t Hs Ht) as (movpar & Hbody & Hshape & Hcols).
  exists movpar. split; [| split; [done |]].
  - unfold motion_24_params, mbind, io_bind, lift. by rewrite Hread, Hbody.
  - intros r i Hr Hi. destruct (Hcols r i Hr Hi) as [Hraw Hrest].
    destruct Hrest as (? & ? & ?); [done |]. done.
Qed.

(** The loop stops at the first count whose running sum exceeds the
    threshold, if there is one among the sums it can form. *)
Lemma while_cum_var_stops (rest : list V) (cum_var : V) (num_comp : nat) :
  (∃ k, k ≤ length rest ∧ exceeds_half (fold_left f_add (take k rest) cum_var)) →
  ∃ j, while_cum_var rest cum_var num_comp = Ret (num_comp + j) ∧
       j ≤ length rest ∧
       exceeds_half (fold_left f_add (take j rest) cum_var) ∧
       ∀ m, m < j → ¬ exceeds_half (fold_left f_add (take m rest) cum_var).
Proof.
  revert cum_var num_comp.
  induction rest as [| x rest IH]; intros cum_var num_comp (k & Hk & Hex).
  - assert (k = 0) as -> by (simpl in Hk; lia). simpl in Hex.
    exists 0. simpl. rewrite Hex, Nat.add_0_r.
    split; [done |]. split; [done |]. split; [done | lia].
  - simpl. destruct (f_le cum_var f_half) eqn:Hle.
    + destruct k as [| k]; [simpl in Hex; unfold exceeds_half in Hex; congruence |].
      destruct (IH (f_add cum_var x) (S num_comp)) as (j & Hrun & Hj & Hjex & Hmin).
      { exists k. split; [simpl in Hk; lia | done]. }
      exists (S j). rewrite Hrun. split; [f_equal; lia |]. split; [simpl; lia |].
      split; [done |]. intros [| m] Hm.
      * simpl. unfold exceeds_half. congruence.
      * simpl. apply Hmin. lia.
    + exists 0. rewrite Nat.add_0_r. split; [done |]. split; [lia |].
      split; [done | lia].
Qed.

(** With no such count the loop reads past the end of the ratios. *)
Lemma while_cum_var_overruns (rest : list V) (cum_var : V) (num_comp : nat) :
  (∀ k, k ≤ length rest → ¬ exceeds_half (fold_left f_add (take k rest) cum_var)) →
  while_cum_var rest cum_var num_comp = Raise IndexError.
Proof.
  revert cum_var num_comp. induction rest as [| x rest IH]; intros cum_var num_comp Hno.
  - simpl. destruct (f_le cum_var f_half) eqn:Hle; [done |].
    destruct (Hno 0); [simpl; lia | done].
  - simpl. destruct (f_le cum_var f_half) eqn:Hle.
    + apply IH. intros k Hk. apply (Hno (S k)). simpl. lia.
    + destruct (Hno 0); [lia | done].
Qed.

(** C3.  Under the ['50%'] method [compute_aCompCor] selects the smallest
    number of components whose explained-variance ratios, summed in the order
    the decomposition lists them, exceed 0.5 (the component that crosses the
    threshold is counted), and refits the decomposition with exactly that
    number of components; under ['first_5'] it asks for exactly 5 components
    whatever the ratios are. *)
Theorem compute_aCompCor_selects (bold mask : string) (w : world V)
    (mask_img bold_img : nifti V) (X : ndarray V) :
  files w !! resolve (cwd w) mask = Some (NiftiFile mask_img) →
  files w !! resolve (cwd w) bold = Some (NiftiFile bold_img) →
  masker_fit_transform mask_img bold_img = Ret X →
  (∀ explained_variance,
     pca_explained_variance_ratio X = Ret explained_variance →
     (∃ k, k ≤ length explained_variance ∧
           exceeds_half (cum_var_after explained_variance k)) →
     ∃ num_comp,
       num_comp ≤ length explained_variance ∧
       exceeds_half (cum_var_after explained_variance num_comp) ∧
       (∀ m, m < num_comp → ¬ exceeds_half (cum_var_after explained_variance m)) ∧
       compute_aCompCor bold mask "50%" w =
         (comp_timeseries ← pca_fit_transform num_comp X; Ret (comp_timeseries, num_comp), w)) ∧
  compute_aCompCor bold mask "first_5" w =
    (comp_timeseries ← pca_fit_transform 5 X; Ret (comp_timeseries, 5), w).
Proof.
  intros Hmask Hbold HX. split.
  - intros ev Hev Hcross.
    destruct (while_cum_var_stops ev f_zero 0 Hcross) as (n & Hrun & Hn & Hex & Hmin).
    exists n. split; [done |]. split; [done |]. split; [done |].
    unfold compute_aCompCor.
    rewrite (io_bind_ret _ _ _ _ _ (nb_load_ok _ _ _ Hmask)).
    rewrite (io_bind_ret _ _ _ _ _ (nb_load_ok _ _ _ Hbold)).
    unfold mbind at 1, io_bind, lift. rewrite HX.
    rewrite decide_True by done.
    unfold mbind, io_bind, lift, mret, io_ret, outcome_bind. rewrite Hev, Hrun. simpl.
    by destruct (pca_fit_transform n X).
  - unfold compute_aCompCor.
    rewrite (io_bind_ret _ _ _ _ _ (nb_load_ok _ _ _ Hmask)).
    rewrite (io_bind_ret _ _ _ _ _ (nb_load_ok _ _ _ Hbold)).
    unfold mbind at 1, io_bind, lift. rewrite HX.
    rewrite decide_False by done. rewrite decide_True by done.
    unfold mbind, io_bind, lift, mret, io_ret, outcome_bind.
    by destruct (pca_fit_transform 5 X).
Qed.

(** C10.  With a method other than ['50%'] and ['first_5'] no branch assigns
    [num_comp], and [compute_aCompCor] stops with an unbound-variable error
    when it reads it: no default policy, no error type of its own. *)
Theorem compute_aCompCor_unbound (bold mask method : string) (w : world V)
    (mask_img bold_img : nifti V) (X : ndarray V) :
  files w !! resolve (cwd w) mask = Some (NiftiFile mask_img) →
  files w !! resolve (cwd w) bold = Some (NiftiFile bold_img) →
  masker_fit_transform mask_img bold_img = Ret X →
  method ≠ "50%" → method ≠ "first_5" →
  compute_aCompCor bold mask method w = (Raise UnboundLocalError, w).
Proof.
  intros Hmask Hbold HX H50 H5. unfold compute_aCompCor.
  rewrite (io_bind_ret _ _ _ _ _ (nb_load_ok _ _ _ Hmask)).
  rewrite (io_bind_ret _ _ _ _ _ (nb_load_ok _ _ _ Hbold)).
  unfold mbind at 1, io_bind, lift. rewrite HX.
  rewrite !decide_False by done. done.
Qed.

Lemma for_each_snoc_length {A B} (xs : list A) (f : A → outcome B) (acc acc' : list B) :
  for_each xs (λ x acc, y ← f x; Ret (acc ++ [y])) acc = Ret acc' →
  length acc' = length acc + length xs.
Proof.
  revert acc. induction xs as [| x xs IH]; intros acc Hrun; simpl in Hrun.
  - injection Hrun as <-. simpl. lia.
  - destruct (f x) as [y |]; [| done]. rewrite !outcome_bind_ret in Hrun.
    apply IH in Hrun. rewrite length_app in Hrun. simpl in *. lia.
Qed.

Lemma columns_of_length (a : ndarray V) (cols : list (list V)) :
  columns_of a = Ret cols → shape a !! 1 = Some (length cols).
Proof.
  unfold columns_of, py_index. destruct (shape a !! 1) as [width |]; [| done].
  rewrite outcome_bind_ret. intros Hrun. apply for_each_snoc_length in Hrun.
  unfold range in Hrun. rewrite length_seq in Hrun. simpl in Hrun. by subst.
Qed.

Lemma comp_column_length (prefix : string) (num_comp : nat) :
  length (comp_column prefix num_comp) = num_comp.
Proof. unfold comp_column, range. by rewrite length_map, length_seq. Qed.

Lemma compute_aCompCor_columns (bold mask method : string) (w w' : world V)
    (comp : ndarray V) (num_comp : nat) :
  pca_returns_k_columns →
  compute_aCompCor bold mask method w = (Ret (comp, num_comp), w') →
  shape comp !! 1 = Some num_comp.
Proof.
  intros Hpca Hrun. unfold compute_aCompCor in Hrun. io_inv Hrun.
  injection Hrun as <- <- <-.
  match goal with H : lift (pca_fit_transform _ _) _ = _ |- _ => apply lift_inv in H as [H _] end.
  by eapply Hpca.
Qed.

Lemma motion_24_params_shape (movpar_csv : string) (w w' : world V) (movpar : ndarray V) :
  motion_24_params movpar_csv w = (Ret movpar, w') → ∃ t, shape movpar = [t; 24].
Proof.
  intros Hrun. unfold motion_24_params in Hrun.
  apply io_bind_inv in Hrun as (rigid & w1 & Hread & Hbody).
  apply lift_inv in Hbody as [Hbody _].
  apply extract_rigid_movpar_shape in Hread as (_ & head & data & _ & Hs).
  destruct (length data) as [| t] eqn:Hlen.
  - rewrite (motion_24_params_body_empty rigid Hs) in Hbody. done.
  - destruct (motion_24_params_body_ok rigid (S t) Hs) as (a & Ha & Hsa & _); [lia |].
    exists (S t). congruence.
Qed.

(** The regressors outnumber their names by six: the raw motion parameters
    are appended as columns, but no name is appended for them. *)
Lemma assemble_confounds_lengths (bold movpar_file brain_mask WM_mask CSF_mask
    aCompCor_method : string) (w w' : world V) (confounds : list (list V))
    (csv_columns : list string) :
  pca_returns_k_columns →
  assemble_confounds bold movpar_file brain_mask WM_mask CSF_mask aCompCor_method w
    = (Ret (confounds, csv_columns), w') →
  length confounds = length csv_columns + 6.
Proof.
  intros Hpca Hrun. unfold assemble_confounds in Hrun.
  apply io_bind_inv in Hrun as (WM_signal & w1 & _ & Hrun).
  apply io_bind_inv in Hrun as ([WM_aCompCor n_wm] & w2 & Hwm & Hrun).
  apply io_bind_inv in Hrun as (wm_cols & w3 & Hwmc & Hrun).
  apply io_bind_inv in Hrun as (CSF_signal & w4 & _ & Hrun).
  apply io_bind_inv in Hrun as ([CSF_aCompCor n_csf] & w5 & Hcsf & Hrun).
  apply io_bind_inv in Hrun as (csf_cols & w6 & Hcsfc & Hrun).
  apply io_bind_inv in Hrun as (global_signal & w7 & _ & Hrun).
  apply io_bind_inv in Hrun as (motion_24 & w8 & Hmot & Hrun).
  apply io_bind_inv in Hrun as (mot_cols & w9 & Hmotc & Hrun).
  injection Hrun as <- <- <-.
  apply lift_inv in Hwmc as [Hwmc _]. apply columns_of_length in Hwmc.
  apply lift_inv in Hcsfc as [Hcsfc _]. apply columns_of_length in Hcsfc.
  apply lift_inv in Hmotc as [Hmotc _]. apply columns_of_length in Hmotc.
  apply (compute_aCompCor_columns _ _ _ _ _ _ _ Hpca) in Hwm.
  apply (compute_aCompCor_columns _ _ _ _ _ _ _ Hpca) in Hcsf.
  apply motion_24_params_shape in Hmot as [t Hmot]. rewrite Hmot in Hmotc.
  cbn [length]. rewrite !length_app, !comp_column_length. simpl in *.
  simplify_eq. lia.
Qed.

Lemma quiet_filename_template (p : string) : quiet (V:=V) (filename_template p).
Proof. unfold filename_template. quiet_steps. Qed.

Lemma quiet_extract_mask_trace (bold mask : string) : quiet (extract_mask_trace bold mask).
Proof.
  unfold extract_mask_trace.
  repeat (apply quiet_bind; [first [apply quiet_nb_load | apply quiet_lift] | intros ?]).
  destruct (shape _) as [| ? [| ? [| ? ?]]]; quiet_steps.
Qed.

Lemma quiet_compute_aCompCor (bold mask method : string) :
  quiet (compute_aCompCor bold mask method).
Proof.
  unfold compute_aCompCor.
  repeat (apply quiet_bind; [first [apply quiet_nb_load | apply quiet_lift] | intros ?]).
  apply quiet_bind; [repeat case_decide; quiet_steps | intros ?].
  quiet_steps.
Qed.

Lemma quiet_motion_24_params (movpar_csv : string) : quiet (motion_24_params movpar_csv).
Proof.
  unfold motion_24_params, extract_rigid_movpar, read_csv.
  apply quiet_bind; [| intros ?; apply quiet_lift].
  apply quiet_bind; [quiet_steps | intros rows].
  destruct rows; quiet_steps.
Qed.

Lemma quiet_assemble_confounds (bold movpar_file brain_mask WM_mask CSF_mask
    aCompCor_method : string) :
  quiet (assemble_confounds bold movpar_file brain_mask WM_mask CSF_mask aCompCor_method).
Proof.
  unfold assemble_confounds.
  repeat first
    [ apply quiet_ret | apply quiet_lift
    | apply quiet_bind;
        [ first [ apply quiet_extract_mask_trace | apply quiet_compute_aCompCor
                | apply quiet_motion_24_params | apply quiet_lift ]
        | intros ? ]
    | match goal with |- quiet (let '(_, _) := ?x in _) => destruct x end ].
Qed.

Lemma np_transpose_asarray_columns (confounds : list (list V)) (a : ndarray V) :
  np_transpose_asarray confounds = Ret a →
  shape a = [0] ∨ ∃ n, shape a = [n; length confounds].
Proof.
  unfold np_transpose_asarray. destruct confounds as [| first rest].
  - intros [= <-]. by left.
  - case_decide; [| done]. intros [= <-]. right. by eexists.
Qed.

(** C2 (where the code falls short of it).  The names are appended in the
    order the claim gives, but for the 24 motion columns only 18 names are
    appended, so the header is 6 names short of the assembled columns:
    [df.columns = column_names] raises, and the interface never returns nor
    writes the table. *)
Theorem ConfoundRegression_never_returns (bold movpar_file brain_mask WM_mask CSF_mask
    aCompCor_method : string) (w : world V) :
  pca_returns_k_columns →
  let run := ConfoundRegression_run_interface bold movpar_file brain_mask WM_mask
               CSF_mask aCompCor_method w in
  (∃ e, run.1 = Raise e) ∧ files run.2 = files w ∧
  ∀ template confounds csv_columns confound_array w1 w2,
    filename_template bold w = (Ret template, w1) →
    assemble_confounds bold movpar_file brain_mask WM_mask CSF_mask aCompCor_method w1
      = (Ret (confounds, csv_columns), w2) →
    np_transpose_asarray confounds = Ret confound_array →
    length confounds = length csv_columns + 6 ∧ run.1 = Raise ValueError.
Proof.
  intros Hpca run.
  assert (Hwrite : ∀ confounds csv_columns confound_array tpl w2,
            length confounds = length csv_columns + 6 →
            np_transpose_asarray confounds = Ret confound_array →
            write_confound_csv confound_array csv_columns tpl w2 = (Raise ValueError, w2)).
  { intros confounds names arr tpl w2 Hlen Harr. unfold write_confound_csv.
    apply np_transpose_asarray_columns in Harr as [-> | [n ->]]; [done |].
    rewrite decide_False by lia. done. }
  assert (Hcases : (∃ e, run.1 = Raise e) ∧ files run.2 = files w).
  { subst run. destruct (ConfoundRegression_run_interface _ _ _ _ _ _ w) as [r w'] eqn:Hrun.
    unfold ConfoundRegression_run_interface in Hrun. simpl.
    apply io_bind_cases in Hrun as [(e & Hrun & ->) | (tpl & w1 & Htpl & Hrun)].
    { apply quiet_filename_template in Hrun as (? & _). eauto. }
    apply quiet_filename_template in Htpl as (Hf1 & _).
    apply io_bind_cases in Hrun as [(e & Hrun & ->) | ([confounds names] & w2 & Hasm & Hrun)].
    { apply quiet_assemble_confounds in Hrun as (? & _). split; [eauto | congruence]. }
    pose proof (assemble_confounds_lengths _ _ _ _ _ _ _ _ _ _ Hpca Hasm) as Hlen.
    apply quiet_assemble_confounds in Hasm as (Hf2 & _).
    apply io_bind_cases in Hrun as [(e & Hrun & ->) | (arr & w3 & Harr & Hrun)].
    { injection Hrun as _ <-. split; [eauto | congruence]. }
    apply lift_inv in Harr as [Harr ->].
    rewrite (Hwrite _ _ _ _ _ Hlen Harr) in Hrun. injection Hrun as <- <-.
    split; [eauto | congruence]. }
  destruct Hcases as [Hraise Hfiles]. split; [done |]. split; [done |].
  intros tpl confounds names arr w1 w2 Htpl Hasm Harr.
  pose proof (assemble_confounds_lengths _ _ _ _ _ _ _ _ _ _ Hpca Hasm) as Hlen.
  split; [done |]. subst run. unfold ConfoundRegression_run_interface.
  rewrite (io_bind_ret _ _ _ _ _ Htpl), (io_bind_ret _ _ _ _ _ Hasm).
  unfold mbind, io_bind, lift. rewrite Harr.
  by rewrite (Hwrite _ _ _ _ _ Hlen Harr).
Qed.

End ConfoundsFacts.
End ConfoundsFacts.

(** * Facts about utils.py *)

Module UtilsFacts.
Import Utils.
Section UtilsFacts.
Context {V : Type} {num : Float64 V} {tools : Collaborators V} {disk : Nibabel V}.

Lemma string_length_app (s1 s2 : string) :
  String.length (s1 +:+ s2) = String.length s1 + String.length s2.
Proof. induction s1 as [| c s1 IH]; simpl; [done | by rewrite IH]. Qed.

Lemma string_app_inv_tail (s1 s2 t : string) : s1 +:+ t = s2 +:+ t → s1 = s2.
Proof.
  revert s2. induction s1 as [| c s1 IH]; intros [| c' s2] Heq.
  - done.
  - apply (f_equal String.length) in Heq.
    rewrite !string_length_app in Heq. simpl in Heq. lia.
  - apply (f_equal String.length) in Heq.
    rewrite !string_length_app in Heq. simpl in Heq. lia.
  - simpl in Heq. injection Heq as -> Heq. f_equal. by apply IH.
Qed.

Lemma string_app_cons (c : Ascii.ascii) (s1 s2 : string) :
  String c s1 +:+ s2 = String c (s1 +:+ s2).
Proof. done. Qed.

Lemma string_app_nil (s : string) : "" +:+ s = s.
Proof. done. Qed.

Lemma prefix_nil (s : string) : String.prefix "" s = true.
Proof. by destruct s. Qed.

Lemma prefix_cons (a b : Ascii.ascii) (s1 s2 : string) :
  String.prefix (String a s1) (String b s2)
  = if Ascii.ascii_dec a b then String.prefix s1 s2 else false.
Proof. done. Qed.

Lemma resolve_inj (dir : list string) (a b : string) :
  String.prefix "/" a = String.prefix "/" b → resolve dir a = resolve dir b → a = b.
Proof.
  unfold resolve. intros ->. destruct (String.prefix "/" b); [done |].
  intros Heq. apply (inj (String.append (dir_path dir))) in Heq.
  simpl in Heq. by injection Heq.
Qed.

(** A resolved path is absolute, so resolving it again changes nothing. *)
Lemma resolve_idem (dir : list string) (p : string) :
  resolve dir (resolve dir p) = resolve dir p.
Proof.
  assert (Habs : String.prefix "/" (resolve dir p) = true).
  { unfold resolve. destruct (String.prefix "/" p) eqn:Hp; [done |].
    destruct dir as [| name dir]; cbn [dir_path foldr];
      by rewrite ?string_app_cons, ?string_app_nil, prefix_cons, prefix_nil. }
  unfold resolve at 1. by rewrite Habs.
Qed.

Lemma volume_name_absolute (output_prefix : string) (x y : nat) :
  String.prefix "/" (volume_name output_prefix x)
  = String.prefix "/" (volume_name output_prefix y).
Proof.
  unfold volume_name. destruct output_prefix as [| c rest]; [done |].
  change (String c rest +:+ ?s) with (String c (rest +:+ s)).
  by rewrite !prefix_cons, !prefix_nil.
Qed.

(** Distinct volumes get distinct files. *)
Lemma volume_path_inj (dir : list string) (output_prefix : string) (x y : nat) :
  volume_path dir output_prefix x = volume_path dir output_prefix y → x = y.
Proof.
  unfold volume_path. intros Heq.
  apply resolve_inj in Heq; [| apply volume_name_absolute].
  unfold volume_name, py_str in Heq.
  apply (inj (String.append output_prefix)) in Heq.
  simpl in Heq. injection Heq as Heq.
  change (pretty x +:+ ".nii.gz" = pretty y +:+ ".nii.gz") in Heq.
  apply string_app_inv_tail in Heq. by apply (inj pretty) in Heq.
Qed.

Lemma with_volumes_snoc (dir : list string) (output_prefix : string) (in_nii : nifti V)
    (xs : list nat)
    (x : nat) (fs : gmap string (file V)) :
  with_volumes dir output_prefix in_nii (xs ++ [x]) fs
  = <[volume_path dir output_prefix x := volume_file in_nii x]>
      (with_volumes dir output_prefix in_nii xs fs).
Proof. unfold with_volumes. by rewrite foldl_snoc. Qed.

Lemma with_volumes_other (dir : list string) (output_prefix : string) (in_nii : nifti V)
    (xs : list nat)
    (fs : gmap string (file V)) (p : string) :
  (∀ x, x ∈ xs → volume_path dir output_prefix x ≠ p) →
  with_volumes dir output_prefix in_nii xs fs !! p = fs !! p.
Proof.
  induction xs as [| x xs IH] using rev_ind; intros Hp; [done |].
  rewrite with_volumes_snoc, lookup_insert_ne by (apply Hp, elem_of_app; right; apply list_elem_of_singleton; done).
  apply IH. intros y Hy. apply Hp, elem_of_app. by left.
Qed.

Lemma with_volumes_lookup (dir : list string) (output_prefix : string) (in_nii : nifti V)
    (xs : list nat)
    (fs : gmap string (file V)) (x : nat) :
  x ∈ xs →
  with_volumes dir output_prefix in_nii xs fs !! volume_path dir output_prefix x
  = Some (volume_file in_nii x).
Proof.
  induction xs as [| y xs IH] using rev_ind; intros Hx; [by apply elem_of_nil in Hx |].
  rewrite with_volumes_snoc. destruct (decide (x = y)) as [-> | Hne].
  - by rewrite lookup_insert_eq.
  - rewrite lookup_insert_ne.
    + apply IH. apply elem_of_app in Hx as [Hx | Hx]; [done |].
      apply list_elem_of_singleton in Hx. done.
    + intros Heq. by apply volume_path_inj in Heq.
Qed.

Lemma read_proxy_ok (p : string) (w : world V) (now loaded : nifti V) :
  files w !! resolve (cwd w) p = Some (NiftiFile now) →
  shape (dataobj now) = shape (dataobj loaded) →
  read_proxy p loaded w = (Ret (dataobj now), w).
Proof.
  intros Hf Hs. unfold read_proxy.
  rewrite (io_bind_ret _ _ _ _ _ (nb_load_ok _ _ _ Hf)). by rewrite decide_True.
Qed.

Lemma index_axis3_ok (terms : nat) (a : ndarray V) (d3 x : nat) :
  shape a !! 3 = Some d3 → terms ≤ length (shape a) → x < d3 →
  index_axis3 terms a x = Ret (frame a x).
Proof.
  intros Hd Ht Hx. unfold index_axis3. rewrite Hd.
  destruct (Nat.leb_spec terms (length (shape a))); [| lia].
  destruct (Nat.ltb_spec x d3); [done | lia].
Qed.

Lemma split_one_ok (terms : nat) (in_file output_prefix : string) (in_nii : nifti V)
    (d3 x : nat) (volumes : list string) (dir : list string) (fs : gmap string (file V))
    (out : list string) (cmds : list (command * gmap string (file V))) :
  fs !! resolve dir in_file = Some (NiftiFile in_nii) →
  shape (dataobj in_nii) !! 3 = Some d3 →
  terms ≤ length (shape (dataobj in_nii)) →
  x < d3 →
  split_one terms in_file output_prefix in_nii x volumes (World dir fs out cmds)
  = (Ret (volumes ++ [volume_path dir output_prefix x]),
     World dir (<[volume_path dir output_prefix x := volume_file in_nii x]> fs) out cmds).
Proof.
  intros Hin Hd Hterms Hx. unfold split_one.
  rewrite (io_bind_ret _ _ _ _ _ (read_proxy_ok in_file (World dir fs out cmds) in_nii in_nii Hin eq_refl)).
  unfold mbind, io_bind, lift. rewrite (index_axis3_ok _ _ d3) by done.
  unfold abspath, to_filename, write_file. simpl. by rewrite resolve_idem.
Qed.

(** The loop of [split_volumes] from volume [k] on: every volume is written
    to its own file, the input is left in place. *)
Lemma split_loop (terms : nat) (in_file output_prefix : string) (in_nii : nifti V)
    (d3 n k : nat) (volumes : list string) (dir : list string) (fs : gmap string (file V))
    (out : list string) (cmds : list (command * gmap string (file V))) :
  fs !! resolve dir in_file = Some (NiftiFile in_nii) →
  shape (dataobj in_nii) !! 3 = Some d3 →
  terms ≤ length (shape (dataobj in_nii)) →
  k + n ≤ d3 →
  (∀ x, x < d3 → volume_path dir output_prefix x ≠ resolve dir in_file) →
  for_io (seq k n) (split_one terms in_file output_prefix in_nii) volumes
    (World dir fs out cmds)
  = (Ret (volumes ++ map (volume_path dir output_prefix) (seq k n)),
     World dir (with_volumes dir output_prefix in_nii (seq k n) fs) out cmds).
Proof.
  intros Hin Hd Hterms. revert k volumes fs Hin.
  induction n as [| n IH]; intros k volumes fs Hin Hkn Hfresh.
  - simpl. by rewrite app_nil_r.
  - change (seq k (S n)) with (k :: seq (S k) n).
    change (for_io (k :: seq (S k) n) ?body ?acc)
      with (acc' ← body k acc; for_io (seq (S k) n) body acc').
    rewrite (io_bind_ret _ _ _ _ _ (split_one_ok _ _ _ _ d3 k _ _ _ _ _ Hin Hd Hterms ltac:(lia))).
    rewrite IH; [| | lia | done].
    + by rewrite <- app_assoc.
    + rewrite lookup_insert_ne; [done |]. apply Hfresh. lia.
Qed.

Lemma split_volumes_ok (in_file output_prefix : string) (in_nii : nifti V) (d3 : nat)
    (dir : list string) (fs : gmap string (file V)) (out : list string)
    (cmds : list (command * gmap string (file V))) :
  fs !! resolve dir in_file = Some (NiftiFile in_nii) →
  length (shape (dataobj in_nii)) = 4 ∨ length (shape (dataobj in_nii)) = 5 →
  shape (dataobj in_nii) !! 3 = Some d3 →
  (∀ x, x < d3 → volume_path dir output_prefix x ≠ resolve dir in_file) →
  split_volumes in_file output_prefix (World dir fs out cmds)
  = (Ret (Some (map (volume_path dir output_prefix) (seq 0 d3), d3)),
     World dir (with_volumes dir output_prefix in_nii (seq 0 d3) fs) out cmds).
Proof.
  intros Hin Hrank Hd Hfresh. unfold split_volumes.
  rewrite (io_bind_ret _ _ _ _ _ (nb_load_ok in_file (World dir fs out cmds) in_nii Hin)).
  unfold py_index. rewrite Hd.
  unfold mbind at 1, io_bind at 1, lift at 1.
  rewrite decide_False by lia.
  destruct Hrank as [Hrank | Hrank].
  - rewrite decide_True by done.
    unfold range. erewrite io_bind_ret; [done |].
    apply (split_loop 4 in_file output_prefix in_nii d3 d3 0 []); (done || lia).
  - rewrite decide_False by lia. rewrite decide_True by done.
    unfold range. erewrite io_bind_ret; [done |].
    apply (split_loop 5 in_file output_prefix in_nii d3 d3 0 []); (done || lia).
Qed.

(** C8 (as amended).  Splitting an input whose rank is neither 4 nor 5
    gives no list of volumes and writes no file; for a rank above 5 it
    prints its message and returns [None] normally, it does not raise. *)
Theorem split_volumes_wrong_rank (in_file output_prefix : string) (w : world V)
    (in_nii : nifti V) :
  files w !! resolve (cwd w) in_file = Some (NiftiFile in_nii) →
  length (shape (dataobj in_nii)) ≠ 4 →
  length (shape (dataobj in_nii)) ≠ 5 →
  let run := split_volumes in_file output_prefix w in
  files run.2 = files w ∧
  (∀ volumes, run.1 ≠ Ret (Some volumes)) ∧
  (5 < length (shape (dataobj in_nii)) →
   run = (Ret None,
          World (cwd w) (files w)
            (stdout w ++ ["the input file must be of dimensions 4 or 5"]) (commands w))).
Proof.
  intros Hin H4 H5 run.
  assert (Hrun : run = match shape (dataobj in_nii) !! 3 with
                       | Some _ =>
                           (Ret None,
                            World (cwd w) (files w)
                              (stdout w ++ ["the input file must be of dimensions 4 or 5"])
                              (commands w))
                       | None => (Raise IndexError, w)
                       end).
  { subst run. unfold split_volumes.
    rewrite (io_bind_ret _ _ _ _ _ (nb_load_ok in_file w in_nii Hin)).
    unfold py_index. destruct (shape (dataobj in_nii) !! 3) as [d3 |]; [| done].
    unfold mbind, io_bind, lift. by rewrite decide_True. }
  rewrite Hrun. destruct (shape (dataobj in_nii) !! 3) as [d3 |] eqn:Hd.
  - done.
  - split; [done |]. split; [done |].
    intros Hrank. apply lookup_ge_None in Hd. lia.
Qed.

Lemma set_axis3_ok (combined src : ndarray V) (X Y Z T i : nat) :
  shape combined = [X; Y; Z; T] → shape src = [X; Y; Z] → i < T →
  ∃ combined', set_axis3 combined i src = Ret combined' ∧
    shape combined' = [X; Y; Z; T] ∧
    ∀ a b c t, a < X → b < Y → c < Z →
      item combined' [a; b; c; t]
      = if decide (t = i) then item src [a; b; c] else item combined [a; b; c; t].
Proof.
  intros Hc Hs Hi. unfold set_axis3. rewrite Hc, Hs.
  destruct (Nat.ltb_spec i T); [| lia]. simpl.
  rewrite decide_True by (repeat constructor; by right).
  eexists. split; [done |]. split; [done |].
  intros a b c t Ha Hb Hc'. simpl. case_decide; [| done].
  unfold broadcast_index. simpl.
  repeat case_decide; repeat f_equal; lia.
Qed.

Lemma merge_one_ok (file : string) (combined : ndarray V) (i : nat) (w : world V)
    (vol : nifti V) (X Y Z T : nat) :
  files w !! resolve (cwd w) file = Some (NiftiFile vol) →
  shape (dataobj vol) = [X; Y; Z] → shape combined = [X; Y; Z; T] → i < T →
  ∃ combined', merge_one file (combined, i) w = (Ret (combined', i + 1), w) ∧
    shape combined' = [X; Y; Z; T] ∧
    ∀ a b c t, a < X → b < Y → c < Z →
      item combined' [a; b; c; t]
      = if decide (t = i) then item (dataobj vol) [a; b; c] else item combined [a; b; c; t].
Proof.
  intros Hf Hv Hc Hi.
  destruct (set_axis3_ok combined (dataobj vol) X Y Z T i Hc Hv Hi) as (c' & Hset & Hs' & Hitems).
  exists c'. split; [| done]. unfold merge_one.
  rewrite (io_bind_ret _ _ _ _ _ (nb_load_ok _ _ _ Hf)).
  unfold mbind, io_bind, lift, slice3. rewrite Hv. simpl. by rewrite Hset.
Qed.


Lemma filename_template_ok (p name : string) (w : world V) :
  template_name p = Ret name → filename_template p w = (Ret (resolve (cwd w) name), w).
Proof. intros Hname. unfold filename_template, mbind, io_bind, lift. by rewrite Hname. Qed.


Lemma slice_axis3_ok (a : ndarray V) (d0 d1 d2 d3 : nat) (rest : list nat) (lo hi : nat) :
  shape a = d0 :: d1 :: d2 :: d3 :: rest →
  ∃ a', slice_axis3 a lo hi = Ret a' ∧
        shape a' = d0 :: d1 :: d2 :: (hi `min` d3 - lo) :: rest ∧
        ∀ i j k f more, item a' (i :: j :: k :: f :: more) = item a (i :: j :: k :: lo + f :: more).
Proof. intros Hs. unfold slice_axis3. rewrite Hs. by eexists. Qed.

Lemma np_median_axis3_ok (a : ndarray V) (d0 d1 d2 d3 : nat) (rest : list nat) :
  shape a = d0 :: d1 :: d2 :: d3 :: rest →
  ∃ a', np_median_axis3 a = Ret a' ∧
        shape a' = d0 :: d1 :: d2 :: rest ∧
        ∀ i j k more, item a' (i :: j :: k :: more)
                      = np_median (map (λ f, item a (i :: j :: k :: f :: more)) (range d3)).
Proof. intros Hs. unfold np_median_axis3. rewrite Hs. by eexists. Qed.

Lemma mean_axis0_ok (a : ndarray V) (d0 : nat) (rest : list nat) :
  shape a = d0 :: rest → ∃ a', mean_axis0 a = Ret a' ∧ shape a' = rest.
Proof. intros Hs. unfold mean_axis0. rewrite Hs. by eexists. Qed.

(** On a series of rank 4 or more the trace exists, with one value per
    frame among the first 50. *)
Lemma global_signal_of_ok (data : ndarray V) (d0 d1 d2 t : nat) (rest : list nat) :
  shape data = d0 :: d1 :: d2 :: t :: rest →
  ∃ trace, global_signal_of data = Ret trace ∧ shape trace = 50 `min` t :: rest.
Proof.
  intros Hs. unfold global_signal_of.
  destruct (slice_axis3_ok data d0 d1 d2 t rest 0 50 Hs) as (a0 & -> & Hs0 & _).
  rewrite outcome_bind_ret.
  destruct (mean_axis0_ok a0 _ _ Hs0) as (a1 & -> & Hs1). rewrite outcome_bind_ret.
  destruct (mean_axis0_ok a1 _ _ Hs1) as (a2 & -> & Hs2). rewrite outcome_bind_ret.
  destruct (mean_axis0_ok a2 _ _ Hs2) as (a3 & -> & Hs3).
  exists a3. split; [done |]. rewrite Hs3. f_equal. lia.
Qed.

Lemma _get_vols_to_discard_ok (in_file : string) (w : world V) (img : nifti V)
    (trace : ndarray V) :
  files w !! resolve (cwd w) in_file = Some (NiftiFile img) →
  global_signal_of (dataobj img) = Ret trace →
  _get_vols_to_discard in_file (clear_extensions img) w = (Ret (is_outlier trace), w).
Proof.
  intros Hin Htrace. unfold _get_vols_to_discard.
  erewrite io_bind_ret; [| by apply read_proxy_ok].
  erewrite io_bind_lift; [| done]. done.
Qed.


Lemma grows_antsMotionCorr_run (in_file ref_file : string) (second : bool) :
  grows (antsMotionCorr_run in_file ref_file second).
Proof. unfold antsMotionCorr_run. grows_steps. Qed.

(** Whatever the solver does, the first command of the two passes is the
    solver on the series and the target it was handed. *)
Lemma two_pass_first_command (in_nii : nifti V) (slice_fname median_fname : string)
    (w w' : world V) (r : outcome (ndarray V)) :
  two_pass in_nii slice_fname median_fname w = (r, w') →
  ∃ more, commands w'
          = commands w ++ (antsMotionCorr_cmd median_fname slice_fname, files w) :: more.
Proof.
  unfold two_pass, antsMotionCorr_run. intros Hrun.
  apply io_bind_cases in Hrun as [(e & Hrun & _) | ([] & w1 & Hprint & Hrun)]; [done |].
  injection Hprint as <-.
  apply io_bind_cases in Hrun as [(e & Hrun & _) | (res & w2 & Hsolve & Hrun)].
  - unfold mbind, io_bind, mret, io_ret, run_command in Hrun. simpl in Hrun.
    destruct (exec _ _ _); [done |]. injection Hrun as _ <-. by exists [].
  - assert (Hlog : commands w2
                   = commands w ++ [(antsMotionCorr_cmd median_fname slice_fname, files w)]).
    { unfold mbind, io_bind, mret, io_ret, run_command in Hsolve. simpl in Hsolve.
      destruct (exec _ _ _); [| done]. by injection Hsolve as _ <-. }
    assert (Hrest : ∃ more, commands w' = commands w2 ++ more).
    { revert Hrun. generalize w2 r w'. clear.
      change (grows (corrected ← nb_load (mc_corrected_bold res);
                     median ← lift (np_median_axis3 (dataobj corrected));
                     tmp_median_fname ← abspath "tmp_median.nii.gz";
                     to_filename_float64
                       (Nifti1Image median (affine in_nii) (nii_header in_nii))
                       tmp_median_fname;;
                     print "Second iteration to generate reference image.";;
                     res ← antsMotionCorr_run slice_fname tmp_median_fname true;
                     corrected ← nb_load (mc_corrected_bold res);
                     lift (np_median_axis3 (dataobj corrected)))).
      repeat first [apply grows_antsMotionCorr_run | progress grows_steps]. }
    destruct Hrest as [more Hmore]. exists more.
    by rewrite Hmore, Hlog, <- app_assoc.
Qed.

Lemma map_seq_shift {A} (g : nat → A) (lo len : nat) :
  map (λ f, g (lo + f)) (seq 0 len) = map g (seq lo len).
Proof.
  revert lo. induction len as [| len IH]; intros lo; [done |].
  simpl. rewrite Nat.add_0_r. f_equal.
  rewrite <- (IH (S lo)), <- seq_shift, map_map.
  apply map_ext. intros f. f_equal. lia.
Qed.

(** The target of the first pass: the median of frames 20 to 39 of a series
    of more than 40 frames, of all frames of a shorter one, written under
    the header of the input. *)
Lemma initial_target_ok (in_file : string) (w : world V) (img : nifti V)
    (d0 d1 d2 t : nat) (data_slice : ndarray V) :
  shape (dataobj img) = [d0; d1; d2; t] →
  slice_axis3 (dataobj img) 0 50 = Ret data_slice →
  ∃ slice_fname median w1,
    initial_target in_file (clear_extensions img) data_slice w
      = (Ret (slice_fname, resolve (cwd w) "median.nii.gz"), w1) ∧
    commands w1 = commands w ∧
    files w1 !! resolve (cwd w) "median.nii.gz"
    = Some (NiftiFile (Nifti1Image (on_disk (nii_header (clear_extensions img)) median)
                         (affine img) (nii_header (clear_extensions img)))) ∧
    slice_fname = (if 40 <? t then resolve (cwd w) "slice.nii.gz" else in_file) ∧
    shape median = [d0; d1; d2] ∧
    ∀ i j k,
      item median [i; j; k]
      = np_median (map (λ f, item (dataobj img) [i; j; k; f])
                     (if 40 <? t then seq 20 20 else seq 0 t)).
Proof.
  intros Hs Hslice.
  destruct (slice_axis3_ok (dataobj img) d0 d1 d2 t [] 0 50 Hs)
    as (data_slice' & Hslice' & Hs1 & H1).
  rewrite Hslice in Hslice'. injection Hslice' as <-.
  unfold initial_target. simpl dataobj. rewrite Hs. simpl reverse.
  erewrite io_bind_lift; [| done].
  destruct (Nat.ltb_spec 40 t) as [Hlong | Hshort].
  - destruct (slice_axis3_ok data_slice d0 d1 d2 _ [] 20 40 Hs1)
      as (window & Hwin & Hs2 & H2).
    destruct (np_median_axis3_ok window d0 d1 d2 _ [] Hs2) as (median & Hmed & Hs3 & H3).
    eexists _, median, _. split.
    { unfold abspath, to_filename, to_filename_float64, write_file, mbind, io_bind, mret,
        io_ret, lift.
      rewrite Hwin, Hmed. simpl. reflexivity. }
    split; [done |]. split; [by simpl; rewrite resolve_idem, lookup_insert_eq |].
    split; [done |]. split; [done |].
    intros i j k. rewrite H3.
    replace (40 `min` (50 `min` t - 0) - 20) with 20 by lia.
    rewrite <- (map_seq_shift _ 20 20). unfold range. f_equal.
    apply map_ext. intros f. by rewrite H2, H1.
  - destruct (np_median_axis3_ok data_slice d0 d1 d2 _ [] Hs1) as (median & Hmed & Hs3 & H3).
    eexists _, median, _. split.
    { unfold abspath, to_filename_float64, write_file, mbind, io_bind, mret, io_ret, lift.
      rewrite Hmed. simpl. reflexivity. }
    split; [done |]. split; [by simpl; rewrite resolve_idem, lookup_insert_eq |].
    split; [done |]. split; [done |].
    intros i j k. rewrite H3.
    replace (50 `min` t - 0) with t by lia. unfold range. f_equal.
    apply map_ext. intros f. by rewrite H1.
Qed.

(** C7 (as amended).  For a 4-D series whose file name has the ['_ses-'] and
    ['_run-'] parts and in which no dummy volume is detected, the target
    handed to the solver in the first pass is the voxel-wise median of
    frames 20 to 39 whenever the series has more than 40 frames, and
    otherwise the voxel-wise median of all its frames (at most 40, so all
    within the first 50); the solver is the first command run, on that
    target.  The target is a float64 array written to [median.nii.gz] under
    the header of the input: the solver finds it in the data type of that
    header, so voxel for voxel as it is when that type holds float64
    values. *)
Theorem initial_target_of_two_pass (in_file : string) (w : world V) (img : nifti V)
    (d0 d1 d2 t : nat) (name : string) (trace : ndarray V) :
  files w !! resolve (cwd w) in_file = Some (NiftiFile img) →
  shape (dataobj img) = [d0; d1; d2; t] →
  template_name in_file = Ret name →
  global_signal_of (dataobj img) = Ret trace →
  is_outlier trace = 0 →
  ∃ slice_fname fs median target more,
    commands (EstimateReferenceImage_run_interface in_file w).2
      = commands w
        ++ (antsMotionCorr_cmd (resolve (cwd w) "median.nii.gz") slice_fname, fs) :: more ∧
    slice_fname = (if 40 <? t then resolve (cwd w) "slice.nii.gz" else in_file) ∧
    shape median = [d0; d1; d2] ∧
    (∀ i j k,
       item median [i; j; k]
       = np_median (map (λ f, item (dataobj img) [i; j; k; f])
                      (if 40 <? t then seq 20 20 else seq 0 t))) ∧
    fs !! resolve (cwd w) "median.nii.gz" = Some (NiftiFile target) ∧
    dataobj target = on_disk (nii_header target) median ∧
    shape (dataobj target) = [d0; d1; d2] ∧
    affine target = affine img ∧
    fields (nii_header target) = fields (nii_header img) ∧
    (holds_float64 (nii_header target) →
     ∀ i j k,
       item (dataobj target) [i; j; k]
       = np_median (map (λ f, item (dataobj img) [i; j; k; f])
                      (if 40 <? t then seq 20 20 else seq 0 t))).
Proof.
  intros Hin Hs Hname Htrace Hn.
  destruct (slice_axis3_ok (dataobj img) d0 d1 d2 t [] 0 50 Hs)
    as (data_slice & Hslice & _ & _).
  destruct (initial_target_ok in_file w img d0 d1 d2 t data_slice Hs Hslice)
    as (slice_fname & median & w1 & Hinit & Hcmds & Hfile & Hname1 & Hshape & Hitems).
  set (hdr := nii_header (clear_extensions img)) in *.
  assert (Hrest : ∀ more,
            commands (EstimateReferenceImage_run_interface in_file w).2
            = commands w
              ++ (antsMotionCorr_cmd (resolve (cwd w) "median.nii.gz") slice_fname, files w1)
                 :: more →
            ∃ slice_fname fs median target more,
              commands (EstimateReferenceImage_run_interface in_file w).2
              = commands w
                ++ (antsMotionCorr_cmd (resolve (cwd w) "median.nii.gz") slice_fname, fs)
                   :: more ∧
              slice_fname = (if 40 <? t then resolve (cwd w) "slice.nii.gz" else in_file) ∧
              shape median = [d0; d1; d2] ∧
              (∀ i j k,
                 item median [i; j; k]
                 = np_median (map (λ f, item (dataobj img) [i; j; k; f])
                                (if 40 <? t then seq 20 20 else seq 0 t))) ∧
              fs !! resolve (cwd w) "median.nii.gz" = Some (NiftiFile target) ∧
              dataobj target = on_disk (nii_header target) median ∧
              shape (dataobj target) = [d0; d1; d2] ∧
              affine target = affine img ∧
              fields (nii_header target) = fields (nii_header img) ∧
              (holds_float64 (nii_header target) →
               ∀ i j k,
                 item (dataobj target) [i; j; k]
                 = np_median (map (λ f, item (dataobj img) [i; j; k; f])
                                (if 40 <? t then seq 20 20 else seq 0 t)))).
  { intros more Hmore.
    exists slice_fname, (files w1), median, (Nifti1Image (on_disk hdr median) (affine img) hdr),
      more.
    split; [done |]. split; [done |]. split; [done |]. split; [done |].
    split; [done |]. split; [done |]. split; [done |]. split; [done |]. split; [done |].
    intros Hexact i j k. simpl. rewrite Hexact. apply Hitems. }
  destruct (EstimateReferenceImage_run_interface in_file w) as [r w'] eqn:Hrun.
  unfold EstimateReferenceImage_run_interface in Hrun.
  erewrite io_bind_ret in Hrun; [| by apply nb_load_ok].
  erewrite io_bind_lift in Hrun; [| done].
  erewrite io_bind_ret in Hrun; [| by apply _get_vols_to_discard_ok].
  erewrite io_bind_ret in Hrun; [| by apply filename_template_ok].
  erewrite io_bind_ret in Hrun; [| reflexivity].
  rewrite Hn in Hrun. rewrite decide_True in Hrun by done.
  apply io_bind_cases in Hrun as [(e & Hrun & _) | (a & w2 & Hrun & Hend)].
  - erewrite io_bind_ret in Hrun; [| exact Hinit]. cbv beta iota in Hrun.
    apply two_pass_first_command in Hrun as [more Hmore].
    apply (Hrest more). simpl. by rewrite Hmore, Hcmds.
  - erewrite io_bind_ret in Hrun; [| exact Hinit]. cbv beta iota in Hrun.
    apply two_pass_first_command in Hrun as [more Hmore].
    injection Hend as _ <-.
    apply (Hrest more). simpl. by rewrite Hmore, Hcmds.
Qed.

Lemma bold_xform_distinct (dir : list string) (x y : nat) :
  volume_path dir "bold_" x ≠ volume_path dir "xform_" y.
Proof.
  unfold volume_path, resolve, volume_name.
  rewrite !string_app_cons, !prefix_cons.
  destruct (Ascii.ascii_dec _ _) as [Heq | _]; [done |].
  destruct (Ascii.ascii_dec _ _) as [Heq | _]; [done |].
  intros Heq. apply (inj (String.append (dir_path dir))) in Heq.
  rewrite ?string_app_cons, ?string_app_nil in Heq. discriminate.
Qed.

(** One turn of the loop of [applyTransforms] on a frame that has a volume
    and a transform. *)
Lemma resample_one_run (use_fieldwarp : bool) (fieldwarp : string) (tb tx x : nat)
    (warped : list string) (dir : list string) (fs : gmap string (file V))
    (out : list string) (cmds : list (command * gmap string (file V))) :
  x < tb → x < tx →
  resample_one use_fieldwarp fieldwarp
    (map (volume_path dir "bold_") (seq 0 tb)) (map (volume_path dir "xform_") (seq 0 tx))
    (volume_path dir "bold_" 0) x warped (World dir fs out cmds)
  = (run_command (frame_cmd dir use_fieldwarp fieldwarp x);;
     print ("Resampled volume " +:+ py_str (x + 1));;
     mret (warped ++ [resolve dir (deformed_name x)])) (World dir fs out cmds).
Proof.
  intros Hb Hx. unfold resample_one.
  erewrite io_bind_lift;
    [| unfold py_index; rewrite list_lookup_fmap, lookup_seq_lt by lia; done].
  erewrite io_bind_ret; [| reflexivity].
  erewrite io_bind_lift;
    [| unfold py_index; rewrite list_lookup_fmap, lookup_seq_lt by lia; done].
  unfold frame_cmd. by destruct use_fieldwarp.
Qed.

(** The loop of [applyTransforms] over the frames [k, k + n) that have a
    volume and a transform, for a resampler that succeeds wherever [kept]
    holds and keeps it: one command per frame, in frame order, each
    recorded with the files it found. *)
Lemma resample_steps (use_fieldwarp : bool) (fieldwarp : string) (tb tx m n k : nat)
    (kept : gmap string (file V) → Prop)
    (warped : list string) (dir : list string) (fs : gmap string (file V))
    (out : list string) (cmds : list (command * gmap string (file V))) :
  k + n ≤ m → m ≤ tb → m ≤ tx →
  (∀ x fs', x < m → kept fs' →
     ∃ fs'', exec (frame_cmd dir use_fieldwarp fieldwarp x) dir fs' = Ret fs'' ∧ kept fs'') →
  kept fs →
  ∃ snaps fs_end out_end,
    for_io (seq k n)
      (resample_one use_fieldwarp fieldwarp
         (map (volume_path dir "bold_") (seq 0 tb))
         (map (volume_path dir "xform_") (seq 0 tx))
         (volume_path dir "bold_" 0))
      warped (World dir fs out cmds)
    = (Ret (warped ++ map (λ x, resolve dir (deformed_name x)) (seq k n)),
       World dir fs_end out_end
         (cmds ++ zip (map (frame_cmd dir use_fieldwarp fieldwarp) (seq k n)) snaps)) ∧
    length snaps = n ∧
    Forall kept snaps ∧
    kept fs_end.
Proof.
  intros Hkn Hb Hx Hexec. revert k warped fs out cmds Hkn.
  induction n as [| n IH]; intros k warped fs out cmds Hkn Hkept.
  - exists [], fs, out. simpl. by rewrite !app_nil_r.
  - destruct (Hexec k fs) as (fs1 & Hfs1 & Hkept1); [lia | done |].
    destruct (IH (S k) (warped ++ [resolve dir (deformed_name k)]) fs1
                (out ++ ["Resampled volume " +:+ py_str (k + 1)])
                (cmds ++ [(frame_cmd dir use_fieldwarp fieldwarp k, fs)]))
      as (snaps & fs_end & out_end & Hrun & Hlen & Hsnaps & Hend); [lia | done |].
    exists (fs :: snaps), fs_end, out_end. split; [| split; [| split]].
    + change (seq k (S n)) with (k :: seq (S k) n).
      change (for_io (k :: ?xs) ?body ?acc) with (acc' ← body k acc; for_io xs body acc').
      erewrite io_bind_ret.
      * rewrite Hrun. cbn [map zip zip_with]. by rewrite <- !app_assoc.
      * rewrite (resample_one_run use_fieldwarp fieldwarp tb tx k warped dir fs out cmds)
          by lia.
        erewrite io_bind_ret; [| by apply run_command_ok]. done.
    + simpl. by rewrite Hlen.
    + by constructor.
    + done.
Qed.

(** [applyTransforms] up to its loop: the two splits leave the volumes of
    the series and of the transforms side by side. *)
Lemma applyTransforms_after_splits (in_file xforms fieldwarp : string) (use_fieldwarp : bool)
    (dir : list string) (fs : gmap string (file V)) (out : list string)
    (cmds : list (command * gmap string (file V))) (bold motion : nifti V) (tb tx : nat) :
  fs !! resolve dir in_file = Some (NiftiFile bold) →
  fs !! resolve dir xforms = Some (NiftiFile motion) →
  length (shape (dataobj bold)) = 4 ∨ length (shape (dataobj bold)) = 5 →
  length (shape (dataobj motion)) = 4 ∨ length (shape (dataobj motion)) = 5 →
  shape (dataobj bold) !! 3 = Some tb →
  shape (dataobj motion) !! 3 = Some tx →
  (∀ x, x < tb → volume_path dir "bold_" x ≠ resolve dir in_file ∧
                 volume_path dir "bold_" x ≠ resolve dir xforms) →
  (∀ x, x < tx → volume_path dir "xform_" x ≠ resolve dir xforms) →
  ∃ out2,
    applyTransforms_run_interface in_file use_fieldwarp fieldwarp xforms (World dir fs out cmds)
    = (reference_image ← lift (py_index (map (volume_path dir "bold_") (seq 0 tb)) 0);
       for_io (range tx)
         (resample_one use_fieldwarp fieldwarp (map (volume_path dir "bold_") (seq 0 tb))
            (map (volume_path dir "xform_") (seq 0 tx)) reference_image) [])
        (World dir
           (with_volumes dir "xform_" motion (seq 0 tx)
              (with_volumes dir "bold_" bold (seq 0 tb) fs))
           out2 cmds).
Proof.
  intros Hin Hxf Hrb Hrm Htb Htm Hfresh Hfresh'.
  set (out1 := out ++ ["Splitting bold and motion correction files into lists of single volumes"]).
  set (fs1 := with_volumes dir "bold_" bold (seq 0 tb) fs).
  assert (Hxf1 : fs1 !! resolve dir xforms = Some (NiftiFile motion)).
  { unfold fs1. rewrite with_volumes_other; [done |].
    intros x Hx. apply elem_of_seq in Hx. apply Hfresh. lia. }
  pose proof (split_volumes_ok in_file "bold_" bold tb dir fs out1 cmds Hin Hrb Htb
                (λ x Hx, proj1 (Hfresh x Hx))) as Hsplit1.
  pose proof (split_volumes_ok xforms "xform_" motion tx dir fs1 out1 cmds Hxf1 Hrm Htm
                Hfresh') as Hsplit2.
  exists out1. unfold applyTransforms_run_interface.
  erewrite io_bind_ret; [| reflexivity].
  erewrite io_bind_ret; [| erewrite io_bind_ret; [| exact Hsplit1]; reflexivity].
  cbv beta iota.
  erewrite io_bind_ret; [| erewrite io_bind_ret; [| exact Hsplit2]; reflexivity].
  cbv beta iota. reflexivity.
Qed.

(** After the two splits every volume is in place, and every other file is
    as it was. *)
Lemma splits_in_place (dir : list string) (bold motion : nifti V) (tb tx : nat)
    (fs : gmap string (file V)) :
  let fs2 := with_volumes dir "xform_" motion (seq 0 tx)
               (with_volumes dir "bold_" bold (seq 0 tb) fs) in
  (∀ y, y < tb → fs2 !! volume_path dir "bold_" y = Some (volume_file bold y)) ∧
  (∀ y, y < tx → fs2 !! volume_path dir "xform_" y = Some (volume_file motion y)) ∧
  (∀ p, (∀ y, y < tb → volume_path dir "bold_" y ≠ p) →
        (∀ y, y < tx → volume_path dir "xform_" y ≠ p) →
        fs2 !! p = fs !! p).
Proof.
  cbv zeta. split; [| split].
  - intros y Hy. rewrite with_volumes_other.
    + apply with_volumes_lookup, elem_of_seq. lia.
    + intros z _ Heq. by apply (bold_xform_distinct dir y z).
  - intros y Hy. apply with_volumes_lookup, elem_of_seq. lia.
  - intros p Hb Hx. rewrite !with_volumes_other; [done | |].
    + intros y Hy. apply elem_of_seq in Hy. apply Hb. lia.
    + intros y Hy. apply elem_of_seq in Hy. apply Hx. lia.
Qed.

(** [applyTransforms] through the first [m] frames, for a resampler that
    succeeds wherever [kept] holds and keeps it. *)
Lemma applyTransforms_frames (in_file xforms fieldwarp : string) (use_fieldwarp : bool)
    (dir : list string) (fs : gmap string (file V)) (out : list string)
    (cmds : list (command * gmap string (file V))) (bold motion : nifti V) (tb tx m : nat)
    (kept : gmap string (file V) → Prop) :
  fs !! resolve dir in_file = Some (NiftiFile bold) →
  fs !! resolve dir xforms = Some (NiftiFile motion) →
  length (shape (dataobj bold)) = 4 ∨ length (shape (dataobj bold)) = 5 →
  length (shape (dataobj motion)) = 4 ∨ length (shape (dataobj motion)) = 5 →
  shape (dataobj bold) !! 3 = Some tb →
  shape (dataobj motion) !! 3 = Some tx →
  (∀ x, x < tb → volume_path dir "bold_" x ≠ resolve dir in_file ∧
                 volume_path dir "bold_" x ≠ resolve dir xforms) →
  (∀ x, x < tx → volume_path dir "xform_" x ≠ resolve dir xforms) →
  1 ≤ tb → m ≤ tb → m ≤ tx →
  kept (with_volumes dir "xform_" motion (seq 0 tx)
          (with_volumes dir "bold_" bold (seq 0 tb) fs)) →
  (∀ x fs', x < m → kept fs' →
     ∃ fs'', exec (frame_cmd dir use_fieldwarp fieldwarp x) dir fs' = Ret fs'' ∧ kept fs'') →
  ∃ snaps fs_end out_end,
    applyTransforms_run_interface in_file use_fieldwarp fieldwarp xforms (World dir fs out cmds)
    = for_io (seq m (tx - m))
        (resample_one use_fieldwarp fieldwarp (map (volume_path dir "bold_") (seq 0 tb))
           (map (volume_path dir "xform_") (seq 0 tx)) (volume_path dir "bold_" 0))
        (map (λ x, resolve dir (deformed_name x)) (seq 0 m))
        (World dir fs_end out_end
           (cmds ++ zip (map (frame_cmd dir use_fieldwarp fieldwarp) (seq 0 m)) snaps)) ∧
    length snaps = m ∧
    Forall kept snaps ∧
    kept fs_end.
Proof.
  intros Hin Hxf Hrb Hrm Htb Htm Hfresh Hfresh' Hb Hmb Hmx Hkept Hexec.
  destruct (applyTransforms_after_splits in_file xforms fieldwarp use_fieldwarp dir fs out cmds
              bold motion tb tx Hin Hxf Hrb Hrm Htb Htm Hfresh Hfresh') as (out2 & ->).
  erewrite io_bind_lift;
    [| unfold py_index; rewrite list_lookup_fmap, lookup_seq_lt by lia; done].
  change (0 + 0) with 0.
  destruct (resample_steps use_fieldwarp fieldwarp tb tx m m 0 kept [] dir _ out2 cmds
              ltac:(lia) Hmb Hmx Hexec Hkept)
    as (snaps & fs_end & out_end & Hloop & Hlen & Hsnaps & Hend).
  exists snaps, fs_end, out_end. split; [| done].
  unfold range. rewrite (for_io_range_from tx m) by done.
  erewrite io_bind_ret; [| exact Hloop]. done.
Qed.

Lemma map_fst_zip {A B} (l : list A) (k : list B) :
  length l ≤ length k → map fst (zip l k) = l.
Proof.
  revert k. induction l as [| a l IH]; intros [| b k] Hlen; simpl in *; try done; try lia.
  f_equal. apply IH. lia.
Qed.

(** C9.  For a series and a transform series with the same number [t] of
    frames, split into the volumes [bold_vol<x>.nii.gz] and
    [xform_vol<x>.nii.gz] of the working directory, and a resampler that
    succeeds whenever these volumes (and the distortion field, when the flag
    is set) are in place and leaves them in place: the resampler is run
    exactly once per frame, in frame order; the command of frame [x] reads
    volume [x], takes volume 0 as its reference, writes
    [deformed_volume<x+1>.nii.gz], and its chain is the motion transform of
    frame [x] first, followed by the shared distortion field only when the
    flag is set; the output names are collected in frame order; and every
    command finds volume [y] of either split holding frame [y] of its
    series. *)
Theorem applyTransforms_invocations (in_file xforms fieldwarp : string)
    (use_fieldwarp : bool) (w : world V) (bold motion : nifti V) (t : nat) :
  files w !! resolve (cwd w) in_file = Some (NiftiFile bold) →
  files w !! resolve (cwd w) xforms = Some (NiftiFile motion) →
  length (shape (dataobj bold)) = 4 ∨ length (shape (dataobj bold)) = 5 →
  length (shape (dataobj motion)) = 4 ∨ length (shape (dataobj motion)) = 5 →
  shape (dataobj bold) !! 3 = Some t →
  shape (dataobj motion) !! 3 = Some t →
  1 ≤ t →
  let dir := cwd w in
  let bold_vol x := resolve dir ("bold_vol" +:+ py_str x +:+ ".nii.gz") in
  let xform_vol x := resolve dir ("xform_vol" +:+ py_str x +:+ ".nii.gz") in
  let output x := resolve dir ("deformed_volume" +:+ py_str (x + 1) +:+ ".nii.gz") in
  let command x :=
    antsApplyTransforms_cmd 3 true (bold_vol x) (bold_vol 0) (output x)
      (xform_vol x :: (if use_fieldwarp then [fieldwarp] else [])) "LanczosWindowedSinc" in
  let in_place (fs : gmap string (file V)) :=
    (∀ y, y < t → fs !! bold_vol y = Some (volume_file bold y)) ∧
    (∀ y, y < t → fs !! xform_vol y = Some (volume_file motion y)) ∧
    (use_fieldwarp = true →
     fs !! resolve dir fieldwarp = files w !! resolve dir fieldwarp) in
  (∀ x, x < t → bold_vol x ≠ resolve dir in_file ∧ bold_vol x ≠ resolve dir xforms) →
  (∀ x, x < t → xform_vol x ≠ resolve dir xforms) →
  (use_fieldwarp = true →
   (∀ x, x < t → bold_vol x ≠ resolve dir fieldwarp) ∧
   (∀ x, x < t → xform_vol x ≠ resolve dir fieldwarp)) →
  (∀ x fs, x < t → in_place fs →
     ∃ fs', exec (command x) dir fs = Ret fs' ∧ in_place fs') →
  let run := applyTransforms_run_interface in_file use_fieldwarp fieldwarp xforms w in
  ∃ snaps,
    run.1 = Ret (map output (seq 0 t)) ∧
    commands run.2 = commands w ++ zip (map command (seq 0 t)) snaps ∧
    length snaps = t ∧
    Forall in_place snaps.
Proof.
  destruct w as [dir0 fs out cmds].
  intros Hin Hxf Hrb Hrm Htb Htm Ht dir bold_vol xform_vol output command in_place
    Hfresh Hfresh' Hfield Hexec run.
  assert (Hplace : in_place (with_volumes dir0 "xform_" motion (seq 0 t)
                              (with_volumes dir0 "bold_" bold (seq 0 t) fs))).
  { destruct (splits_in_place dir0 bold motion t t fs) as (Hvb & Hvx & Ho).
    split; [exact Hvb | split; [exact Hvx |]]. intros Hflag.
    destruct (Hfield Hflag) as [Hf1 Hf2]. apply Ho; [exact Hf1 | exact Hf2]. }
  destruct (applyTransforms_frames in_file xforms fieldwarp use_fieldwarp dir0 fs out cmds
              bold motion t t t in_place Hin Hxf Hrb Hrm Htb Htm Hfresh Hfresh'
              Ht ltac:(lia) ltac:(lia) Hplace Hexec)
    as (snaps & fs_end & out_end & Hrun & Hlen & Hsnaps & _).
  exists snaps. unfold run. rewrite Hrun, Nat.sub_diag. cbn [seq for_io].
  unfold mret, io_ret. cbn [fst snd commands]. done.
Qed.

End UtilsFacts.
End UtilsFacts.

(** * File names *)

Module NameFacts.
Import Stdlib.Strings.Ascii.
Section NameFacts.

Lemma string_app_nil_r (s : string) : s +:+ "" = s.
Proof. induction s as [| c s IH]; [done |]. by rewrite UtilsFacts.string_app_cons, IH. Qed.

Lemma string_app_assoc (s1 s2 s3 : string) : (s1 +:+ s2) +:+ s3 = s1 +:+ s2 +:+ s3.
Proof.
  induction s1 as [| c s1 IH]; [done |]. by rewrite !UtilsFacts.string_app_cons, IH.
Qed.

Lemma rev_app_app (s t : string) : String.rev_app s t = String.rev s +:+ t.
Proof.
  unfold String.rev. revert t. induction s as [| c s IH]; intros t; [done |].
  simpl. rewrite (IH (String c t)), (IH (String c "")).
  by rewrite string_app_assoc.
Qed.

Lemma rev_app_rev_app (s t u : string) :
  String.rev_app (String.rev_app s t) u = String.rev_app t (s +:+ u).
Proof.
  revert t u. induction s as [| c s IH]; intros t u; [done |].
  simpl. by rewrite IH.
Qed.

Lemma rev_rev_app (s : string) : String.rev (String.rev_app s "") = s.
Proof. unfold String.rev. by rewrite rev_app_rev_app, string_app_nil_r. Qed.

Lemma py_split_go_step (sep cur : string) (c : Ascii.ascii) (s : string) :
  py_split_go sep 0 cur (String c s)
  = if String.prefix sep (String c s)
    then String.rev cur :: py_split_go sep (String.length sep - 1) "" s
    else py_split_go sep 0 (String c cur) s.
Proof. done. Qed.

Lemma py_split_go_nonempty (sep : string) (skip : nat) (cur s : string) :
  py_split_go sep skip cur s ≠ [].
Proof.
  revert skip cur. induction s as [| c s IH]; intros skip cur; [done |].
  destruct skip as [| k]; [| apply IH].
  rewrite py_split_go_step. destruct (String.prefix sep (String c s)); [done | apply IH].
Qed.

(** Scanning over characters at which the separator does not start only
    extends the current piece. *)
Lemma py_split_go_pass (sep s rest cur : string) :
  unmatched sep s rest →
  py_split_go sep 0 cur (s +:+ rest) = py_split_go sep 0 (String.rev_app s cur) rest.
Proof.
  revert cur. induction s as [| c s IH]; intros cur Hs; [done |].
  destruct Hs as [Hc Hs]. rewrite UtilsFacts.string_app_cons, py_split_go_step, Hc.
  by apply IH.
Qed.

Lemma py_split_go_skip (sep u t cur : string) :
  py_split_go sep (String.length u) cur (u +:+ t) = py_split_go sep 0 cur t.
Proof. induction u as [| c u IH]; [done |]. exact IH. Qed.

Lemma prefix_app (sep t : string) : String.prefix sep (sep +:+ t) = true.
Proof.
  induction sep as [| c sep IH]; [apply UtilsFacts.prefix_nil |].
  rewrite UtilsFacts.string_app_cons, UtilsFacts.prefix_cons.
  by destruct (Ascii.ascii_dec c c).
Qed.

(** At a separator the current piece ends and the next one starts after
    it. *)
Lemma py_split_go_match (a : Ascii.ascii) (sep t cur : string) :
  py_split_go (String a sep) 0 cur (String a sep +:+ t)
  = String.rev cur :: py_split_go (String a sep) 0 "" t.
Proof.
  rewrite UtilsFacts.string_app_cons, py_split_go_step.
  rewrite <- UtilsFacts.string_app_cons, prefix_app.
  replace (String.length (String a sep) - 1) with (String.length sep) by (simpl; lia).
  by rewrite py_split_go_skip.
Qed.

(** The first piece starts with the first character of what is already in
    it. *)
Lemma py_split_go_head (sep : string) (skip : nat) (cur s : string) (c : Ascii.ascii)
    (y : string) :
  String.rev cur = String c y →
  ∃ y' pieces, py_split_go sep skip cur s = String c y' :: pieces.
Proof.
  revert skip cur y. induction s as [| a s IH]; intros skip cur y Hcur.
  - exists y, []. simpl. by rewrite Hcur.
  - destruct skip as [| k]; [| by apply (IH k cur y)].
    rewrite py_split_go_step. destruct (String.prefix sep (String a s)).
    + rewrite Hcur. by eexists _, _.
    + apply (IH 0 (String a cur) (y +:+ String a "")).
      unfold String.rev. simpl. rewrite rev_app_app, Hcur. done.
Qed.

Lemma lacks_unmatched (a : Ascii.ascii) (sep s rest : string) :
  lacks a s = true → unmatched (String a sep) s rest.
Proof.
  induction s as [| c s IH]; [done |]. simpl. intros Hs.
  apply andb_prop in Hs as [Hc Hs]. split; [| by apply IH].
  destruct (Ascii.ascii_dec a c) as [-> | Hne]; [| done].
  by rewrite Ascii.eqb_refl in Hc.
Qed.

Lemma unmatched_app (sep s1 s2 rest : string) :
  unmatched sep s1 (s2 +:+ rest) → unmatched sep s2 rest → unmatched sep (s1 +:+ s2) rest.
Proof.
  intros H1 H2. induction s1 as [| c s1 IH]; [done |].
  destruct H1 as [Hc H1]. rewrite UtilsFacts.string_app_cons. split; [| by apply IH].
  by rewrite string_app_assoc.
Qed.

Lemma lacks_app (a : Ascii.ascii) (s1 s2 : string) :
  lacks a (s1 +:+ s2) = lacks a s1 && lacks a s2.
Proof.
  induction s1 as [| c s1 IH]; [done |].
  rewrite UtilsFacts.string_app_cons. simpl. rewrite IH. by rewrite andb_assoc.
Qed.

(** A string without the separator is a single piece. *)
Lemma py_split_go_single (a : Ascii.ascii) (s cur : string) :
  lacks a s = true →
  py_split_go (String a "") 0 cur s = [String.rev (String.rev_app s cur)].
Proof.
  intros Hs. rewrite <- (string_app_nil_r s) at 1.
  rewrite py_split_go_pass by (by apply lacks_unmatched). done.
Qed.

(** The last piece of a path that ends in a name without a slash. *)
Lemma last_piece_of_path (dir name cur : string) :
  lacks "/" name = true →
  List.last (py_split_go "/" 0 cur (dir +:+ "/" +:+ name)) "" = name.
Proof.
  intros Hname. revert cur. induction dir as [| a dir IH]; intros cur.
  - rewrite UtilsFacts.string_app_nil, py_split_go_match, py_split_go_single by done.
    simpl. apply rev_rev_app.
  - rewrite UtilsFacts.string_app_cons, py_split_go_step.
    destruct (String.prefix "/" _).
    + simpl String.length. simpl Nat.sub.
      pose proof (py_split_go_nonempty "/" 0 "" (dir +:+ "/" +:+ name)) as Hne.
      specialize (IH ""). destruct (py_split_go "/" 0 "" (dir +:+ "/" +:+ name)); done.
    + apply IH.
Qed.

(** [os.path.basename] of such a path. *)
Lemma basename_of_path (dir name : string) :
  lacks "/" name = true → basename (dir +:+ "/" +:+ name) = name.
Proof. intros Hname. unfold basename, py_split. by apply last_piece_of_path. Qed.

Lemma lacks_not_prefix (a : Ascii.ascii) (s : string) :
  lacks a s = true → String.prefix (String a "") s = false.
Proof.
  destruct s as [| c s]; [done |]. simpl. intros Hs. apply andb_prop in Hs as [Hc _].
  destruct (Ascii.ascii_dec a c) as [-> | Hne]; [| done].
  by rewrite Ascii.eqb_refl in Hc.
Qed.

Lemma basename_plain (plain : string) : lacks "/" plain = true → basename plain = plain.
Proof.
  intros Hplain. unfold basename, py_split. rewrite py_split_go_single by done.
  simpl. apply rev_rev_app.
Qed.

(** A path that resolves to a plain name of the working directory has that
    name as its base name. *)
Lemma basename_of_resolved (dir : list string) (p plain : string) :
  lacks "/" plain = true → resolve dir p = resolve dir plain → basename p = plain.
Proof.
  intros Hplain Heq. unfold resolve in Heq. rewrite (lacks_not_prefix _ _ Hplain) in Heq.
  destruct (String.prefix "/" p).
  - rewrite Heq. by apply basename_of_path.
  - apply (inj (String.append (dir_path dir))) in Heq. simpl in Heq.
    assert (p = plain) as -> by (by injection Heq). by apply basename_plain.
Qed.

(** A file whose name has a template is not a file whose plain name has
    none. *)
Lemma template_name_apart (dir : list string) (p plain name : string) (e : exn) :
  lacks "/" plain = true → template_name plain = Raise e → template_name p = Ret name →
  resolve dir p ≠ resolve dir plain.
Proof.
  intros Hplain Hfail Hname Heq. unfold template_name in *.
  rewrite (basename_of_resolved dir p plain Hplain Heq) in Hname.
  rewrite (basename_plain plain Hplain) in Hfail. congruence.
Qed.

(** Only the first character of the session and of the run enters
    the file-name template, and with it the names of every output: for a
    file [subject_ses-<session>_run-<run>...] (no underscore in subject and
    session, no slash in the name) the template is
    [subject_ses-<c>_run-<d>] with [c] and [d] the first characters of
    session and run, whatever follows them.  Sessions 10 and 11 of a
    subject, or runs 1 and 12, are given the same output names. *)
Theorem template_name_first_characters (dir subject session run : string)
    (c d : Ascii.ascii) :
  lacks "_" subject = true → lacks "/" subject = true →
  lacks "_" (String c session) = true → lacks "/" (String c session) = true →
  d ≠ "_"%char → lacks "/" (String d run) = true →
  template_name
    (dir +:+ "/" +:+ subject +:+ "_ses-" +:+ String c session +:+ "_run-" +:+ String d run)
  = Ret (subject +:+ "_ses-" +:+ String c "" +:+ "_run-" +:+ String d "").
Proof.
  intros Hsub Hsub' Hses Hses' Hd Hrun.
  set (after_ses := String c session +:+ "_run-" +:+ String d run).
  set (name := subject +:+ "_ses-" +:+ after_ses).
  assert (Hbase : basename (dir +:+ "/" +:+ name) = name).
  { apply basename_of_path. unfold name, after_ses.
    rewrite !lacks_app, Hsub', Hses', Hrun. done. }
  assert (Hc : String.prefix "_ses-" after_ses = false).
  { unfold after_ses. rewrite UtilsFacts.string_app_cons, UtilsFacts.prefix_cons.
    destruct (Ascii.ascii_dec _ c) as [<- | _]; [| done]. done. }
  assert (Hsplit1 : ∃ y pieces,
            py_split "_ses-" name = subject :: String c y :: pieces).
  { unfold py_split, name.
    rewrite py_split_go_pass by (by apply lacks_unmatched).
    rewrite py_split_go_match, rev_rev_app.
    unfold after_ses in *. rewrite UtilsFacts.string_app_cons in *.
    rewrite py_split_go_step, Hc.
    destruct (py_split_go_head "_ses-" 0 (String c "") (session +:+ "_run-" +:+ String d run)
                c "" eq_refl) as (y & pieces & ->).
    by exists y, pieces. }
  assert (Hsplit2 : ∃ first y pieces,
            py_split "_run-" name = first :: String d y :: pieces).
  { unfold py_split, name, after_ses.
    replace (subject +:+ "_ses-" +:+ String c session +:+ "_run-" +:+ String d run)
      with ((subject +:+ "_ses-" +:+ String c session) +:+ "_run-" +:+ String d run)
      by (by rewrite !string_app_assoc).
    rewrite py_split_go_pass.
    - rewrite py_split_go_match, py_split_go_step.
      replace (String.prefix "_run-" (String d run)) with false
        by (rewrite UtilsFacts.prefix_cons; by destruct (Ascii.ascii_dec _ d) as [<- | _]).
      destruct (py_split_go_head "_run-" 0 (String d "") run d "" eq_refl)
        as (y & pieces & ->).
      by eexists _, y, pieces.
    - apply unmatched_app; [by apply lacks_unmatched |].
      apply unmatched_app; [repeat split; reflexivity |].
      by apply lacks_unmatched. }
  destruct Hsplit1 as (y1 & pieces1 & Hsplit1).
  destruct Hsplit2 as (first & y2 & pieces2 & Hsplit2).
  unfold template_name. fold name. rewrite Hbase. cbv zeta.
  rewrite Hsplit1, Hsplit2. done.
Qed.

End NameFacts.
End NameFacts.

(** * Edge behaviour of utils.py *)

Module UtilsEdges.
Import Utils UtilsFacts.
Section UtilsEdges.
Context {V : Type} {num : Float64 V} {tools : Collaborators V} {disk : Nibabel V}.

Lemma resolve_absolute (dir : list string) (p : string) :
  String.prefix "/" (resolve dir p) = true.
Proof.
  unfold resolve. destruct (String.prefix "/" p) eqn:Hp; [done |].
  destruct dir as [| name dir]; cbn [dir_path foldr];
    by rewrite ?string_app_cons, ?string_app_nil, prefix_cons, prefix_nil.
Qed.

(** A name built on a resolved path is absolute as well. *)
Lemma resolve_app_absolute (dir : list string) (p suffix : string) :
  resolve dir (resolve dir p +:+ suffix) = resolve dir p +:+ suffix.
Proof.
  pose proof (resolve_absolute dir p) as Habs.
  unfold resolve at 1. destruct (resolve dir p) as [| c s]; [done |].
  rewrite string_app_cons, prefix_cons in *.
  destruct (Ascii.ascii_dec _ c); [| done]. by rewrite prefix_nil.
Qed.


Lemma with_volumes_twice (dir : list string) (output_prefix : string) (in_nii : nifti V)
    (xs : list nat) (fs : gmap string (file V)) :
  with_volumes dir output_prefix in_nii xs (with_volumes dir output_prefix in_nii xs fs)
  = with_volumes dir output_prefix in_nii xs fs.
Proof.
  apply map_eq. intros p.
  destruct (decide (p ∈ map (volume_path dir output_prefix) xs)) as [Hp | Hp].
  - apply list_elem_of_fmap in Hp as (x & -> & Hx). by rewrite !with_volumes_lookup.
  - rewrite with_volumes_other; [done |]. intros x Hx Heq. apply Hp.
    rewrite <- Heq. by apply (list_elem_of_fmap_2 (volume_path dir output_prefix)).
Qed.

(** Splitting is idempotent: a second split of the same series in the
    same directory returns the same names and leaves every file as the
    first split left it. *)
Theorem split_volumes_idempotent (in_file output_prefix : string) (w : world V)
    (in_nii : nifti V) (t : nat) :
  files w !! resolve (cwd w) in_file = Some (NiftiFile in_nii) →
  length (shape (dataobj in_nii)) = 4 ∨ length (shape (dataobj in_nii)) = 5 →
  shape (dataobj in_nii) !! 3 = Some t →
  (∀ x, x < t → volume_path (cwd w) output_prefix x ≠ resolve (cwd w) in_file) →
  let once := split_volumes in_file output_prefix w in
  split_volumes in_file output_prefix once.2 = once.
Proof.
  destruct w as [dir fs out cmds]. simpl. intros Hin Hrank Hd Hfresh.
  rewrite (split_volumes_ok in_file output_prefix in_nii t dir fs out cmds Hin Hrank Hd Hfresh).
  simpl. rewrite (split_volumes_ok in_file output_prefix in_nii t dir _ out cmds); [| | done..].
  - by rewrite with_volumes_twice.
  - rewrite with_volumes_other; [done |].
    intros x Hx. apply Hfresh. apply elem_of_seq in Hx. lia.
Qed.

(** On an input of rank below 4 [split_volumes] reads [shape[3]] before
    it looks at the rank: it stops with an index error, and the message of
    the rank check is not printed; nothing is written. *)
Theorem split_volumes_low_rank (in_file output_prefix : string) (w : world V)
    (in_nii : nifti V) :
  files w !! resolve (cwd w) in_file = Some (NiftiFile in_nii) →
  length (shape (dataobj in_nii)) < 4 →
  split_volumes in_file output_prefix w = (Raise IndexError, w).
Proof.
  intros Hin Hrank. unfold split_volumes.
  rewrite (io_bind_ret _ _ _ _ _ (nb_load_ok in_file w in_nii Hin)).
  unfold py_index. rewrite (proj2 (lookup_ge_None _ _)) by lia. done.
Qed.

(** The loop of [Merge._run_interface] over any 3-D volumes of one shape,
    filling the places from [k] on. *)
Lemma merge_loop_any (w : world V) (X Y Z T : nat) (in_files : list string)
    (vols : list (nifti V)) (k : nat) (combined : ndarray V) :
  Forall2 (λ p v, files w !! resolve (cwd w) p = Some (NiftiFile v) ∧
                  shape (dataobj v) = [X; Y; Z]) in_files vols →
  shape combined = [X; Y; Z; T] → k + length in_files ≤ T →
  ∃ combined',
    for_io in_files merge_one (combined, k) w = (Ret (combined', k + length in_files), w) ∧
    shape combined' = [X; Y; Z; T] ∧
    ∀ a b c, a < X → b < Y → c < Z →
      (∀ i v, vols !! i = Some v →
         item combined' [a; b; c; k + i] = item (dataobj v) [a; b; c]) ∧
      (∀ t, t < k → item combined' [a; b; c; t] = item combined [a; b; c; t]).
Proof.
  intros Hvols. revert k combined.
  induction Hvols as [| p v in_files vols [Hp Hv] _ IH]; intros k combined Hc Hk.
  - exists combined. simpl. rewrite Nat.add_0_r. split; [done |]. split; [done |].
    intros a b c _ _ _. split; [| done]. intros i v Hi. by rewrite lookup_nil in Hi.
  - simpl in Hk.
    destruct (merge_one_ok p combined k w v X Y Z T Hp Hv Hc) as (c1 & Hone & Hs1 & H1); [lia |].
    destruct (IH (k + 1) c1 Hs1) as (c2 & Hrest & Hs2 & H2); [lia |].
    exists c2. split; [| split; [done |]].
    + change (for_io (p :: in_files) merge_one (combined, k))
        with (acc' ← merge_one p (combined, k); for_io in_files merge_one acc').
      rewrite (io_bind_ret _ _ _ _ _ Hone), Hrest. simpl.
      by replace (k + 1 + length in_files) with (k + S (length in_files)) by lia.
    + intros a b c Ha Hb Hc'. destruct (H2 a b c Ha Hb Hc') as [Hnew Hold]. split.
      * intros [| i] u Hu.
        -- injection Hu as ->. rewrite Nat.add_0_r, Hold by lia.
           rewrite H1 by done. by rewrite decide_True.
        -- replace (k + S i) with (k + 1 + i) by lia. by apply Hnew.
      * intros t Ht. rewrite Hold by lia. rewrite H1 by done.
        rewrite decide_False by lia. done.
Qed.

(** [Merge] on any list of one or more 3-D volumes of one shape
    [(X, Y, Z)]: it assembles a float64 array of shape [(X, Y, Z, n)] for
    the [n] files given, whose frame [i] is the [i]-th volume of the list,
    writes it to [<template>_combined.nii.gz] in the working directory under
    the affine and the header of the header donor, and returns that path.
    The file holds the array in the data type of the donor's header: voxel
    for voxel as it is when that type holds float64 values.  Nothing else is
    written or printed and no command is run. *)
Theorem Merge_stacks_volumes (in_files : list string) (header_source : string)
    (w : world V) (vols : list (nifti V)) (donor : nifti V) (X Y Z : nat) (name : string) :
  template_name header_source = Ret name →
  files w !! resolve (cwd w) header_source = Some (NiftiFile donor) →
  Forall2 (λ p v, files w !! resolve (cwd w) p = Some (NiftiFile v) ∧
                  shape (dataobj v) = [X; Y; Z]) in_files vols →
  1 ≤ length in_files →
  let out_file := resolve (cwd w) name +:+ "_combined.nii.gz" in
  ∃ combined,
    Merge_run_interface in_files header_source w
    = (Ret (Some out_file),
       World (cwd w)
         (<[out_file := NiftiFile (Nifti1Image (on_disk (nii_header donor) combined)
                                     (affine donor) (nii_header donor))]>
            (files w))
         (stdout w) (commands w)) ∧
    shape combined = [X; Y; Z; length in_files] ∧
    (∀ i v a b c, vols !! i = Some v → a < X → b < Y → c < Z →
       item combined [a; b; c; i] = item (dataobj v) [a; b; c]) ∧
    (holds_float64 (nii_header donor) →
     ∀ i v a b c, vols !! i = Some v → a < X → b < Y → c < Z →
       item (on_disk (nii_header donor) combined) [a; b; c; i] = item (dataobj v) [a; b; c]).
Proof.
  intros Hname Hdonor Hvols Hlen.
  destruct (merge_loop_any w X Y Z (length in_files) in_files vols 0
              (np_zeros [X; Y; Z; length in_files]) Hvols eq_refl)
    as (combined & Hloop & Hshape & Hitems); [lia |].
  assert (Hframes : ∀ i v a b c, vols !! i = Some v → a < X → b < Y → c < Z →
            item combined [a; b; c; i] = item (dataobj v) [a; b; c]).
  { intros i v a b c Hi Ha Hb Hc. destruct (Hitems a b c Ha Hb Hc) as [Hnew _].
    by apply (Hnew i v). }
  exists combined. split; [| split; [done |]; split; [done |]].
  - destruct Hvols as [| first v0 rest vols' [Hfirst Hs0] _]; [simpl in Hlen; lia |].
    unfold Merge_run_interface.
    erewrite io_bind_ret; [| by apply filename_template_ok].
    erewrite io_bind_lift; [| done].
    erewrite io_bind_ret; [| by apply nb_load_ok].
    erewrite io_bind_ret; [| by apply nb_load_ok].
    do 3 (erewrite io_bind_lift; [| rewrite Hs0; reflexivity]).
    erewrite io_bind_ret; [| exact Hloop].
    cbv beta iota. rewrite decide_False by lia.
    unfold abspath, to_filename_float64, write_file, mbind, io_bind, mret, io_ret. simpl.
    by rewrite resolve_idem, resolve_app_absolute.
  - intros Hexact i v a b c Hi Ha Hb Hc. simpl. rewrite Hexact. by apply Hframes.
Qed.

(** A turn of the loop of [Merge] leaves the world as it is and counts one
    file. *)
Lemma merge_one_counts (file : string) (combined : ndarray V) (i : nat) (w w' : world V)
    (r : outcome (ndarray V * nat)) :
  merge_one file (combined, i) w = (r, w') →
  w' = w ∧ ∀ combined' i', r = Ret (combined', i') → i' = i + 1.
Proof.
  unfold merge_one. intros Hrun.
  apply io_bind_cases in Hrun as [(e & Hrun & ->) | (vol & w1 & Hload & Hrun)].
  { apply nb_load_world in Hrun. done. }
  apply nb_load_world in Hload as ->.
  apply io_bind_cases in Hrun as [(e & Hrun & ->) | (data & w1 & Hdata & Hrun)].
  { apply lift_world in Hrun. done. }
  apply lift_world in Hdata as ->.
  apply io_bind_cases in Hrun as [(e & Hrun & ->) | (c' & w1 & Hset & Hrun)].
  { apply lift_world in Hrun. done. }
  apply lift_world in Hset as ->.
  injection Hrun as <- <-. split; [done |]. by intros ? ? [= _ <-].
Qed.

(** The loop of [Merge] counts every file it is given. *)
Lemma merge_loop_counts (in_files : list string) (combined : ndarray V) (i : nat)
    (w w' : world V) (r : outcome (ndarray V * nat)) :
  for_io in_files merge_one (combined, i) w = (r, w') →
  w' = w ∧ ∀ combined' i', r = Ret (combined', i') → i' = i + length in_files.
Proof.
  revert combined i. induction in_files as [| p in_files IH]; intros combined i Hrun.
  - injection Hrun as <- <-. split; [done |]. intros ? ? [= _ <-]. simpl. lia.
  - change (for_io (p :: in_files) merge_one (combined, i))
      with (acc' ← merge_one p (combined, i); for_io in_files merge_one acc') in Hrun.
    apply io_bind_cases in Hrun as [(e & Hrun & ->) | ([c1 i1] & w1 & Hone & Hrun)].
    { apply merge_one_counts in Hrun as [-> _]. done. }
    apply merge_one_counts in Hone as [-> Hi1]. rewrite (Hi1 c1 i1 eq_refl) in Hrun.
    apply IH in Hrun as [-> Hcount]. split; [done |].
    intros c' i' Hr. rewrite (Hcount c' i' Hr). simpl. lia.
Qed.

(** [Merge] never takes its ["Error occured with Merge."] branch: the
    counter it compares with the number of files is incremented once per
    file, so the two always agree.  A run either raises, and then leaves the
    world exactly as it found it (no message, no partial output), or writes
    the one output file and returns its name. *)
Theorem Merge_count_always_agrees (in_files : list string) (header_source : string)
    (w : world V) :
  let run := Merge_run_interface in_files header_source w in
  (∃ e, run = (Raise e, w)) ∨
  (∃ out_file img,
     run = (Ret (Some out_file),
            World (cwd w) (<[out_file := NiftiFile img]> (files w)) (stdout w) (commands w))).
Proof.
  simpl. destruct (Merge_run_interface in_files header_source w) as [r w'] eqn:Hrun.
  unfold Merge_run_interface in Hrun.
  apply io_bind_cases in Hrun as [(e & Hrun & ->) | (tpl & w1 & Hstep & Hrun)].
  { apply filename_template_world in Hrun as ->. left. by exists e. }
  apply filename_template_world in Hstep as ->.
  apply io_bind_cases in Hrun as [(e & Hrun & ->) | (first & w1 & Hstep & Hrun)].
  { apply lift_world in Hrun as ->. left. by exists e. }
  apply lift_world in Hstep as ->.
  apply io_bind_cases in Hrun as [(e & Hrun & ->) | (img & w1 & Hstep & Hrun)].
  { apply nb_load_world in Hrun as ->. left. by exists e. }
  apply nb_load_world in Hstep as ->.
  apply io_bind_cases in Hrun as [(e & Hrun & ->) | (donor & w1 & Hstep & Hrun)].
  { apply nb_load_world in Hrun as ->. left. by exists e. }
  apply nb_load_world in Hstep as ->.
  do 3 (apply io_bind_cases in Hrun as [(e & Hrun & ->) | (? & w1 & Hstep & Hrun)];
        [apply lift_world in Hrun as ->; left; by exists e |];
        apply lift_world in Hstep as ->).
  apply io_bind_cases in Hrun as [(e & Hrun & ->) | ([combined i] & w1 & Hloop & Hrun)].
  { apply merge_loop_counts in Hrun as [-> _]. left. by exists e. }
  apply merge_loop_counts in Hloop as [-> Hcount].
  rewrite (Hcount combined i eq_refl) in Hrun. rewrite decide_False in Hrun by (simpl; lia).
  unfold abspath, to_filename_float64, write_file, mbind, io_bind, mret, io_ret in Hrun.
  rewrite resolve_idem in Hrun. right. rewrite <- Hrun. by eexists _, _.
Qed.

(** The number of frames [applyTransforms] resamples is the number of
    transforms, not the number of frames of the series: the second split
    overwrites the count of the first.  With [tx] transforms for a series of
    [tb >= tx] frames, and a resampler that succeeds whenever the volumes
    of both splits (and the distortion field, when the flag is set) are in
    place and leaves them in place, it runs the resampler on the frames
    [0 .. tx - 1], in order, returns [tx] output names, and ends normally;
    the frames from [tx] on are split off but never resampled. *)
Theorem applyTransforms_follows_transform_count (in_file xforms fieldwarp : string)
    (use_fieldwarp : bool) (w : world V) (bold motion : nifti V) (tb tx : nat) :
  files w !! resolve (cwd w) in_file = Some (NiftiFile bold) →
  files w !! resolve (cwd w) xforms = Some (NiftiFile motion) →
  length (shape (dataobj bold)) = 4 ∨ length (shape (dataobj bold)) = 5 →
  length (shape (dataobj motion)) = 4 ∨ length (shape (dataobj motion)) = 5 →
  shape (dataobj bold) !! 3 = Some tb →
  shape (dataobj motion) !! 3 = Some tx →
  1 ≤ tb → tx ≤ tb →
  let dir := cwd w in
  let bold_vol x := resolve dir ("bold_vol" +:+ py_str x +:+ ".nii.gz") in
  let xform_vol x := resolve dir ("xform_vol" +:+ py_str x +:+ ".nii.gz") in
  let output x := resolve dir ("deformed_volume" +:+ py_str (x + 1) +:+ ".nii.gz") in
  let command x :=
    antsApplyTransforms_cmd 3 true (bold_vol x) (bold_vol 0) (output x)
      (xform_vol x :: (if use_fieldwarp then [fieldwarp] else [])) "LanczosWindowedSinc" in
  let in_place (fs : gmap string (file V)) :=
    (∀ y, y < tb → fs !! bold_vol y = Some (volume_file bold y)) ∧
    (∀ y, y < tx → fs !! xform_vol y = Some (volume_file motion y)) ∧
    (use_fieldwarp = true →
     fs !! resolve dir fieldwarp = files w !! resolve dir fieldwarp) in
  (∀ x, x < tb → bold_vol x ≠ resolve dir in_file ∧ bold_vol x ≠ resolve dir xforms) →
  (∀ x, x < tx → xform_vol x ≠ resolve dir xforms) →
  (use_fieldwarp = true →
   (∀ x, x < tb → bold_vol x ≠ resolve dir fieldwarp) ∧
   (∀ x, x < tx → xform_vol x ≠ resolve dir fieldwarp)) →
  (∀ x fs, x < tx → in_place fs →
     ∃ fs', exec (command x) dir fs = Ret fs' ∧ in_place fs') →
  let run := applyTransforms_run_interface in_file use_fieldwarp fieldwarp xforms w in
  run.1 = Ret (map output (seq 0 tx)) ∧
  map fst (commands run.2) = map fst (commands w) ++ map command (seq 0 tx).
Proof.
  destruct w as [dir0 fs out cmds].
  intros Hin Hxf Hrb Hrm Htb Htm Hb Hle dir bold_vol xform_vol output command in_place
    Hfresh Hfresh' Hfield Hexec run.
  assert (Hplace : in_place (with_volumes dir0 "xform_" motion (seq 0 tx)
                              (with_volumes dir0 "bold_" bold (seq 0 tb) fs))).
  { destruct (splits_in_place dir0 bold motion tb tx fs) as (Hvb & Hvx & Ho).
    split; [exact Hvb | split; [exact Hvx |]]. intros Hflag.
    destruct (Hfield Hflag) as [Hf1 Hf2]. apply Ho; [exact Hf1 | exact Hf2]. }
  destruct (applyTransforms_frames in_file xforms fieldwarp use_fieldwarp dir0 fs out cmds
              bold motion tb tx tx in_place Hin Hxf Hrb Hrm Htb Htm Hfresh Hfresh'
              Hb Hle ltac:(lia) Hplace Hexec)
    as (snaps & fs_end & out_end & Hrun & Hlen & Hsnaps & _).
  unfold run. rewrite Hrun, Nat.sub_diag. cbn [seq for_io].
  unfold mret, io_ret. cbn [fst snd commands]. split; [done |].
  rewrite map_app, map_fst_zip by (rewrite length_map, length_seq; lia). done.
Qed.

(** With more transforms than frames ([tb < tx]) and such a resampler,
    [applyTransforms] resamples every frame of the series and then stops
    with an index error when it looks for the volume of frame [tb]: the
    commands have run, but no list of outputs is returned. *)
Theorem applyTransforms_transforms_outnumber_frames (in_file xforms fieldwarp : string)
    (use_fieldwarp : bool) (w : world V) (bold motion : nifti V) (tb tx : nat) :
  files w !! resolve (cwd w) in_file = Some (NiftiFile bold) →
  files w !! resolve (cwd w) xforms = Some (NiftiFile motion) →
  length (shape (dataobj bold)) = 4 ∨ length (shape (dataobj bold)) = 5 →
  length (shape (dataobj motion)) = 4 ∨ length (shape (dataobj motion)) = 5 →
  shape (dataobj bold) !! 3 = Some tb →
  shape (dataobj motion) !! 3 = Some tx →
  tb < tx →
  let dir := cwd w in
  let bold_vol x := resolve dir ("bold_vol" +:+ py_str x +:+ ".nii.gz") in
  let xform_vol x := resolve dir ("xform_vol" +:+ py_str x +:+ ".nii.gz") in
  let output x := resolve dir ("deformed_volume" +:+ py_str (x + 1) +:+ ".nii.gz") in
  let command x :=
    antsApplyTransforms_cmd 3 true (bold_vol x) (bold_vol 0) (output x)
      (xform_vol x :: (if use_fieldwarp then [fieldwarp] else [])) "LanczosWindowedSinc" in
  let in_place (fs : gmap string (file V)) :=
    (∀ y, y < tb → fs !! bold_vol y = Some (volume_file bold y)) ∧
    (∀ y, y < tx → fs !! xform_vol y = Some (volume_file motion y)) ∧
    (use_fieldwarp = true →
     fs !! resolve dir fieldwarp = files w !! resolve dir fieldwarp) in
  (∀ x, x < tb → bold_vol x ≠ resolve dir in_file ∧ bold_vol x ≠ resolve dir xforms) →
  (∀ x, x < tx → xform_vol x ≠ resolve dir xforms) →
  (use_fieldwarp = true →
   (∀ x, x < tb → bold_vol x ≠ resolve dir fieldwarp) ∧
   (∀ x, x < tx → xform_vol x ≠ resolve dir fieldwarp)) →
  (∀ x fs, x < tb → in_place fs →
     ∃ fs', exec (command x) dir fs = Ret fs' ∧ in_place fs') →
  let run := applyTransforms_run_interface in_file use_fieldwarp fieldwarp xforms w in
  run.1 = Raise IndexError ∧
  map fst (commands run.2) = map fst (commands w) ++ map command (seq 0 tb).
Proof.
  destruct w as [dir0 fs out cmds].
  intros Hin Hxf Hrb Hrm Htb Htm Hlt dir bold_vol xform_vol output command in_place
    Hfresh Hfresh' Hfield Hexec run.
  destruct tb as [| tb'].
  { destruct (applyTransforms_after_splits in_file xforms fieldwarp use_fieldwarp dir0 fs out
                cmds bold motion 0 tx Hin Hxf Hrb Hrm Htb Htm Hfresh Hfresh') as (out2 & Hrun).
    unfold run. rewrite Hrun. simpl. by rewrite app_nil_r. }
  assert (Hplace : in_place (with_volumes dir0 "xform_" motion (seq 0 tx)
                              (with_volumes dir0 "bold_" bold (seq 0 (S tb')) fs))).
  { destruct (splits_in_place dir0 bold motion (S tb') tx fs) as (Hvb & Hvx & Ho).
    split; [exact Hvb | split; [exact Hvx |]]. intros Hflag.
    destruct (Hfield Hflag) as [Hf1 Hf2]. apply Ho; [exact Hf1 | exact Hf2]. }
  destruct (applyTransforms_frames in_file xforms fieldwarp use_fieldwarp dir0 fs out cmds
              bold motion (S tb') tx (S tb') in_place Hin Hxf Hrb Hrm Htb Htm Hfresh Hfresh'
              ltac:(lia) ltac:(lia) ltac:(lia) Hplace Hexec)
    as (snaps & fs_end & out_end & Hrun & Hlen & Hsnaps & _).
  unfold run. rewrite Hrun.
  destruct (tx - S tb') as [| rest] eqn:Hrest; [lia |].
  change (seq (S tb') (S rest)) with (S tb' :: seq (S (S tb')) rest).
  change (for_io (?k :: ?xs) ?body ?acc) with (acc' ← body k acc; for_io xs body acc').
  erewrite io_bind_raise; cycle 1.
  { unfold resample_one. apply io_bind_raise.
    unfold py_index.
    rewrite list_lookup_fmap, (proj2 (lookup_ge_None _ _)) by (rewrite length_seq; lia).
    done. }
  cbn [fst snd commands]. split; [done |].
  rewrite map_app, map_fst_zip by (rewrite length_map, length_seq; lia). done.
Qed.

(** A failure of the resampler on frame [k] is fatal: with a resampler
    that succeeds on the frames before [k] whenever the volumes of both
    splits (and the distortion field, when the flag is set) are in place,
    leaving them in place, and that fails on frame [k] with these files in
    place, the error is raised unchanged, the frames before [k] have been
    resampled, the command of frame [k] is the last one run, and no frame
    after [k] is tried. *)
Theorem applyTransforms_stops_at_failure (in_file xforms fieldwarp : string)
    (use_fieldwarp : bool) (w : world V) (bold motion : nifti V) (tb tx k : nat) (e : exn) :
  files w !! resolve (cwd w) in_file = Some (NiftiFile bold) →
  files w !! resolve (cwd w) xforms = Some (NiftiFile motion) →
  length (shape (dataobj bold)) = 4 ∨ length (shape (dataobj bold)) = 5 →
  length (shape (dataobj motion)) = 4 ∨ length (shape (dataobj motion)) = 5 →
  shape (dataobj bold) !! 3 = Some tb →
  shape (dataobj motion) !! 3 = Some tx →
  k < tx → tx ≤ tb →
  let dir := cwd w in
  let bold_vol x := resolve dir ("bold_vol" +:+ py_str x +:+ ".nii.gz") in
  let xform_vol x := resolve dir ("xform_vol" +:+ py_str x +:+ ".nii.gz") in
  let output x := resolve dir ("deformed_volume" +:+ py_str (x + 1) +:+ ".nii.gz") in
  let command x :=
    antsApplyTransforms_cmd 3 true (bold_vol x) (bold_vol 0) (output x)
      (xform_vol x :: (if use_fieldwarp then [fieldwarp] else [])) "LanczosWindowedSinc" in
  let in_place (fs : gmap string (file V)) :=
    (∀ y, y < tb → fs !! bold_vol y = Some (volume_file bold y)) ∧
    (∀ y, y < tx → fs !! xform_vol y = Some (volume_file motion y)) ∧
    (use_fieldwarp = true →
     fs !! resolve dir fieldwarp = files w !! resolve dir fieldwarp) in
  (∀ x, x < tb → bold_vol x ≠ resolve dir in_file ∧ bold_vol x ≠ resolve dir xforms) →
  (∀ x, x < tx → xform_vol x ≠ resolve dir xforms) →
  (use_fieldwarp = true →
   (∀ x, x < tb → bold_vol x ≠ resolve dir fieldwarp) ∧
   (∀ x, x < tx → xform_vol x ≠ resolve dir fieldwarp)) →
  (∀ x fs, x < k → in_place fs →
     ∃ fs', exec (command x) dir fs = Ret fs' ∧ in_place fs') →
  (∀ fs, in_place fs → exec (command k) dir fs = Raise e) →
  let run := applyTransforms_run_interface in_file use_fieldwarp fieldwarp xforms w in
  run.1 = Raise e ∧
  map fst (commands run.2) = map fst (commands w) ++ map command (seq 0 (S k)).
Proof.
  destruct w as [dir0 fs out cmds].
  intros Hin Hxf Hrb Hrm Htb Htm Hk Hle dir bold_vol xform_vol output command in_place
    Hfresh Hfresh' Hfield Hexec Hfail run.
  assert (Hplace : in_place (with_volumes dir0 "xform_" motion (seq 0 tx)
                              (with_volumes dir0 "bold_" bold (seq 0 tb) fs))).
  { destruct (splits_in_place dir0 bold motion tb tx fs) as (Hvb & Hvx & Ho).
    split; [exact Hvb | split; [exact Hvx |]]. intros Hflag.
    destruct (Hfield Hflag) as [Hf1 Hf2]. apply Ho; [exact Hf1 | exact Hf2]. }
  destruct (applyTransforms_frames in_file xforms fieldwarp use_fieldwarp dir0 fs out cmds
              bold motion tb tx k in_place Hin Hxf Hrb Hrm Htb Htm Hfresh Hfresh'
              ltac:(lia) ltac:(lia) ltac:(lia) Hplace Hexec)
    as (snaps & fs_end & out_end & Hrun & Hlen & Hsnaps & Hend).
  unfold run. rewrite Hrun.
  destruct (tx - k) as [| rest] eqn:Hrest; [lia |].
  change (seq k (S rest)) with (k :: seq (S k) rest).
  change (for_io (?k :: ?xs) ?body ?acc) with (acc' ← body k acc; for_io xs body acc').
  erewrite io_bind_raise; cycle 1.
  { rewrite (UtilsFacts.resample_one_run use_fieldwarp fieldwarp tb tx k _ dir0 fs_end out_end)
      by lia.
    apply io_bind_raise. apply run_command_fails. exact (Hfail fs_end Hend). }
  cbn [fst snd commands]. split; [done |].
  rewrite !map_app, map_fst_zip by (rewrite length_map, length_seq; lia).
  rewrite seq_S, map_app, <- app_assoc. done.
Qed.

(** [Merge] does not write a partial output: when the volumes before
    the [k]-th fit the shape [(X, Y, Z)] of the first and the [k]-th is a
    3-D volume with an axis whose length is neither that of the first
    volume nor 1, the assignment of that volume raises [ValueError] and
    the world is left exactly as it was. *)
Theorem Merge_rejects_misfit (fitting rest : list string) (misfit header_source : string)
    (w : world V) (vols : list (nifti V)) (bad donor : nifti V) (X Y Z x y z : nat)
    (name : string) :
  template_name header_source = Ret name →
  files w !! resolve (cwd w) header_source = Some (NiftiFile donor) →
  Forall2 (λ p v, files w !! resolve (cwd w) p = Some (NiftiFile v) ∧
                  shape (dataobj v) = [X; Y; Z]) fitting vols →
  1 ≤ length fitting →
  files w !! resolve (cwd w) misfit = Some (NiftiFile bad) →
  shape (dataobj bad) = [x; y; z] →
  (x ≠ 1 ∧ x ≠ X) ∨ (y ≠ 1 ∧ y ≠ Y) ∨ (z ≠ 1 ∧ z ≠ Z) →
  Merge_run_interface (fitting ++ misfit :: rest) header_source w = (Raise ValueError, w).
Proof.
  intros Hname Hdonor Hvols Hlen Hbad Hsb Hmis.
  set (T := length (fitting ++ misfit :: rest)).
  assert (HT : length fitting < T) by (unfold T; rewrite length_app; simpl; lia).
  destruct (merge_loop_any w X Y Z T fitting vols 0 (np_zeros [X; Y; Z; T]) Hvols eq_refl)
    as (combined & Hloop & Hshape & _); [lia |].
  destruct Hvols as [| first v0 fitting' vols' [Hfirst Hs0] Hvols']; [simpl in Hlen; lia |].
  unfold Merge_run_interface.
  erewrite io_bind_ret; [| by apply filename_template_ok].
  erewrite io_bind_lift; [| done].
  erewrite io_bind_ret; [| by apply nb_load_ok].
  erewrite io_bind_ret; [| by apply nb_load_ok].
  do 3 (erewrite io_bind_lift; [| rewrite Hs0; reflexivity]).
  fold T. apply io_bind_raise.
  rewrite for_io_app. erewrite io_bind_ret; [| exact Hloop].
  change (for_io (misfit :: rest) merge_one ?acc)
    with (acc' ← merge_one misfit acc; for_io rest merge_one acc').
  apply io_bind_raise. unfold merge_one.
  erewrite io_bind_ret; [| by apply nb_load_ok].
  erewrite io_bind_lift; [| unfold slice3; rewrite Hsb; reflexivity].
  apply io_bind_raise. unfold lift, set_axis3. rewrite Hshape, Hsb.
  destruct (Nat.ltb_spec (0 + length (first :: fitting')) T); [| lia].
  cbn [length Nat.sub strip_leading_ones].
  rewrite decide_False; [done |].
  intros Hfit. apply Forall2_cons in Hfit as [Hx Hfit].
  apply Forall2_cons in Hfit as [Hy Hfit]. apply Forall2_cons in Hfit as [Hz _].
  lia.
Qed.

Lemma global_signal_of_defined (data : ndarray V) :
  4 ≤ length (shape data) → ∃ trace, global_signal_of data = Ret trace.
Proof.
  intros Hrank. destruct (shape data) as [| d0 [| d1 [| d2 [| t rest]]]] eqn:Hs;
    try (simpl in Hrank; lia).
  unfold global_signal_of.
  destruct (slice_axis3_ok data d0 d1 d2 t rest 0 50 Hs) as (a0 & -> & Hs0 & _).
  rewrite outcome_bind_ret.
  destruct (mean_axis0_ok a0 _ _ Hs0) as (a1 & -> & Hs1). rewrite outcome_bind_ret.
  destruct (mean_axis0_ok a1 _ _ Hs1) as (a2 & -> & Hs2). rewrite outcome_bind_ret.
  destruct (mean_axis0_ok a2 _ _ Hs2) as (a3 & -> & Hs3). by exists a3.
Qed.

(** A series whose file name cannot be parsed (it lacks the ['_ses-'] or
    the ['_run-'] part) is rejected by [EstimateReferenceImage] only after
    the image is loaded and the dummy volumes are counted, but before
    anything is written or run: the error of the name parsing comes out and
    the world is as it was. *)
Theorem EstimateReferenceImage_unparsable_name (in_file : string) (w : world V)
    (img : nifti V) (e : exn) :
  files w !! resolve (cwd w) in_file = Some (NiftiFile img) →
  4 ≤ length (shape (dataobj img)) →
  template_name in_file = Raise e →
  EstimateReferenceImage_run_interface in_file w = (Raise e, w).
Proof.
  intros Hin Hrank Hname.
  destruct (global_signal_of_defined (dataobj img) Hrank) as [trace Htrace].
  destruct (shape (dataobj img)) as [| d0 [| d1 [| d2 [| t rest]]]] eqn:Hs;
    try (simpl in Hrank; lia).
  destruct (slice_axis3_ok (dataobj img) d0 d1 d2 t rest 0 50 Hs) as (data_slice & Hslice & _).
  unfold EstimateReferenceImage_run_interface.
  erewrite io_bind_ret; [| by apply nb_load_ok].
  erewrite io_bind_lift; [| done].
  erewrite io_bind_ret; [| by apply _get_vols_to_discard_ok].
  apply io_bind_raise. unfold filename_template. apply io_bind_raise.
  unfold lift. by rewrite Hname.
Qed.

(** The series handed to the solver is neither of the two targets. *)
Lemma series_apart (dir : list string) (in_file name plain : string) (t : nat) :
  template_name in_file = Ret name →
  plain = "median.nii.gz" ∨ plain = "tmp_median.nii.gz" →
  resolve dir plain
  ≠ resolve dir (if 40 <? t then resolve dir "slice.nii.gz" else in_file).
Proof.
  intros Hname Hplain Heq. destruct (40 <? t).
  - rewrite resolve_idem in Heq. apply resolve_inj in Heq.
    + destruct Hplain as [-> | ->]; discriminate.
    + destruct Hplain as [-> | ->]; reflexivity.
  - symmetry in Heq. revert Heq.
    destruct Hplain as [-> | ->];
      by apply (NameFacts.template_name_apart dir in_file _ name IndexError).
Qed.

(** The first target of the two-pass path and the world it leaves: the
    series and the target are there. *)
Lemma initial_target_run (in_file : string) (w : world V) (img : nifti V)
    (d0 d1 d2 t : nat) (data_slice : ndarray V) (name : string) :
  files w !! resolve (cwd w) in_file = Some (NiftiFile img) →
  shape (dataobj img) = [d0; d1; d2; t] →
  slice_axis3 (dataobj img) 0 50 = Ret data_slice →
  template_name in_file = Ret name →
  ∃ fs0 series,
    initial_target in_file (clear_extensions img) data_slice w
    = (Ret (if 40 <? t then resolve (cwd w) "slice.nii.gz" else in_file,
            resolve (cwd w) "median.nii.gz"),
       World (cwd w) fs0 (stdout w) (commands w)) ∧
    fs0 !! resolve (cwd w) (if 40 <? t then resolve (cwd w) "slice.nii.gz" else in_file)
    = Some (NiftiFile series) ∧
    4 ≤ length (shape (dataobj series)) ∧
    is_Some (fs0 !! resolve (cwd w) "median.nii.gz").
Proof.
  intros Hin Hs Hslice Hname.
  pose proof (series_apart (cwd w) in_file name "median.nii.gz" t Hname ltac:(by left))
    as Hapart.
  destruct (slice_axis3_ok (dataobj img) d0 d1 d2 t [] 0 50 Hs)
    as (data_slice' & Hslice' & Hs1 & H1).
  rewrite Hslice in Hslice'. injection Hslice' as <-.
  unfold initial_target. simpl dataobj. rewrite Hs. simpl reverse.
  erewrite io_bind_lift; [| done].
  destruct (Nat.ltb_spec 40 t) as [Hlong | Hshort].
  - destruct (slice_axis3_ok data_slice d0 d1 d2 _ [] 20 40 Hs1)
      as (window & Hwin & Hs2 & H2).
    destruct (np_median_axis3_ok window d0 d1 d2 _ [] Hs2) as (median & Hmed & Hs3 & H3).
    eexists _, (Nifti1Image window _ _). split; [| split; [| split]].
    + unfold abspath, to_filename, to_filename_float64, write_file, mbind, io_bind, mret,
        io_ret, lift.
      rewrite Hwin, Hmed. simpl. reflexivity.
    + rewrite (resolve_idem _ "median.nii.gz"), lookup_insert_ne by exact Hapart.
      by rewrite lookup_insert_eq.
    + simpl. rewrite Hs2. simpl. lia.
    + rewrite !resolve_idem, lookup_insert_eq. by eexists.
  - destruct (np_median_axis3_ok data_slice d0 d1 d2 _ [] Hs1) as (median & Hmed & Hs3 & H3).
    eexists _, img. split; [| split; [| split]].
    + unfold abspath, to_filename_float64, write_file, mbind, io_bind, mret, io_ret, lift.
      rewrite Hmed. simpl. reflexivity.
    + rewrite (resolve_idem _ "median.nii.gz"), lookup_insert_ne by exact Hapart. done.
    + rewrite Hs. simpl. lia.
    + rewrite !resolve_idem, lookup_insert_eq. by eexists.
Qed.

(** [EstimateReferenceImage] without dummy volumes, up to the first pass. *)
Lemma two_pass_entry (in_file : string) (w : world V) (img : nifti V)
    (d0 d1 d2 t : nat) (name : string) (trace : ndarray V) :
  files w !! resolve (cwd w) in_file = Some (NiftiFile img) →
  shape (dataobj img) = [d0; d1; d2; t] →
  template_name in_file = Ret name →
  global_signal_of (dataobj img) = Ret trace →
  is_outlier trace = 0 →
  ∃ fs0 series,
    EstimateReferenceImage_run_interface in_file w
    = (median_image_data ←
         two_pass (clear_extensions img)
           (if 40 <? t then resolve (cwd w) "slice.nii.gz" else in_file)
           (resolve (cwd w) "median.nii.gz");
       to_filename_float64
         (Nifti1Image median_image_data (affine img) (Header [] (fields (nii_header img))))
         (resolve (cwd w) name +:+ "_bold_ref.nii.gz");;
       mret (resolve (cwd w) name +:+ "_bold_ref.nii.gz", 0))
        (World (cwd w) fs0 (stdout w) (commands w)) ∧
    fs0 !! resolve (cwd w) (if 40 <? t then resolve (cwd w) "slice.nii.gz" else in_file)
    = Some (NiftiFile series) ∧
    4 ≤ length (shape (dataobj series)) ∧
    is_Some (fs0 !! resolve (cwd w) "median.nii.gz").
Proof.
  intros Hin Hs Hname Htrace Hn.
  destruct (slice_axis3_ok (dataobj img) d0 d1 d2 t [] 0 50 Hs)
    as (data_slice & Hslice & _ & _).
  destruct (initial_target_run in_file w img d0 d1 d2 t data_slice name Hin Hs Hslice Hname)
    as (fs0 & series & Hinit & Hfacts).
  exists fs0, series. split; [| done]. unfold EstimateReferenceImage_run_interface.
  erewrite io_bind_ret; [| by apply nb_load_ok].
  erewrite io_bind_lift; [| done].
  erewrite io_bind_ret; [| by apply _get_vols_to_discard_ok].
  erewrite io_bind_ret; [| by apply filename_template_ok].
  erewrite io_bind_ret; [| reflexivity].
  rewrite Hn. rewrite decide_True by done.
  rewrite io_bind_assoc. erewrite io_bind_ret; [| exact Hinit].
  cbv beta iota. by rewrite resolve_app_absolute.
Qed.




(** Without dummy volumes, a failure of the first run of the motion
    solver is fatal: its error is raised, the solver is the only command
    run, and neither the renaming nor a second run is tried. *)
Theorem reference_first_pass_failure (in_file : string) (w : world V) (img : nifti V)
    (d0 d1 d2 t : nat) (name : string) (trace : ndarray V) (e : exn) :
  files w !! resolve (cwd w) in_file = Some (NiftiFile img) →
  shape (dataobj img) = [d0; d1; d2; t] →
  template_name in_file = Ret name →
  global_signal_of (dataobj img) = Ret trace →
  is_outlier trace = 0 →
  (∀ ref src fs, exec (antsMotionCorr_cmd ref src) (cwd w) fs = Raise e) →
  let run := EstimateReferenceImage_run_interface in_file w in
  let slice_fname := if 40 <? t then resolve (cwd w) "slice.nii.gz" else in_file in
  run.1 = Raise e ∧
  map fst (commands run.2)
  = map fst (commands w)
    ++ [antsMotionCorr_cmd (resolve (cwd w) "median.nii.gz") slice_fname].
Proof.
  intros Hin Hs Hname Htrace Hn Hsolver. cbv zeta.
  destruct (two_pass_entry in_file w img d0 d1 d2 t name trace Hin Hs Hname Htrace Hn)
    as (fs0 & s & -> & _).
  erewrite io_bind_raise; cycle 1.
  { unfold two_pass, antsMotionCorr_run.
    erewrite io_bind_ret; [| reflexivity].
    apply io_bind_raise. erewrite io_bind_ret; [| reflexivity].
    apply io_bind_raise. apply run_command_fails. apply Hsolver. }
  cbn [fst snd cwd files commands]. by rewrite map_app.
Qed.


End UtilsEdges.
End UtilsEdges.

(** * Edge behaviour of confounds.py *)

Module ConfoundsEdges.
Import Confounds ConfoundsFacts.
Section ConfoundsEdges.
Context {V : Type} {num : Float64 V} {tools : Collaborators V}.

(** The cells of one row: the inner loop of [extract_rigid_movpar] over the
    cell indices [lo .. lo + len - 1] of row [j]. *)
Lemma extract_row_cells (row : list string) (j n lo len : nat) (movpar : ndarray V) :
  shape movpar = [n; 6] → j < n → 2 ≤ lo → lo + len ≤ 8 →
  (∀ i, lo ≤ i < lo + len → ∃ cell v, row !! i = Some cell ∧ f_of_string cell = Some v) →
  ∃ movpar',
    for_each (seq lo len) (λ i movpar,
       cell ← py_index row i; v ← py_float cell; set_item2 movpar j (i - 2) v) movpar
    = Ret movpar' ∧
    shape movpar' = [n; 6] ∧
    ∀ r c, item2 movpar' r c
           = if decide (r = j ∧ lo ≤ c + 2 < lo + len)
             then default f_zero (row !! (c + 2) ≫= f_of_string)
             else item2 movpar r c.
Proof.
  revert lo movpar. induction len as [| len IH]; intros lo movpar Hs Hj Hlo Hhi Hcells.
  - exists movpar. split; [done |]. split; [done |].
    intros r c. rewrite decide_False by lia. done.
  - destruct (Hcells lo) as (cell & v & Hcell & Hv); [lia |].
    destruct (set_item2_ok movpar n 6 j (lo - 2) v Hs Hj) as (a1 & Hset & Hs1 & H1); [lia |].
    destruct (IH (S lo) a1 Hs1 Hj) as (a2 & Hrest & Hs2 & H2); [lia | lia | |].
    { intros i Hi. apply Hcells. lia. }
    exists a2. split; [| split; [done |]].
    + change (seq lo (S len)) with (lo :: seq (S lo) len).
      change (for_each (?x :: ?xs) ?body ?acc) with (acc' ← body x acc; for_each xs body acc').
      unfold py_index, py_float. rewrite Hcell. rewrite !outcome_bind_ret, Hv.
      rewrite outcome_bind_ret, Hset, outcome_bind_ret. exact Hrest.
    + intros r c. rewrite H2, H1.
      destruct (decide (r = j ∧ c = lo - 2)) as [[-> ->] | Hne].
      * rewrite decide_False by lia. rewrite decide_True by lia.
        replace (lo - 2 + 2) with lo by lia. by rewrite Hcell; simpl; rewrite Hv.
      * repeat case_decide; done || lia.
Qed.

(** The loop of [extract_rigid_movpar] over the rows that follow the first
    [j] rows. *)
Lemma extract_rows_cells (todo : list (list string)) (n j : nat) (movpar : ndarray V) :
  shape movpar = [n; 6] → j + length todo ≤ n →
  (∀ r c, j ≤ r → item2 movpar r c = f_zero) →
  Forall (λ row, length row ≤ 8 ∧
                 Forall (λ cell, is_Some (f_of_string cell)) (drop 2 row)) todo →
  ∃ movpar',
    for_each todo (λ row '(movpar, j),
       movpar ← for_each (range2 2 (length row)) (λ i movpar,
                   cell ← py_index row i; v ← py_float cell;
                   set_item2 movpar j (i - 2) v) movpar;
       Ret (movpar, j + 1)) (movpar, j)
    = Ret (movpar', j + length todo) ∧
    shape movpar' = [n; 6] ∧
    ∀ r c, c < 6 →
      item2 movpar' r c
      = match todo !! (r - j) with
        | Some row =>
            if decide (j ≤ r) then default f_zero (row !! (c + 2) ≫= f_of_string)
            else item2 movpar r c
        | None => item2 movpar r c
        end.
Proof.
  intros Hs Hn Hzero Hrows. revert j movpar Hs Hn Hzero.
  induction Hrows as [| row todo [Hlen Hcells] _ IH]; intros j movpar Hs Hn Hzero.
  - exists movpar. simpl. rewrite Nat.add_0_r. split; [done |]. split; [done |].
    intros r c _. by destruct (r - j).
  - simpl in Hn.
    destruct (extract_row_cells row j n 2 (length row - 2) movpar Hs) as (a1 & Hrow & Hs1 & H1);
      [lia | lia | lia | |].
    { intros i Hi. destruct (row !! i) as [cell |] eqn:Hcell.
      - rewrite Forall_lookup in Hcells.
        destruct (Hcells (i - 2) cell) as [v Hv].
        { rewrite lookup_drop. by replace (2 + (i - 2)) with i by lia. }
        by exists cell, v.
      - apply lookup_ge_None in Hcell. lia. }
    destruct (IH (j + 1) a1 Hs1) as (a2 & Hrest & Hs2 & H2); [lia | |].
    { intros r c Hr. rewrite H1, decide_False by lia. apply Hzero. lia. }
    exists a2. split; [| split; [done |]].
    + change (for_each (?x :: ?xs) ?body ?acc) with (acc' ← body x acc; for_each xs body acc').
      cbv beta iota. change (range2 2 (length row)) with (seq 2 (length row - 2)).
      rewrite Hrow, !outcome_bind_ret, Hrest.
      simpl. by replace (j + 1 + length todo) with (j + S (length todo)) by lia.
    + intros r c Hc. rewrite (H2 r c Hc), H1.
      destruct (decide (r = j)) as [-> | Hne].
      * rewrite Nat.sub_diag. replace (j - (j + 1)) with 0 by lia.
        cbn [lookup list_lookup]. rewrite (decide_True (P := j ≤ j)) by lia.
        assert (Hcell : (if decide (j = j ∧ 2 ≤ c + 2 < 2 + (length row - 2))
                         then default f_zero (row !! (c + 2) ≫= f_of_string)
                         else item2 movpar j c)
                        = default f_zero (row !! (c + 2) ≫= f_of_string)).
        { case_decide as Hin; [done |].
          rewrite (proj2 (lookup_ge_None row (c + 2))) by lia. simpl. apply Hzero. lia. }
        rewrite Hcell. destruct (todo !! 0); [by rewrite decide_False by lia | done].
      * destruct (decide (j ≤ r)) as [Hge | Hlt].
        -- replace (r - j) with (S (r - (j + 1))) by lia. cbn [lookup list_lookup].
           destruct (todo !! (r - (j + 1))) as [row' |].
           ++ rewrite decide_True by lia. done.
           ++ rewrite decide_False by lia. done.
        -- replace (r - j) with 0 by lia. replace (r - (j + 1)) with 0 by lia.
           cbn [lookup list_lookup].
           destruct (todo !! 0); [rewrite decide_False by lia |]; rewrite decide_False by lia; done.
Qed.

(** [extract_rigid_movpar] on a file whose rows after the header
    have at most 8 cells, numeric from the third cell on: the header row
    and the first two cells of every row are ignored, row [j] of the result
    holds the cells 2 to 7 of line [j] after the header, and a row with
    fewer than 8 cells is filled up with zeros instead of being rejected.
    The world is left as it was. *)
Theorem extract_rigid_movpar_cells (movpar_csv : string) (w : world V)
    (head : list string) (data : list (list string)) :
  files w !! resolve (cwd w) movpar_csv = Some (CsvFile (head :: data)) →
  Forall (λ row, length row ≤ 8 ∧
                 Forall (λ cell, is_Some (f_of_string cell)) (drop 2 row)) data →
  ∃ rigid_params,
    extract_rigid_movpar movpar_csv w = (Ret rigid_params, w) ∧
    shape rigid_params = [length data; 6] ∧
    ∀ j row c, data !! j = Some row → c < 6 →
      item2 rigid_params j c = default f_zero (row !! (c + 2) ≫= f_of_string).
Proof.
  intros Hfile Hrows.
  destruct (extract_rows_cells data (length data) 0 (np_zeros [length data; 6]) eq_refl)
    as (rigid & Hrun & Hshape & Hitems); [lia | done | done |].
  exists rigid. split; [| split; [done |]].
  - unfold extract_rigid_movpar.
    erewrite io_bind_ret;
      [| unfold read_csv, read_file, mbind, io_bind; by rewrite Hfile].
    replace (length (head :: data) - 1) with (length data) by (simpl; lia).
    erewrite io_bind_lift; [| exact Hrun]. done.
  - intros j row c Hrow Hc. rewrite (Hitems j c Hc), Nat.sub_0_r, Hrow.
    by rewrite decide_True by lia.
Qed.

(** The inner loop of [extract_rigid_movpar] cannot get past the cell of
    index 8: the table has no column for it. *)
Lemma extract_row_overrun (row : list string) (j n len lo : nat) (movpar : ndarray V) :
  shape movpar = [n; 6] → 2 ≤ lo → lo ≤ 8 < lo + len →
  ∃ e,
    for_each (seq lo len) (λ i movpar,
       cell ← py_index row i; v ← py_float cell; set_item2 movpar j (i - 2) v) movpar
    = Raise e ∧ (e = IndexError ∨ e = ValueError).
Proof.
  revert lo movpar. induction len as [| len IH]; intros lo movpar Hs Hlo Hhi; [lia |].
  change (seq lo (S len)) with (lo :: seq (S lo) len).
  change (for_each (?x :: ?xs) ?body ?acc) with (acc' ← body x acc; for_each xs body acc').
  cbv beta. unfold py_index, py_float.
  destruct (row !! lo) as [cell |]; [| exists IndexError; split; [done | by left]].
  rewrite outcome_bind_ret.
  destruct (f_of_string cell) as [v |]; [| exists ValueError; split; [done | by right]].
  rewrite outcome_bind_ret.
  destruct (set_item2 movpar j (lo - 2) v) as [a1 | e] eqn:Hset.
  - rewrite outcome_bind_ret.
    pose proof (set_item2_shape _ _ _ _ _ Hset) as Hs1. rewrite Hs in Hs1.
    destruct (decide (lo = 8)) as [-> | Hne].
    + unfold set_item2 in Hset. rewrite Hs in Hset. simpl in Hset.
      by rewrite andb_false_r in Hset.
    + apply IH; [done | lia | lia].
  - exists e. split; [done |]. left.
    unfold set_item2 in Hset. rewrite Hs in Hset.
    destruct (_ && _); [done | by injection Hset as <-].
Qed.

(** A line of the motion-parameter file with more than 8 cells makes
    [extract_rigid_movpar] fail (with an index error at its ninth cell,
    unless a cell before it is not a number): lines that are too long are
    rejected, while lines that are too short are filled up with zeros. *)
Theorem extract_rigid_movpar_long_row (movpar_csv : string) (w : world V)
    (head : list string) (data : list (list string)) :
  files w !! resolve (cwd w) movpar_csv = Some (CsvFile (head :: data)) →
  Exists (λ row, 8 < length row) data →
  ∃ e, extract_rigid_movpar movpar_csv w = (Raise e, w) ∧ (e = IndexError ∨ e = ValueError).
Proof.
  intros Hfile Hlong.
  assert (Hloop : ∀ n j (movpar : ndarray V), shape movpar = [n; 6] →
            ∃ e, for_each data (λ row '(movpar, j),
                    movpar ← for_each (range2 2 (length row)) (λ i movpar,
                                cell ← py_index row i; v ← py_float cell;
                                set_item2 movpar j (i - 2) v) movpar;
                    Ret (movpar, j + 1)) (movpar, j)
                 = Raise e ∧ (e = IndexError ∨ e = ValueError)).
  { clear Hfile. intros n.
    induction Hlong as [row todo Hrow | row todo _ IH]; intros j movpar Hs.
    - change (for_each (?x :: ?xs) ?body ?acc) with (acc' ← body x acc; for_each xs body acc').
      cbv beta iota. change (range2 2 (length row)) with (seq 2 (length row - 2)).
      destruct (extract_row_overrun row j n (length row - 2) 2 movpar Hs) as (e & -> & He);
        [lia | lia |].
      by exists e.
    - change (for_each (?x :: ?xs) ?body ?acc) with (acc' ← body x acc; for_each xs body acc').
      cbv beta iota.
      destruct (for_each (range2 2 (length row)) _ movpar) as [a1 | e] eqn:Hrow.
      + rewrite !outcome_bind_ret. apply IH.
        eapply (for_each_invariant (λ acc, shape acc = [n; 6])) in Hrow; [done | | done].
        intros x b b' Hx Hb.
        destruct (py_index row x) as [cell |]; [| done]. rewrite outcome_bind_ret in Hx.
        destruct (py_float cell) as [v |]; [| done]. rewrite outcome_bind_ret in Hx.
        apply set_item2_shape in Hx. congruence.
      + exists e. split; [done |].
        assert (Hkinds : ∀ (xs : list nat) (a : ndarray V),
                  shape a = [n; 6] →
                  for_each xs (λ i movpar,
                     cell ← py_index row i; v ← py_float cell;
                     set_item2 movpar j (i - 2) v) a = Raise e →
                  e = IndexError ∨ e = ValueError).
        { clear. induction xs as [| x xs IHxs]; intros a Hs; [done |].
          change (for_each (?x :: ?xs) ?body ?acc)
            with (acc' ← body x acc; for_each xs body acc').
          cbv beta. unfold py_index, py_float.
          destruct (row !! x) as [cell |]; [| intros [= <-]; by left].
          rewrite outcome_bind_ret.
          destruct (f_of_string cell) as [v |]; [| intros [= <-]; by right].
          rewrite outcome_bind_ret.
          destruct (set_item2 a j (x - 2) v) as [a1 | e'] eqn:Hset.
          - rewrite outcome_bind_ret. apply IHxs.
            apply set_item2_shape in Hset. congruence.
          - intros [= <-]. left. unfold set_item2 in Hset. rewrite Hs in Hset.
            destruct (_ && _); [done | by injection Hset as <-]. }
        exact (Hkinds _ movpar Hs Hrow). }
  destruct (Hloop (length data) 0 (np_zeros [length data; 6]) eq_refl) as (e & Hrun & He).
  exists e. split; [| done].
  unfold extract_rigid_movpar.
  erewrite io_bind_ret;
    [| unfold read_csv, read_file, mbind, io_bind; by rewrite Hfile].
  replace (length (head :: data) - 1) with (length data) by (simpl; lia).
  apply io_bind_raise. unfold lift. by rewrite Hrun.
Qed.

(** The columns of a table, as [ConfoundRegression] appends them. *)
Lemma columns_of_ok (a : ndarray V) (n m : nat) :
  shape a = [n; m] →
  columns_of a = Ret (map (λ c, map (λ r, item2 a r c) (seq 0 n)) (seq 0 m)).
Proof.
  intros Hs. unfold columns_of, py_index. rewrite Hs.
  change ([n; m] !! 1) with (Some m). cbv beta iota. rewrite ?outcome_bind_ret.
  assert (Hloop : ∀ len k (acc : list (list V)), k + len ≤ m →
            for_each (seq k len) (λ param acc, col ← get_col a 0 0 param; Ret (acc ++ [col])) acc
            = Ret (acc ++ map (λ c, map (λ r, item2 a r c) (seq 0 n)) (seq k len))).
  { induction len as [| len IH]; intros k acc Hk.
    - simpl. by rewrite app_nil_r.
    - change (seq k (S len)) with (k :: seq (S k) len).
      change (for_each (?x :: ?xs) ?body ?acc) with (acc' ← body x acc; for_each xs body acc').
      cbv beta. rewrite (get_col_ok a n m 0 0 k Hs) by lia.
      rewrite !outcome_bind_ret, IH by lia.
      rewrite <- app_assoc. simpl. by rewrite !Nat.sub_0_r. }
  unfold range. by rewrite Hloop.
Qed.

(** Cutting a table into its columns and stacking the columns again,
    as [ConfoundRegression] does with every block of regressors, keeps
    every value in its row: in the array built from the regressors before,
    the columns of the table and the regressors after, column
    [length before + c] of row [r] is cell [(r, c)] of the table, provided
    all regressors have one value per row of the table. *)
Theorem regressor_columns_keep_values (a : ndarray V) (n m : nat)
    (before after : list (list V)) :
  shape a = [n; m] → 1 ≤ m →
  Forall (λ col, length col = n) before →
  Forall (λ col, length col = n) after →
  ∃ cols table,
    columns_of a = Ret cols ∧
    np_transpose_asarray (before ++ cols ++ after) = Ret table ∧
    shape table = [n; length before + m + length after] ∧
    ∀ r c, r < n → c < m → item2 table r (length before + c) = item2 a r c.
Proof.
  intros Hs Hm Hbefore Hafter.
  set (cols := map (λ c, map (λ r, item2 a r c) (seq 0 n)) (seq 0 m)).
  assert (Hcols : Forall (λ col, length col = n) cols).
  { apply Forall_forall. intros col Hcol. apply list_elem_of_fmap in Hcol as (c & -> & _).
    by rewrite length_map, length_seq. }
  assert (Hall : Forall (λ col, length col = n) (before ++ cols ++ after))
    by (by repeat apply Forall_app_2).
  exists cols. unfold np_transpose_asarray.
  destruct (before ++ cols ++ after) as [| first regressors] eqn:Hlist.
  { apply (f_equal length) in Hlist. rewrite !length_app in Hlist.
    unfold cols in Hlist. rewrite length_map, length_seq in Hlist. simpl in Hlist. lia. }
  assert (Hfirst : length first = n) by (by apply Forall_cons in Hall as [? _]).
  rewrite decide_True by (by rewrite Hfirst).
  eexists. split; [by apply columns_of_ok |]. split; [done |]. split.
  - simpl. rewrite Hfirst. f_equal. f_equal.
    apply (f_equal length) in Hlist. rewrite !length_app in Hlist.
    unfold cols in Hlist. rewrite length_map, length_seq in Hlist. simpl in Hlist. lia.
  - intros r c Hr Hc. unfold item2 at 1. cbn [item]. rewrite <- Hlist.
    rewrite app_nth2 by lia. replace (length before + c - length before) with c by lia.
    rewrite app_nth1 by (unfold cols; rewrite length_map, length_seq; lia).
    unfold cols. rewrite (nth_map_seq _ [] 0 m c Hc), Nat.add_0_l.
    by rewrite (nth_map_seq _ f_zero 0 n r Hr).
Qed.

Lemma while_cum_var_bounds (rest : list V) (cum_var : V) (num_comp n : nat) :
  while_cum_var rest cum_var num_comp = Ret n →
  num_comp ≤ n ≤ num_comp + length rest ∧ (f_le cum_var f_half = true → num_comp < n).
Proof.
  revert cum_var num_comp. induction rest as [| x rest IH]; intros cum_var num_comp; simpl.
  - destruct (f_le cum_var f_half); [done |]. intros [= <-]. split; [lia | done].
  - destruct (f_le cum_var f_half).
    + intros Hrun. apply IH in Hrun as [Hn _]. split; [lia |]. intros _. lia.
    + intros [= <-]. split; [lia | done].
Qed.

(** Under the ['50%'] method [compute_aCompCor] never asks the
    decomposition for zero components and never for more components than
    there are explained-variance ratios: as [0 <= 0.5], the loop takes at
    least one turn, and it cannot count past the last ratio without
    raising.  Whatever the outcome, the world is left as it was. *)
Theorem compute_aCompCor_component_count (bold mask : string) (w : world V)
    (mask_img bold_img : nifti V) (X : ndarray V) (explained_variance : list V) :
  files w !! resolve (cwd w) mask = Some (NiftiFile mask_img) →
  files w !! resolve (cwd w) bold = Some (NiftiFile bold_img) →
  masker_fit_transform mask_img bold_img = Ret X →
  pca_explained_variance_ratio X = Ret explained_variance →
  f_le f_zero f_half = true →
  let run := compute_aCompCor bold mask "50%" w in
  run.2 = w ∧
  ((∃ e, run.1 = Raise e) ∨
   (∃ comp_timeseries num_comp,
      run.1 = Ret (comp_timeseries, num_comp) ∧
      1 ≤ num_comp ≤ length explained_variance ∧
      pca_fit_transform num_comp X = Ret comp_timeseries)).
Proof.
  intros Hmask Hbold HX Hev Hzero. cbv zeta. unfold compute_aCompCor.
  rewrite (io_bind_ret _ _ _ _ _ (nb_load_ok _ _ _ Hmask)).
  rewrite (io_bind_ret _ _ _ _ _ (nb_load_ok _ _ _ Hbold)).
  unfold mbind at 1, io_bind, lift. rewrite HX.
  rewrite decide_True by done.
  unfold mbind, io_bind, lift, mret, io_ret, outcome_bind. rewrite Hev.
  destruct (while_cum_var explained_variance f_zero 0) as [n | e] eqn:Hloop.
  - apply while_cum_var_bounds in Hloop as [Hn Hpos]. specialize (Hpos Hzero).
    simpl.
    destruct (pca_fit_transform n X) as [comp | e] eqn:Hfit; simpl.
    + split; [done |]. right. exists comp, n. split; [done |]. split; [lia | done].
    + split; [done |]. left. by exists e.
  - simpl. split; [done |]. left. by exists e.
Qed.

(** [write_confound_csv] on a 2-D table: with one name per column it
    writes the table to [<template>_confounds.csv], one row per time point
    under the names given, touches no other file and returns the path; with
    any other number of names it raises and writes nothing. *)
Theorem write_confound_csv_table (confound_array : ndarray V) (column_names : list string)
    (template : string) (w : world V) (n m : nat) :
  shape confound_array = [n; m] →
  let run := write_confound_csv confound_array column_names template w in
  let csv_path := resolve (cwd w) (template +:+ "_confounds.csv") in
  (length column_names = m →
   run.1 = Ret csv_path ∧
   ∃ rows,
     files run.2 !! csv_path = Some (DataFrameCsv (DataFrame column_names rows)) ∧
     length rows = n ∧
     (∀ r c, r < n → c < m → rows !! r ≫= (.!! c) = Some (item2 confound_array r c)) ∧
     (∀ p, p ≠ csv_path → files run.2 !! p = files w !! p) ∧
     commands run.2 = commands w) ∧
  (length column_names ≠ m → run = (Raise ValueError, w)).
Proof.
  intros Hs. cbv zeta. unfold write_confound_csv. rewrite Hs. split.
  - intros Hlen. rewrite decide_True by done.
    unfold abspath, write_file, mbind, io_bind, mret, io_ret. cbn [fst snd cwd files commands].
    rewrite UtilsFacts.resolve_idem. split; [done |].
    exists (to_rows confound_array). split; [by rewrite lookup_insert_eq |].
    unfold to_rows, range. rewrite Hs. split; [by rewrite length_map, length_seq |].
    split; [| split; [| done]].
    + intros r c Hr Hc.
      rewrite list_lookup_fmap, lookup_seq_lt by done. simpl.
      rewrite list_lookup_fmap, lookup_seq_lt by done. done.
    + intros p Hp. by rewrite lookup_insert_ne.
  - intros Hlen. by rewrite decide_False.
Qed.

End ConfoundsEdges.
End ConfoundsEdges.
(** * The statements at concrete inputs *)

Module Examples.
Import Rational Confounds Utils ConfoundsFacts UtilsFacts.

(** The expansion of a two-frame table. *)
Lemma motion_24_params_table_witness :
  ∃ movpar, motion_24_params movpar_path two_frames = (Ret movpar, two_frames) ∧
    shape movpar = [2; 24] ∧
    ∀ r i, r < 2 → i < 6 →
      item2 movpar r i = item2 (rigid_params_in two_frames) r i ∧
      item2 movpar r (6 + i) = lagged (rigid_params_in two_frames) r i ∧
      item2 movpar r (12 + i) = f_square (item2 (rigid_params_in two_frames) r i) ∧
      item2 movpar r (18 + i) = f_square (lagged (rigid_params_in two_frames) r i).
Proof.
  apply (motion_24_params_table movpar_path two_frames two_frames
           (rigid_params_in two_frames) 2);
    [reflexivity | reflexivity | lia].
Defined.

(** The same table, cell by cell. *)
Example motion_24_params_two_frames :
  (let r := (motion_24_params movpar_path two_frames).1 in
   match r with Ret movpar => to_rows movpar | Raise _ => [] end)
  = [[1; 2; 3; 4; 5; 6; 1; 2; 3; 4; 5; 6;
      1; 4; 9; 16; 25; 36; 1; 4; 9; 16; 25; 36];
     [7; 8; 9; 10; 11; 12; 1; 2; 3; 4; 5; 6;
      49; 64; 81; 100; 121; 144; 1; 4; 9; 16; 25; 36]]%Q.
Proof. vm_compute. reflexivity. Qed.

(** C1 as stated fails without a frame: a motion-parameter file with only
    its header row gives a table of 0 rows and 6 columns, on which
    [motion_24_params] raises instead of returning a table of 0 rows and 24
    columns. *)
Lemma motion_24_params_no_frame :
  shape (rigid_params_in no_frame) = [0; 6] ∧
  extract_rigid_movpar movpar_path no_frame = (Ret (rigid_params_in no_frame), no_frame) ∧
  motion_24_params movpar_path no_frame = (Raise IndexError, no_frame).
Proof. split; [reflexivity |]. split; [reflexivity |]. vm_compute. reflexivity. Qed.

(** The toy decomposition returns as many columns as it is asked for. *)
Lemma pass_through_columns (dummy : nat) (variance : list Q) :
  pca_returns_k_columns (tools := pass_through dummy variance).
Proof. intros k X comp [= <-]. reflexivity. Qed.

(** C2 at a concrete run: three frames, one component for each tissue. *)
Lemma ConfoundRegression_never_returns_witness :
  let run := ConfoundRegression_run_interface (tools := pass_through 0 [3 # 5; 2 # 5])
               bold_path movpar_path "/data/brain_mask.nii.gz" "/data/WM_mask.nii.gz"
               "/data/CSF_mask.nii.gz" "50%" confound_inputs in
  (∃ e, run.1 = Raise e) ∧ files run.2 = files confound_inputs ∧
  ∀ template confounds csv_columns confound_array w1 w2,
    filename_template bold_path confound_inputs = (Ret template, w1) →
    assemble_confounds (tools := pass_through 0 [3 # 5; 2 # 5])
      bold_path movpar_path "/data/brain_mask.nii.gz" "/data/WM_mask.nii.gz"
      "/data/CSF_mask.nii.gz" "50%" w1
      = (Ret (confounds, csv_columns), w2) →
    np_transpose_asarray confounds = Ret confound_array →
    length confounds = length csv_columns + 6 ∧ run.1 = Raise ValueError.
Proof.
  apply (ConfoundRegression_never_returns (tools := pass_through 0 [3 # 5; 2 # 5])).
  apply pass_through_columns.
Defined.

(** The same run evaluated: 29 columns are assembled, 23 names are given,
    and assigning the names raises. *)
Example ConfoundRegression_sample_run :
  let tools := pass_through 0 [3 # 5; 2 # 5] in
  (let r := (assemble_confounds (tools := tools)
               bold_path movpar_path "/data/brain_mask.nii.gz" "/data/WM_mask.nii.gz"
               "/data/CSF_mask.nii.gz" "50%" confound_inputs).1 in
   match r with
   | Ret (confounds, csv_columns) => Some (length confounds, csv_columns)
   | Raise _ => None
   end)
  = Some (29, ["WM_signal"; "WM_comp1"; "CSF_signal"; "CSF_comp1"; "global_signal";
               "mov1-1"; "mov2-1"; "mov3-1"; "rot1-1"; "rot2-1"; "rot3-1";
               "mov1^2"; "mov2^2"; "mov3^2"; "rot1^2"; "rot2^2"; "rot3^2";
               "mov1-1^2"; "mov2-1^2"; "mov3-1^2"; "rot1-1^2"; "rot2-1^2"; "rot3-1^2"]) ∧
  ConfoundRegression_run_interface (tools := tools)
    bold_path movpar_path "/data/brain_mask.nii.gz" "/data/WM_mask.nii.gz"
    "/data/CSF_mask.nii.gz" "50%" confound_inputs
  = (Raise ValueError, confound_inputs).
Proof. split; vm_compute; reflexivity. Qed.

(** C3 at a concrete mask. *)
Lemma compute_aCompCor_selects_witness :
  let tools := pass_through 0 [3 # 10; 3 # 10; 2 # 10; 2 # 10] in
  let w := confound_inputs in
  let X := masked (ramp [2; 1; 1; 3]) in
  (∀ explained_variance,
     pca_explained_variance_ratio (Collaborators := tools) X = Ret explained_variance →
     (∃ k, k ≤ length explained_variance ∧
           exceeds_half (cum_var_after explained_variance k)) →
     ∃ num_comp,
       num_comp ≤ length explained_variance ∧
       exceeds_half (cum_var_after explained_variance num_comp) ∧
       (∀ m, m < num_comp → ¬ exceeds_half (cum_var_after explained_variance m)) ∧
       compute_aCompCor (tools := tools) bold_path "/data/WM_mask.nii.gz" "50%" w =
         (comp_timeseries ← pca_fit_transform (Collaborators := tools) num_comp X;
          Ret (comp_timeseries, num_comp), w)) ∧
  compute_aCompCor (tools := tools) bold_path "/data/WM_mask.nii.gz" "first_5" w =
    (comp_timeseries ← pca_fit_transform (Collaborators := tools) 5 X;
     Ret (comp_timeseries, 5), w).
Proof.
  apply (compute_aCompCor_selects
           (tools := pass_through 0 [3 # 10; 3 # 10; 2 # 10; 2 # 10])
           bold_path "/data/WM_mask.nii.gz" confound_inputs
           (ramp [2; 1; 1]) (ramp [2; 1; 1; 3]) (masked (ramp [2; 1; 1; 3])));
    reflexivity.
Defined.

(** Two dominant components that together explain more than half of the
    variance: 2 components; a first component of exactly one half does not
    exceed the threshold, so a second one is taken; ratios that never pass
    one half run the loop off the end. *)
Example while_cum_var_examples :
  while_cum_var [3 # 10; 3 # 10; 2 # 10; 2 # 10]%Q 0%Q 0 = Ret 2 ∧
  while_cum_var [1 # 2; 3 # 10; 2 # 10]%Q 0%Q 0 = Ret 2 ∧
  while_cum_var [6 # 10; 4 # 10]%Q 0%Q 0 = Ret 1 ∧
  while_cum_var [1 # 4; 1 # 4]%Q 0%Q 0 = Raise IndexError.
Proof. repeat split; vm_compute; reflexivity. Qed.

(** C10 at a concrete method name. *)
Lemma compute_aCompCor_unbound_witness :
  compute_aCompCor (tools := pass_through 0 [3 # 5; 2 # 5])
    bold_path "/data/WM_mask.nii.gz" "first_10" confound_inputs
  = (Raise UnboundLocalError, confound_inputs).
Proof.
  apply (compute_aCompCor_unbound (tools := pass_through 0 [3 # 5; 2 # 5])
           bold_path "/data/WM_mask.nii.gz" "first_10" confound_inputs
           (ramp [2; 1; 1]) (ramp [2; 1; 1; 3]) (masked (ramp [2; 1; 1; 3])));
    first [reflexivity | discriminate].
Defined.

(** In the sample worlds the volumes are written next to, not over, the
    series: the first are under /work, the second under /data. *)
Ltac apart := intros Heq; vm_compute in Heq; discriminate Heq.




(** C7 with 45 frames: the window of frames 20 to 39. *)
Lemma initial_target_of_two_pass_witness :
  let w := series_world [1; 1; 1; 45] in
  let img := ramp [1; 1; 1; 45] in
  ∃ slice_fname fs median target more,
    commands (EstimateReferenceImage_run_interface (tools := pass_through 0 [])
                bold_path w).2
      = commands w
        ++ (antsMotionCorr_cmd (resolve (cwd w) "median.nii.gz") slice_fname, fs) :: more ∧
    slice_fname = (if 40 <? 45 then resolve (cwd w) "slice.nii.gz" else bold_path) ∧
    shape median = [1; 1; 1] ∧
    (∀ i j k,
       item median [i; j; k]
       = np_median (map (λ f, item (dataobj img) [i; j; k; f])
                      (if 40 <? 45 then seq 20 20 else seq 0 45))) ∧
    fs !! resolve (cwd w) "median.nii.gz" = Some (NiftiFile target) ∧
    dataobj target = on_disk (nii_header target) median ∧
    shape (dataobj target) = [1; 1; 1] ∧
    affine target = affine img ∧
    fields (nii_header target) = fields (nii_header img) ∧
    (holds_float64 (nii_header target) →
     ∀ i j k,
       item (dataobj target) [i; j; k]
       = np_median (map (λ f, item (dataobj img) [i; j; k; f])
                      (if 40 <? 45 then seq 20 20 else seq 0 45))).
Proof.
  apply (initial_target_of_two_pass (tools := pass_through 0 []) bold_path
           (series_world [1; 1; 1; 45]) (ramp [1; 1; 1; 45]) 1 1 1 45
           "sub-01_ses-1_run-1" (trace_of (ramp [1; 1; 1; 45])));
    [ reflexivity | reflexivity | vm_compute; reflexivity | reflexivity | reflexivity ].
Defined.

(** C7 as stated fails at exactly 40 frames: the guard is
    [in_nii.shape[-1] > 40], so the first target is the median of all 40
    frames (19500 at the voxel that holds 1000 times the frame number), not
    the median of frames 20 to 39 (29500). *)
Lemma initial_target_at_40_frames :
  let w := series_world [1; 1; 1; 40] in
  let img := ramp [1; 1; 1; 40] in
  first_target (EstimateReferenceImage_run_interface (tools := pass_through 0 [])
                  bold_path w).2
  = Some ("/work/median.nii.gz", bold_path, 19500%Q) ∧
  np_median (map (λ f, item (dataobj img) [0; 0; 0; f]) (seq 20 20)) = 29500%Q ∧
  np_median (map (λ f, item (dataobj img) [0; 0; 0; f]) (seq 0 40)) = 19500%Q.
Proof. repeat split; vm_compute; reflexivity. Qed.

(** C8 at a 6-D input. *)
Lemma split_volumes_wrong_rank_witness :
  let w := series_world [1; 1; 1; 2; 1; 1] in
  let run := split_volumes bold_path "bold_" w in
  files run.2 = files w ∧
  (∀ volumes, run.1 ≠ Ret (Some volumes)) ∧
  (5 < length (shape (dataobj (ramp [1; 1; 1; 2; 1; 1]))) →
   run = (Ret None,
          World (cwd w) (files w)
            (stdout w ++ ["the input file must be of dimensions 4 or 5"]) (commands w))).
Proof.
  apply (split_volumes_wrong_rank bold_path "bold_" (series_world [1; 1; 1; 2; 1; 1])
           (ramp [1; 1; 1; 2; 1; 1])); [reflexivity | simpl; lia | simpl; lia].
Defined.

(** C8 as stated fails for a 6-D input: the call returns [None] normally
    after printing its message; nothing is raised. *)
Lemma split_volumes_rank6_returns :
  let w := series_world [1; 1; 1; 2; 1; 1] in
  split_volumes bold_path "bold_" w
  = (Ret None,
     World (cwd w) (files w) ["the input file must be of dimensions 4 or 5"] []).
Proof. vm_compute. reflexivity. Qed.

(** The toy executables where the files they read are there. *)
Lemma resample_ok (dir : list string) (input_image reference_image output_image : string)
    (transforms : list string) (fs : gmap string (file Q)) (f : file Q) :
  fs !! resolve dir input_image = Some f →
  Forall (λ p, is_Some (fs !! resolve dir p)) (reference_image :: transforms) →
  resample dir input_image reference_image output_image transforms fs
  = Ret (<[resolve dir output_image := f]> fs).
Proof. intros Hin Hall. unfold resample. rewrite Hin. by rewrite decide_True. Qed.



(** Under /work, with the volumes of both splits in place and the
    distortion field /data/warp.nii.gz as it was, the toy resampler succeeds
    on a frame that has a volume and a transform, and leaves these files in
    place. *)
Lemma resample_keeps (bold motion : nifti Q) (tb tx : nat) (use_fieldwarp : bool)
    (field : file Q) (x : nat) (fs : gmap string (file Q)) :
  x < tb → x < tx →
  (∀ y, y < tb →
     fs !! resolve ["work"] ("bold_vol" +:+ py_str y +:+ ".nii.gz")
     = Some (volume_file bold y)) →
  (∀ y, y < tx →
     fs !! resolve ["work"] ("xform_vol" +:+ py_str y +:+ ".nii.gz")
     = Some (volume_file motion y)) →
  (use_fieldwarp = true → fs !! resolve ["work"] "/data/warp.nii.gz" = Some field) →
  ∃ fs',
    resample ["work"]
      (resolve ["work"] ("bold_vol" +:+ py_str x +:+ ".nii.gz"))
      (resolve ["work"] ("bold_vol" +:+ py_str 0 +:+ ".nii.gz"))
      (resolve ["work"] ("deformed_volume" +:+ py_str (x + 1) +:+ ".nii.gz"))
      (resolve ["work"] ("xform_vol" +:+ py_str x +:+ ".nii.gz")
       :: (if use_fieldwarp then ["/data/warp.nii.gz"] else []))
      fs
    = Ret fs' ∧
    (∀ y, y < tb →
       fs' !! resolve ["work"] ("bold_vol" +:+ py_str y +:+ ".nii.gz")
       = Some (volume_file bold y)) ∧
    (∀ y, y < tx →
       fs' !! resolve ["work"] ("xform_vol" +:+ py_str y +:+ ".nii.gz")
       = Some (volume_file motion y)) ∧
    (use_fieldwarp = true → fs' !! resolve ["work"] "/data/warp.nii.gz" = Some field).
Proof.
  intros Hx Hx' Hb Hxf Hfield. eexists. split; [| split; [| split]].
  - apply (resample_ok _ _ _ _ _ _ (volume_file bold x)).
    + rewrite resolve_idem. by apply Hb.
    + constructor; [| constructor].
      * rewrite resolve_idem, Hb by lia. by eexists.
      * rewrite resolve_idem, Hxf by lia. by eexists.
      * destruct use_fieldwarp; constructor; [| constructor].
        rewrite Hfield by done. by eexists.
  - intros y Hy. rewrite lookup_insert_ne; [by apply Hb | apart].
  - intros y Hy. rewrite lookup_insert_ne; [by apply Hxf | apart].
  - intros Hflag. rewrite lookup_insert_ne; [by apply Hfield | apart].
Qed.

(** C9 at a series of 3 frames with its 3 transforms and a distortion
    field. *)
Lemma applyTransforms_invocations_witness :
  let w := series_and_transforms in
  let tools := pass_through 0 [] in
  let run := applyTransforms_run_interface (tools := tools)
               bold_path true "/data/warp.nii.gz" xforms_path w in
  let dir := cwd w in
  let bold_vol x := resolve dir ("bold_vol" +:+ py_str x +:+ ".nii.gz") in
  let xform_vol x := resolve dir ("xform_vol" +:+ py_str x +:+ ".nii.gz") in
  let output x := resolve dir ("deformed_volume" +:+ py_str (x + 1) +:+ ".nii.gz") in
  let command x :=
    antsApplyTransforms_cmd 3 true (bold_vol x) (bold_vol 0) (output x)
      (xform_vol x :: (if true then ["/data/warp.nii.gz"] else [])) "LanczosWindowedSinc" in
  let in_place (fs : gmap string (file Q)) :=
    (∀ y, y < 3 → fs !! bold_vol y = Some (volume_file (ramp [2; 2; 2; 3]) y)) ∧
    (∀ y, y < 3 → fs !! xform_vol y = Some (volume_file (ramp [2; 2; 2; 3; 2]) y)) ∧
    (true = true →
     fs !! resolve dir "/data/warp.nii.gz" = files w !! resolve dir "/data/warp.nii.gz") in
  ∃ snaps,
    run.1 = Ret (map output (seq 0 3)) ∧
    commands run.2 = commands w ++ zip (map command (seq 0 3)) snaps ∧
    length snaps = 3 ∧
    Forall in_place snaps.
Proof.
  apply (applyTransforms_invocations (tools := pass_through 0 []) bold_path xforms_path
           "/data/warp.nii.gz" true series_and_transforms
           (ramp [2; 2; 2; 3]) (ramp [2; 2; 2; 3; 2]) 3).
  - reflexivity.
  - reflexivity.
  - by left.
  - by right.
  - reflexivity.
  - reflexivity.
  - lia.
  - intros x _; split; apart.
  - intros x _; apart.
  - intros _; split; intros x _; apart.
  - intros x fs Hx (Hb & Hxf & Hfield).
    exact (resample_keeps (ramp [2; 2; 2; 3]) (ramp [2; 2; 2; 3; 2]) 3 3 true
             (NiftiFile (ramp [2; 2; 2; 3])) x fs Hx Hx Hb Hxf Hfield).
Defined.

(** The same run evaluated: the three command lines, and the names
    collected. *)
Example applyTransforms_sample_run :
  let run := applyTransforms_run_interface (tools := pass_through 0 [])
               bold_path true "/data/warp.nii.gz" xforms_path series_and_transforms in
  run.1 = Ret ["/work/deformed_volume1.nii.gz"; "/work/deformed_volume2.nii.gz";
               "/work/deformed_volume3.nii.gz"] ∧
  map fst (commands run.2)
  = [antsApplyTransforms_cmd 3 true "/work/bold_vol0.nii.gz" "/work/bold_vol0.nii.gz"
       "/work/deformed_volume1.nii.gz" ["/work/xform_vol0.nii.gz"; "/data/warp.nii.gz"]
       "LanczosWindowedSinc";
     antsApplyTransforms_cmd 3 true "/work/bold_vol1.nii.gz" "/work/bold_vol0.nii.gz"
       "/work/deformed_volume2.nii.gz" ["/work/xform_vol1.nii.gz"; "/data/warp.nii.gz"]
       "LanczosWindowedSinc";
     antsApplyTransforms_cmd 3 true "/work/bold_vol2.nii.gz" "/work/bold_vol0.nii.gz"
       "/work/deformed_volume3.nii.gz" ["/work/xform_vol2.nii.gz"; "/data/warp.nii.gz"]
       "LanczosWindowedSinc"] ∧
  map fst (commands (applyTransforms_run_interface (tools := pass_through 0 [])
                       bold_path false "/data/warp.nii.gz" xforms_path
                       series_and_transforms).2)
  = [antsApplyTransforms_cmd 3 true "/work/bold_vol0.nii.gz" "/work/bold_vol0.nii.gz"
       "/work/deformed_volume1.nii.gz" ["/work/xform_vol0.nii.gz"] "LanczosWindowedSinc";
     antsApplyTransforms_cmd 3 true "/work/bold_vol1.nii.gz" "/work/bold_vol0.nii.gz"
       "/work/deformed_volume2.nii.gz" ["/work/xform_vol1.nii.gz"] "LanczosWindowedSinc";
     antsApplyTransforms_cmd 3 true "/work/bold_vol2.nii.gz" "/work/bold_vol0.nii.gz"
       "/work/deformed_volume3.nii.gz" ["/work/xform_vol2.nii.gz"] "LanczosWindowedSinc"].
Proof. repeat split; vm_compute; reflexivity. Qed.

(** With fewer transforms than frames the loop stops at the transform
    count: the frames beyond it are not resampled. *)
Example applyTransforms_fewer_transforms :
  let w := world_with [(bold_path, NiftiFile (ramp [2; 2; 2; 3]));
                       (xforms_path, NiftiFile (ramp [2; 2; 2; 2; 2]))] in
  let run := applyTransforms_run_interface (tools := pass_through 0 [])
               bold_path false "/data/warp.nii.gz" xforms_path w in
  run.1 = Ret ["/work/deformed_volume1.nii.gz"; "/work/deformed_volume2.nii.gz"] ∧
  length (commands run.2) = 2.
Proof. split; vm_compute; reflexivity. Qed.

(** On rational numbers the loop guard fails exactly when the running sum
    is strictly above one half. *)
Lemma exceeds_half_rational (v : Q) : exceeds_half v ↔ (1 # 2 < v)%Q.
Proof.
  unfold exceeds_half. simpl. split.
  - intros Hle. apply Qnot_le_lt. intros Hv. apply Qle_bool_iff in Hv. congruence.
  - intros Hlt. destruct (Qle_bool v (1 # 2)) eqn:Hle; [| done].
    apply Qle_bool_iff in Hle. by apply Qlt_not_le in Hlt.
Qed.

(** The component counts of the sample decomposition: two components pass
    one half under ['50%'], five are asked for under ['first_5']. *)
Example compute_aCompCor_sample_counts :
  let tools := pass_through 0 [3 # 10; 3 # 10; 2 # 10; 2 # 10] in
  let count method :=
    match (compute_aCompCor (tools := tools) bold_path "/data/WM_mask.nii.gz"
             method confound_inputs).1 with
    | Ret (comp_timeseries, num_comp) => Some (shape comp_timeseries, num_comp)
    | Raise _ => None
    end in
  count "50%" = Some ([3; 2], 2) ∧ count "first_5" = Some ([3; 5], 5).
Proof. split; vm_compute; reflexivity. Qed.

(** Ratios that never sum above one half. *)
Lemma while_cum_var_overruns_witness :
  while_cum_var [1 # 4; 1 # 4]%Q 0%Q 0 = Raise IndexError.
Proof.
  apply (while_cum_var_overruns [1 # 4; 1 # 4]%Q 0%Q 0).
  intros [| [| [| k]]] Hk; [discriminate | discriminate | discriminate |].
  simpl in Hk. lia.
Defined.

(** The trace of a series of 60 frames has 50 values. *)
Lemma global_signal_of_ok_witness :
  ∃ trace, global_signal_of (dataobj (ramp [2; 2; 2; 60])) = Ret trace ∧
           shape trace = 50 `min` 60 :: [].
Proof. apply (global_signal_of_ok (dataobj (ramp [2; 2; 2; 60])) 2 2 2 60 []). reflexivity. Defined.

End Examples.

(** * The edge cases at concrete inputs *)

Module EdgeExamples.
Import Stdlib.Strings.Ascii.
Import Rational Scripted Confounds Utils UtilsFacts NameFacts ConfoundsEdges UtilsEdges.

(** Names that differ once computed. *)
Ltac differ := intros Heq; vm_compute in Heq; discriminate Heq.


(** A single 3-D volume handed to the split. *)
Lemma split_volumes_low_rank_witness :
  split_volumes bold_path "bold_" (series_world [2; 2; 2])
  = (Raise IndexError, series_world [2; 2; 2]).
Proof.
  apply (split_volumes_low_rank bold_path "bold_" (series_world [2; 2; 2]) (ramp [2; 2; 2]));
    [reflexivity | simpl; lia].
Defined.

(** Two volumes that come from no split, one named by a relative path. *)
Lemma Merge_stacks_volumes_witness :
  let w := world_with [(bold_path, NiftiFile (ramp [2; 2; 2; 5]));
                       ("/work/first.nii.gz", NiftiFile (ramp [2; 2; 2]));
                       ("/work/second.nii.gz", NiftiFile (flat [2; 2; 2] 7))] in
  let in_files := ["/work/first.nii.gz"; "second.nii.gz"] in
  let vols := [ramp [2; 2; 2]; flat [2; 2; 2] 7] in
  let donor := ramp [2; 2; 2; 5] in
  let out_file := resolve (cwd w) "sub-01_ses-1_run-1" +:+ "_combined.nii.gz" in
  ∃ combined,
    Merge_run_interface in_files bold_path w
    = (Ret (Some out_file),
       World (cwd w)
         (<[out_file := NiftiFile (Nifti1Image (on_disk (nii_header donor) combined)
                                     (affine donor) (nii_header donor))]>
            (files w))
         (stdout w) (commands w)) ∧
    shape combined = [2; 2; 2; length in_files] ∧
    (∀ i v a b c, vols !! i = Some v → a < 2 → b < 2 → c < 2 →
       item combined [a; b; c; i] = item (dataobj v) [a; b; c]) ∧
    (holds_float64 (nii_header donor) →
     ∀ i v a b c, vols !! i = Some v → a < 2 → b < 2 → c < 2 →
       item (on_disk (nii_header donor) combined) [a; b; c; i] = item (dataobj v) [a; b; c]).
Proof.
  apply (Merge_stacks_volumes ["/work/first.nii.gz"; "second.nii.gz"] bold_path
           (world_with [(bold_path, NiftiFile (ramp [2; 2; 2; 5]));
                        ("/work/first.nii.gz", NiftiFile (ramp [2; 2; 2]));
                        ("/work/second.nii.gz", NiftiFile (flat [2; 2; 2] 7))])
           [ramp [2; 2; 2]; flat [2; 2; 2] 7] (ramp [2; 2; 2; 5]) 2 2 2
           "sub-01_ses-1_run-1");
    [ vm_compute; reflexivity | reflexivity
    | repeat constructor; reflexivity
    | simpl; lia ].
Defined.

(** Three frames, two transforms. *)
Lemma applyTransforms_follows_transform_count_witness :
  let w := world_with [(bold_path, NiftiFile (ramp [2; 2; 2; 3]));
                       (xforms_path, NiftiFile (ramp [2; 2; 2; 2; 2]))] in
  let run := applyTransforms_run_interface (tools := pass_through 0 [])
               bold_path false "/data/warp.nii.gz" xforms_path w in
  let dir := cwd w in
  let bold_vol x := resolve dir ("bold_vol" +:+ py_str x +:+ ".nii.gz") in
  let xform_vol x := resolve dir ("xform_vol" +:+ py_str x +:+ ".nii.gz") in
  let output x := resolve dir ("deformed_volume" +:+ py_str (x + 1) +:+ ".nii.gz") in
  let command x :=
    antsApplyTransforms_cmd 3 true (bold_vol x) (bold_vol 0) (output x)
      (xform_vol x :: (if false then ["/data/warp.nii.gz"] else [])) "LanczosWindowedSinc" in
  run.1 = Ret (map output (seq 0 2)) ∧
  map fst (commands run.2) = map fst (commands w) ++ map command (seq 0 2).
Proof.
  apply (applyTransforms_follows_transform_count (tools := pass_through 0 [])
           bold_path xforms_path "/data/warp.nii.gz" false
           (world_with [(bold_path, NiftiFile (ramp [2; 2; 2; 3]));
                        (xforms_path, NiftiFile (ramp [2; 2; 2; 2; 2]))])
           (ramp [2; 2; 2; 3]) (ramp [2; 2; 2; 2; 2]) 3 2).
  - reflexivity.
  - reflexivity.
  - by left.
  - by right.
  - reflexivity.
  - reflexivity.
  - lia.
  - lia.
  - intros x _; split; differ.
  - intros x _; differ.
  - intros Hflag. discriminate Hflag.
  - intros x fs Hx (Hb & Hxf & _).
    destruct (Examples.resample_keeps (ramp [2; 2; 2; 3]) (ramp [2; 2; 2; 2; 2]) 3 2 false
                (NiftiFile (ramp [2; 2; 2; 3])) x fs ltac:(lia) Hx Hb Hxf
                ltac:(intros Hflag; discriminate Hflag))
      as (fs' & Hrun & Hb' & Hxf' & _).
    exists fs'. split; [exact Hrun |]. split; [exact Hb' |]. split; [exact Hxf' |].
    intros Hflag. discriminate Hflag.
Defined.

(** Two frames, three transforms. *)
Lemma applyTransforms_transforms_outnumber_frames_witness :
  let w := world_with [(bold_path, NiftiFile (ramp [2; 2; 2; 2]));
                       (xforms_path, NiftiFile (ramp [2; 2; 2; 3; 2]));
                       ("/data/warp.nii.gz", NiftiFile (ramp [2; 2; 2; 3]))] in
  let run := applyTransforms_run_interface (tools := pass_through 0 [])
               bold_path true "/data/warp.nii.gz" xforms_path w in
  let dir := cwd w in
  let bold_vol x := resolve dir ("bold_vol" +:+ py_str x +:+ ".nii.gz") in
  let xform_vol x := resolve dir ("xform_vol" +:+ py_str x +:+ ".nii.gz") in
  let output x := resolve dir ("deformed_volume" +:+ py_str (x + 1) +:+ ".nii.gz") in
  let command x :=
    antsApplyTransforms_cmd 3 true (bold_vol x) (bold_vol 0) (output x)
      (xform_vol x :: (if true then ["/data/warp.nii.gz"] else [])) "LanczosWindowedSinc" in
  run.1 = Raise IndexError ∧
  map fst (commands run.2) = map fst (commands w) ++ map command (seq 0 2).
Proof.
  apply (applyTransforms_transforms_outnumber_frames (tools := pass_through 0 [])
           bold_path xforms_path "/data/warp.nii.gz" true
           (world_with [(bold_path, NiftiFile (ramp [2; 2; 2; 2]));
                        (xforms_path, NiftiFile (ramp [2; 2; 2; 3; 2]));
                        ("/data/warp.nii.gz", NiftiFile (ramp [2; 2; 2; 3]))])
           (ramp [2; 2; 2; 2]) (ramp [2; 2; 2; 3; 2]) 2 3).
  - reflexivity.
  - reflexivity.
  - by left.
  - by right.
  - reflexivity.
  - reflexivity.
  - lia.
  - intros x _; split; differ.
  - intros x _; differ.
  - intros _; split; intros x _; differ.
  - intros x fs Hx (Hb & Hxf & Hfield).
    exact (Examples.resample_keeps (ramp [2; 2; 2; 2]) (ramp [2; 2; 2; 3; 2]) 2 3 true
             (NiftiFile (ramp [2; 2; 2; 3])) x fs Hx ltac:(lia) Hb Hxf Hfield).
Defined.

(** A resampler that refuses the second of three frames. *)
Lemma applyTransforms_stops_at_failure_witness :
  let w := series_and_transforms in
  let tools := scripted (Raise CommandError) true "/work/deformed_volume2.nii.gz" in
  let run := applyTransforms_run_interface (tools := tools)
               bold_path false "/data/warp.nii.gz" xforms_path w in
  let dir := cwd w in
  let bold_vol x := resolve dir ("bold_vol" +:+ py_str x +:+ ".nii.gz") in
  let xform_vol x := resolve dir ("xform_vol" +:+ py_str x +:+ ".nii.gz") in
  let output x := resolve dir ("deformed_volume" +:+ py_str (x + 1) +:+ ".nii.gz") in
  let command x :=
    antsApplyTransforms_cmd 3 true (bold_vol x) (bold_vol 0) (output x)
      (xform_vol x :: (if false then ["/data/warp.nii.gz"] else [])) "LanczosWindowedSinc" in
  run.1 = Raise CommandError ∧
  map fst (commands run.2) = map fst (commands w) ++ map command (seq 0 2).
Proof.
  apply (applyTransforms_stops_at_failure
           (tools := scripted (Raise CommandError) true "/work/deformed_volume2.nii.gz")
           bold_path xforms_path "/data/warp.nii.gz" false series_and_transforms
           (ramp [2; 2; 2; 3]) (ramp [2; 2; 2; 3; 2]) 3 3 1 CommandError).
  - reflexivity.
  - reflexivity.
  - by left.
  - by right.
  - reflexivity.
  - reflexivity.
  - lia.
  - lia.
  - intros x _; split; differ.
  - intros x _; differ.
  - intros Hflag. discriminate Hflag.
  - intros [| x] fs Hx (Hb & Hxf & _); [| lia].
    destruct (Examples.resample_keeps (ramp [2; 2; 2; 3]) (ramp [2; 2; 2; 3; 2]) 3 3 false
                (NiftiFile (ramp [2; 2; 2; 3])) 0 fs ltac:(lia) ltac:(lia) Hb Hxf
                ltac:(intros Hflag; discriminate Hflag))
      as (fs' & Hrun & Hb' & Hxf' & _).
    exists fs'. split; [exact Hrun |]. split; [exact Hb' |]. split; [exact Hxf' |].
    intros Hflag. discriminate Hflag.
  - intros fs _. reflexivity.
Defined.

(** A name without session and run. *)
Lemma EstimateReferenceImage_unparsable_name_witness :
  let w := world_with [(unnamed_path, NiftiFile (ramp [1; 1; 1; 3]))] in
  EstimateReferenceImage_run_interface (tools := pass_through 0 []) unnamed_path w
  = (Raise IndexError, w).
Proof.
  apply (EstimateReferenceImage_unparsable_name (tools := pass_through 0 []) unnamed_path
           (world_with [(unnamed_path, NiftiFile (ramp [1; 1; 1; 3]))])
           (ramp [1; 1; 1; 3]) IndexError);
    [reflexivity | simpl; lia | vm_compute; reflexivity].
Defined.


(** A solver that fails. *)
Lemma reference_first_pass_failure_witness :
  let w := series_world [1; 1; 1; 3] in
  let run := EstimateReferenceImage_run_interface
               (tools := scripted (Raise CommandError) true "") bold_path w in
  let slice_fname := if 40 <? 3 then resolve (cwd w) "slice.nii.gz" else bold_path in
  run.1 = Raise CommandError ∧
  map fst (commands run.2)
  = map fst (commands w)
    ++ [antsMotionCorr_cmd (resolve (cwd w) "median.nii.gz") slice_fname].
Proof.
  apply (reference_first_pass_failure (tools := scripted (Raise CommandError) true "")
           bold_path (series_world [1; 1; 1; 3]) (ramp [1; 1; 1; 3]) 1 1 1 3
           "sub-01_ses-1_run-1" (trace_of (ramp [1; 1; 1; 3])) CommandError);
    [ reflexivity | reflexivity | vm_compute; reflexivity | reflexivity | reflexivity
    | intros ref src fs; reflexivity ].
Defined.


(** Session 12, run 3 of subject 01. *)
Lemma template_name_first_characters_witness :
  template_name
    ("/data" +:+ "/" +:+ "sub-01" +:+ "_ses-" +:+ String "1" "2" +:+ "_run-"
     +:+ String "3" "_bold.nii.gz")
  = Ret ("sub-01" +:+ "_ses-" +:+ String "1" "" +:+ "_run-" +:+ String "3" "").
Proof.
  apply (template_name_first_characters "/data" "sub-01" "2" "_bold.nii.gz" "1" "3");
    [reflexivity | reflexivity | reflexivity | reflexivity | discriminate | reflexivity].
Defined.

(** Sessions 12 and 13 of a subject share their template. *)
Example template_name_collision :
  template_name "/data/sub-01_ses-12_run-1_bold.nii.gz" = Ret "sub-01_ses-1_run-1" ∧
  template_name "/data/sub-01_ses-13_run-1_bold.nii.gz" = Ret "sub-01_ses-1_run-1" ∧
  template_name "/data/sub-01_ses-1_run-12_bold.nii.gz" = Ret "sub-01_ses-1_run-1".
Proof. repeat split; vm_compute; reflexivity. Qed.

(** A motion-parameter file with a short second line. *)
Lemma extract_rigid_movpar_cells_witness :
  let data := [["0"; "m"; "1"; "2"; "3"; "4"; "5"; "6"]; ["1"; "m"; "7"; "8"; "9"]] in
  let w := world_with [(movpar_path, CsvFile (["MOCOparam"; "metric"] :: data))] in
  ∃ rigid_params,
    extract_rigid_movpar movpar_path w = (Ret rigid_params, w) ∧
    shape rigid_params = [length data; 6] ∧
    ∀ j row c, data !! j = Some row → c < 6 →
      item2 rigid_params j c = default f_zero (row !! (c + 2) ≫= f_of_string).
Proof.
  apply (extract_rigid_movpar_cells movpar_path
           (world_with [(movpar_path,
                         CsvFile (["MOCOparam"; "metric"]
                                  :: [["0"; "m"; "1"; "2"; "3"; "4"; "5"; "6"];
                                      ["1"; "m"; "7"; "8"; "9"]]))])
           ["MOCOparam"; "metric"]);
    [ reflexivity
    | repeat first [ by eexists | simpl; lia | constructor ] ].
Defined.

(** The short line evaluated: its last three cells are zero. *)
Example extract_rigid_movpar_short_row :
  let w := world_with [(movpar_path,
                        CsvFile [["MOCOparam"; "metric"];
                                 ["0"; "m"; "1"; "2"; "3"; "4"; "5"; "6"];
                                 ["1"; "m"; "7"; "8"; "9"]])] in
  (let r := (extract_rigid_movpar movpar_path w).1 in
   match r with Ret a => to_rows a | Raise _ => [] end)
  = [[1; 2; 3; 4; 5; 6]; [7; 8; 9; 0; 0; 0]]%Q.
Proof. vm_compute. reflexivity. Qed.

(** Two ratios, the first above one half. *)
Lemma compute_aCompCor_component_count_witness :
  let tools := pass_through 0 [3 # 5; 2 # 5] in
  let w := confound_inputs in
  let X := masked (ramp [2; 1; 1; 3]) in
  let run := compute_aCompCor (tools := tools) bold_path "/data/WM_mask.nii.gz" "50%" w in
  run.2 = w ∧
  ((∃ e, run.1 = Raise e) ∨
   (∃ comp_timeseries num_comp,
      run.1 = Ret (comp_timeseries, num_comp) ∧
      1 ≤ num_comp ≤ length [3 # 5; 2 # 5]%Q ∧
      pca_fit_transform (Collaborators := tools) num_comp X = Ret comp_timeseries)).
Proof.
  apply (compute_aCompCor_component_count (tools := pass_through 0 [3 # 5; 2 # 5])
           bold_path "/data/WM_mask.nii.gz" confound_inputs
           (ramp [2; 1; 1]) (ramp [2; 1; 1; 3]) (masked (ramp [2; 1; 1; 3]))
           [3 # 5; 2 # 5]%Q);
    reflexivity.
Defined.

(** A table of 2 time points and 3 regressors. *)
Lemma write_confound_csv_table_witness :
  let confound_array := dataobj (ramp [2; 3]) in
  let column_names := ["WM_signal"; "CSF_signal"; "global_signal"] in
  let w := world_with [] in
  let run := write_confound_csv confound_array column_names "sub-01_ses-1_run-1" w in
  let csv_path := resolve (cwd w) ("sub-01_ses-1_run-1" +:+ "_confounds.csv") in
  (length column_names = 3 →
   run.1 = Ret csv_path ∧
   ∃ rows,
     files run.2 !! csv_path = Some (DataFrameCsv (DataFrame column_names rows)) ∧
     length rows = 2 ∧
     (∀ r c, r < 2 → c < 3 → rows !! r ≫= (.!! c) = Some (item2 confound_array r c)) ∧
     (∀ p, p ≠ csv_path → files run.2 !! p = files w !! p) ∧
     commands run.2 = commands w) ∧
  (length column_names ≠ 3 → run = (Raise ValueError, w)).
Proof.
  apply (write_confound_csv_table (dataobj (ramp [2; 3]))
           ["WM_signal"; "CSF_signal"; "global_signal"] "sub-01_ses-1_run-1"
           (world_with []) 2 3).
  reflexivity.
Defined.

(** A second volume of another width. *)
Lemma Merge_rejects_misfit_witness :
  let w := world_with [(bold_path, NiftiFile (ramp [2; 2; 2; 5]));
                       ("/work/first.nii.gz", NiftiFile (ramp [2; 2; 2]));
                       ("/work/second.nii.gz", NiftiFile (ramp [3; 2; 2]))] in
  Merge_run_interface (["/work/first.nii.gz"] ++ "/work/second.nii.gz" :: []) bold_path w
  = (Raise ValueError, w).
Proof.
  apply (Merge_rejects_misfit ["/work/first.nii.gz"] [] "/work/second.nii.gz" bold_path
           (world_with [(bold_path, NiftiFile (ramp [2; 2; 2; 5]));
                        ("/work/first.nii.gz", NiftiFile (ramp [2; 2; 2]));
                        ("/work/second.nii.gz", NiftiFile (ramp [3; 2; 2]))])
           [ramp [2; 2; 2]] (ramp [3; 2; 2]) (ramp [2; 2; 2; 5]) 2 2 2 3 2 2
           "sub-01_ses-1_run-1");
    [ vm_compute; reflexivity | reflexivity
    | repeat constructor; reflexivity
    | simpl; lia | reflexivity | reflexivity | left; lia ].
Defined.

(** A volume of a single voxel is not a misfit: it is spread over the
    frame. *)
Example Merge_broadcasts_single_voxel :
  let w := world_with [(bold_path, NiftiFile (ramp [2; 2; 2; 5]));
                       ("/work/first.nii.gz", NiftiFile (ramp [2; 2; 2]));
                       ("/work/second.nii.gz", NiftiFile (flat [1; 1; 1] 7))] in
  (Merge_run_interface ["/work/first.nii.gz"; "/work/second.nii.gz"] bold_path w).1
  = Ret (Some "/work/sub-01_ses-1_run-1_combined.nii.gz").
Proof. vm_compute. reflexivity. Qed.

(** A line of 9 cells. *)
Lemma extract_rigid_movpar_long_row_witness :
  let w := world_with [(movpar_path,
                        CsvFile [["MOCOparam"; "metric"];
                                 ["0"; "m"; "1"; "2"; "3"; "4"; "5"; "6"; "7"]])] in
  ∃ e, extract_rigid_movpar movpar_path w = (Raise e, w) ∧ (e = IndexError ∨ e = ValueError).
Proof.
  apply (extract_rigid_movpar_long_row movpar_path
           (world_with [(movpar_path,
                         CsvFile [["MOCOparam"; "metric"];
                                  ["0"; "m"; "1"; "2"; "3"; "4"; "5"; "6"; "7"]])])
           ["MOCOparam"; "metric"]
           [["0"; "m"; "1"; "2"; "3"; "4"; "5"; "6"; "7"]]);
    [reflexivity | constructor; simpl; lia].
Defined.

(** A second split of the same 3 frames. *)
Lemma split_volumes_idempotent_witness :
  let once := split_volumes bold_path "bold_" (series_world [2; 2; 2; 3]) in
  split_volumes bold_path "bold_" once.2 = once.
Proof.
  apply (split_volumes_idempotent bold_path "bold_" (series_world [2; 2; 2; 3])
           (ramp [2; 2; 2; 3]) 3);
    [reflexivity | by left | reflexivity | intros x _; differ].
Defined.

(** A table of 2 rows and 3 columns between two single regressors. *)
Lemma regressor_columns_keep_values_witness :
  let a := dataobj (ramp [2; 3]) in
  let before := [[5; 6]%Q] in
  let after := [[7; 8]%Q] in
  ∃ cols table,
    columns_of a = Ret cols ∧
    np_transpose_asarray (before ++ cols ++ after) = Ret table ∧
    shape table = [2; length before + 3 + length after] ∧
    ∀ r c, r < 2 → c < 3 → item2 table r (length before + c) = item2 a r c.
Proof.
  apply (regressor_columns_keep_values (dataobj (ramp [2; 3])) 2 3 [[5; 6]%Q] [[7; 8]%Q]);
    [reflexivity | lia | by repeat constructor | by repeat constructor].
Defined.

End EdgeExamples.
